(** * Pet breed analysis: the risk-analysis core and breed registration

    A shallow embedding of [models.py], [schemas.py], [crud.py],
    [services.py] and the two endpoints of [main.py].

    Conventions of the embedding.
    - Integer columns are [Z]; [String] columns and Python [str] values are
      [string] (the UTF-8 bytes, whose lexicographic order is the code-point
      order Python compares by).
    - [Float] columns and Python floats are IEEE 754 doubles.  A float is
      written as a rational [q : Q] that it is the nearest double to, and
      [float64 q] is the double itself: the quotient of two row counts is
      written as the exact quotient, and what [round(x, 4)] returns as the
      decimal it prints as.  Float arithmetic rounds as the doubles do.
    - A Python exception is a value of [exn]; a function that may raise
      returns a [result].
    - [database.py] is not among the sources.  The store is the three tables
      as lists of rows in table order; a request works on its own session,
      whose uncommitted rows are dropped when the request ends. *)

From Stdlib Require Import ZArith QArith Qround Qminmax String Ascii List.
From Stdlib Require Import Qabs Sorted Permutation Lia Lqa.
From stdpp Require Import base decidable option list gmap strings.

Local Open Scope Z_scope.
Local Open Scope string_scope.
Local Open Scope list_scope.

(** ** Exceptions and results *)

Inductive exn : Type :=
| HTTPException (status_code : Z) (detail : string)
| RequestValidationError (detail : string)
| KeyError (key : Z)
| AttributeError
| InvalidRequestError
| IntegrityError.

Inductive result (A : Type) : Type :=
| Ok (a : A)
| Raise (e : exn).
Arguments Ok {A} a.
Arguments Raise {A} e.

Definition bind {A B} (r : result A) (k : A -> result B) : result B :=
  match r with
  | Ok a => k a
  | Raise e => Raise e
  end.

Notation "'let*' x ':=' r 'in' k" := (bind r (fun x => k))
  (at level 10, x name, r at level 100, k at level 200).

Definition HTTP_400_BAD_REQUEST : Z := 400.
Definition HTTP_404_NOT_FOUND : Z := 404.
Definition HTTP_422_UNPROCESSABLE_ENTITY : Z := 422.

(** ** models.py *)

Module Breed.
Record t := mk { id : Z; name : string; species : string }.
End Breed.

Module Disease.
Record t := mk { id : Z; name : string }.
End Disease.

Module BreedDiseaseLink.
Record t := mk { breed_id : Z; disease_id : Z; prevalence : Q }.
Definition key (l : t) : Z * Z := (breed_id l, disease_id l).
End BreedDiseaseLink.

Record Store := mkStore {
  breeds : list Breed.t;
  diseases : list Disease.t;
  breed_disease_links : list BreedDiseaseLink.t
}.

(** The constraints [models.py] declares on the three tables. *)
Record store_ok (db : Store) : Prop := {
  breed_pk : NoDup (map Breed.id (breeds db));
  breed_name_unique : NoDup (map Breed.name (breeds db));
  disease_pk : NoDup (map Disease.id (diseases db));
  disease_name_unique : NoDup (map Disease.name (diseases db));
  link_pk : NoDup (map BreedDiseaseLink.key (breed_disease_links db));
  link_breed_fk : forall l, In l (breed_disease_links db) ->
      In (BreedDiseaseLink.breed_id l) (map Breed.id (breeds db));
  link_disease_fk : forall l, In l (breed_disease_links db) ->
      In (BreedDiseaseLink.disease_id l) (map Disease.id (diseases db))
}.

(** [db.query(models.Breed).filter(models.Breed.name == n).first()] *)
Definition query_breed_first (db : Store) (n : string) : option Breed.t :=
  List.find (fun b => String.eqb (Breed.name b) n) (breeds db).

(** [db.query(models.Disease).filter(models.Disease.name == n).first()] *)
Definition query_disease_first (db : Store) (n : string) : option Disease.t :=
  List.find (fun d => String.eqb (Disease.name d) n) (diseases db).

(** ** Python's stable sort

    [list.sort] and [sorted] are stable: elements that compare equal keep
    their input order, also under [reverse=True].  [before x y] says that
    [x] may stay in front of [y] when it was in front of it in the input. *)

Section StableSort.
Context {A : Type} (before : A -> A -> bool).

Fixpoint insert_sorted (x : A) (l : list A) : list A :=
  match l with
  | [] => [x]
  | y :: l' => if before x y then x :: y :: l' else y :: insert_sorted x l'
  end.

Fixpoint stable_sort (l : list A) : list A :=
  match l with
  | [] => []
  | x :: l' => insert_sorted x (stable_sort l')
  end.

(** The order a sorted list is in. *)
Definition precedes (x y : A) : Prop := before x y = true.

End StableSort.

(** ** services.py: the similarity query *)

(** A [similarity] cell of a result row: [None] is SQL [NULL]. *)
Definition sql_float := option Q.

(** Modelled from the spec: [database.py], which chooses the SQL engine, is
    not among the sources.  [n * 1.0 / d] is [NULL] for a zero divisor and
    not a division error, the case that the Python side provides for with
    its test [r.similarity is not None]. *)
Definition sql_div (n d : Z) : sql_float :=
  if Z.eqb d 0 then None else Some (inject_Z n / inject_Z d)%Q.

(** [SELECT COUNT( * ) FROM breed_disease_links l1 INNER JOIN
    breed_disease_links l2 ON l1.disease_id = l2.disease_id
    WHERE l1.breed_id = b1.id AND l2.breed_id = b2.id] *)
Definition joined_links (db : Store) (b1 b2 : Z)
  : list (BreedDiseaseLink.t * BreedDiseaseLink.t) :=
  List.filter
    (fun p => Z.eqb (BreedDiseaseLink.disease_id (fst p))
                    (BreedDiseaseLink.disease_id (snd p))
              && Z.eqb (BreedDiseaseLink.breed_id (fst p)) b1
              && Z.eqb (BreedDiseaseLink.breed_id (snd p)) b2)
    (list_prod (breed_disease_links db) (breed_disease_links db)).

Definition count_joined (db : Store) (b1 b2 : Z) : Z :=
  Z.of_nat (length (joined_links db b1 b2)).

(** [SELECT COUNT(DISTINCT disease_id) FROM breed_disease_links l
    WHERE l.breed_id IN (b1.id, b2.id)] *)
Definition count_distinct_diseases (db : Store) (b1 b2 : Z) : Z :=
  Z.of_nat (length (remove_dups
    (map BreedDiseaseLink.disease_id
       (List.filter
          (fun l => Z.eqb (BreedDiseaseLink.breed_id l) b1
                    || Z.eqb (BreedDiseaseLink.breed_id l) b2)
          (breed_disease_links db))))).

Definition similarity_sql (db : Store) (b1 b2 : Breed.t) : sql_float :=
  sql_div (count_joined db (Breed.id b1) (Breed.id b2))
          (count_distinct_diseases db (Breed.id b1) (Breed.id b2)).

Record Row := mkRow {
  row_name : string;
  row_species : string;
  row_similarity : sql_float
}.

(** [FROM breeds b1, breeds b2
     WHERE b1.name = :target_breed AND b2.name != :target_breed] *)
Definition candidate_rows (db : Store) (target_breed : string) : list Row :=
  flat_map
    (fun b1 =>
       if String.eqb (Breed.name b1) target_breed then
         flat_map
           (fun b2 =>
              if negb (String.eqb (Breed.name b2) target_breed) then
                [mkRow (Breed.name b2) (Breed.species b2)
                       (similarity_sql db b1 b2)]
              else [])
           (breeds db)
       else [])
    (breeds db).

(** Comparison of two [similarity] cells; [NULL] sorts below every number. *)
Definition sql_float_leb (x y : sql_float) : bool :=
  match x, y with
  | None, _ => true
  | Some _, None => false
  | Some p, Some q => Qle_bool p q
  end.

(** [ORDER BY similarity DESC].  SQL leaves the order of rows with equal
    similarity open; they are kept here in the order the scan produced
    them. *)
Definition order_by_similarity_desc (rows : list Row) : list Row :=
  stable_sort
    (fun r1 r2 => sql_float_leb (row_similarity r2) (row_similarity r1)) rows.

(** A tuple [(name, species, score)]; the score is a float. *)
Definition Sim : Type := string * string * Q.

(** [float(r.similarity) if r.similarity is not None else 0.0] *)
Definition row_to_tuple (r : Row) : Sim :=
  (row_name r, row_species r,
   match row_similarity r with Some q => q | None => 0%Q end).

Definition _top_similar_breeds_via_sql (db : Store) (target_breed_name : string)
  : list Sim :=
  map row_to_tuple
    (firstn 3 (order_by_similarity_desc (candidate_rows db target_breed_name))).

(** ** services.py: the score adjuster *)

(** Rounding to the nearest integer, halves to the even neighbour. *)
Definition round_half_even (q : Q) : Z :=
  let f := Qfloor q in
  match (q - inject_Z f ?= 1 # 2)%Q with
  | Lt => f
  | Gt => f + 1
  | Eq => if Z.even f then f else f + 1
  end.

(** Python's [round(x, ndigits)] of the double [x]: the decimal with
    [ndigits] places nearest to the exact value of [x], halves to the even
    digit; the float returned is the double nearest to that decimal. *)
Definition round (x : Q) (ndigits : nat) : Q :=
  (inject_Z (round_half_even (x * inject_Z (10 ^ Z.of_nat ndigits)))
   / inject_Z (10 ^ Z.of_nat ndigits))%Q.

(** Python's [max(a, b)]: [b] when [b > a], else [a]. *)
Definition max (a b : Q) : Q := if Qlt_le_dec a b then b else a.

(** *** Floats

    A finite double is an integer multiple of [2^-1074] with at most 53
    significant bits.  For [s] counted in units of [2^-1074], [last_bit s]
    is the exponent of the last of the 53 bits that the nearest double
    keeps (0 for a subnormal), and [round_53_bits s] is that double, again
    in units of [2^-1074]: the nearest number with 53 significant bits,
    halves to the even mantissa. *)
Definition last_bit (s : Q) : Z := Z.max (Z.log2 (Qfloor (Qabs s)) - 52) 0.

Definition round_53_bits (s : Q) : Z :=
  round_half_even (s / inject_Z (2 ^ last_bit s)) * 2 ^ last_bit s.

(** The double nearest to [q].  (A rational of magnitude [2^1024] or more,
    where a double overflows, names no float; scores are far from there.) *)
Definition float64 (q : Q) : Q :=
  (inject_Z (round_53_bits (q * inject_Z (2 ^ 1074))) / inject_Z (2 ^ 1074))%Q.

(** [a - b] on floats: the double nearest to the difference of the two
    doubles. *)
Definition float_sub (a b : Q) : Q := float64 (float64 a - float64 b).

(** [round(score, 4)] is taken of the double [score]; the literal [0.1] is
    the double nearest to 1/10. *)
Definition penalized (target_species : string) (t : Sim) : Sim :=
  let '(name, species, sim) := t in
  let score :=
    if negb (String.eqb species target_species)
    then max 0 (float_sub sim (1 # 10))
    else float64 sim in
  (name, species, round score 4).

Definition score_of (t : Sim) : Q := snd t.

(** [adjusted.sort(key=lambda x: x[2], reverse=True)] *)
Definition sort_by_score_desc (l : list Sim) : list Sim :=
  stable_sort (fun x y => Qle_bool (score_of y) (score_of x)) l.

Definition _apply_species_penalty (target_species : string) (sims : list Sim)
  : list Sim :=
  let adjusted :=
    fold_left (fun adjusted t => adjusted ++ [penalized target_species t])
              sims [] in
  sort_by_score_desc adjusted.

(** ** services.py: target diseases and the shared-disease aggregator *)

(** Rows [(disease_name, prevalence, disease_id)] of the join of [diseases]
    with the links of one breed, in the order of the [diseases] table. *)
Definition _fetch_target_diseases (db : Store) (breed_id : Z)
  : list (string * Q * Z) :=
  flat_map
    (fun d =>
       flat_map
         (fun l =>
            if Z.eqb (Disease.id d) (BreedDiseaseLink.disease_id l)
               && Z.eqb (BreedDiseaseLink.breed_id l) breed_id
            then [(Disease.name d, BreedDiseaseLink.prevalence l, Disease.id d)]
            else [])
         (breed_disease_links db))
    (diseases db).

(** [{d.id: d.name for d in db.query(models.Disease).all()}] *)
Definition disease_map (db : Store) : gmap Z string :=
  fold_left (fun m d => <[Disease.id d := Disease.name d]> m) (diseases db) ∅.

(** The disease ids linked to one breed, as a Python set. *)
Definition their_ids (db : Store) (breed_id : Z) : gset Z :=
  list_to_set
    (map BreedDiseaseLink.disease_id
       (List.filter (fun l => Z.eqb (BreedDiseaseLink.breed_id l) breed_id)
          (breed_disease_links db))).

Definition shared_ids (db : Store) (target_set : gset Z)
    (top_breed_names : list string) : gset Z :=
  fold_left
    (fun shared bname =>
       match query_breed_first db bname with
       | None => shared
       | Some b => shared ∪ (their_ids db (Breed.id b) ∩ target_set)
       end)
    top_breed_names ∅.

(** [[disease_map[did] for did in ids]]: a missing key raises. *)
Fixpoint lookup_names (m : gmap Z string) (ids : list Z) : result (list string) :=
  match ids with
  | [] => Ok []
  | did :: ids' =>
      match m !! did with
      | None => Raise (KeyError did)
      | Some n => let* ns := lookup_names m ids' in Ok (n :: ns)
      end
  end.

(** [sorted] on a list of [str]. *)
Definition sorted (l : list string) : list string := stable_sort String.leb l.

Definition _shared_diseases_with_top_breeds (db : Store)
    (target_disease_ids : list Z) (top_breed_names : list string)
  : result (list string) :=
  match top_breed_names with
  | [] => Ok []
  | _ =>
      let target_set : gset Z := list_to_set target_disease_ids in
      let shared := shared_ids db target_set top_breed_names in
      let* names := lookup_names (disease_map db) (elements shared) in
      Ok (sorted names)
  end.

(** ** services.py: the care-plan generator *)

Definition newline : string := String (ascii_of_nat 10) EmptyString.

(** Python's [sep.join(l)]. *)
Fixpoint join (sep : string) (l : list string) : string :=
  match l with
  | [] => ""
  | [s] => s
  | s :: l' => s +:+ sep +:+ join sep l'
  end.

Definition bullet (d : string * Q) : string :=
  "- " +:+ fst d +:+ ": monitor, vet checkups, lifestyle adjustments.".

Definition _fallback_plan (breed_name : string) (diseases : list (string * Q))
  : string :=
  let bullets := map bullet diseases in
  ("Preventive care plan for " +:+ breed_name +:+ ":" +:+ newline)
  +:+ join newline bullets.

(** What the generator sees of the outside world: whether the module-level
    [_openai_client] was built, [os.getenv("OPENAI_API_KEY")], and the
    outcome of the body of the [try] (whose call the source abbreviates to
    [create(...)]), which either evaluates to the stripped text of the
    first choice or raises ([None]). *)
Record External := mkExternal {
  _openai_client : bool;
  OPENAI_API_KEY : option string;
  chat_completion : string -> list (string * Q) -> option string
}.

(** Truth value of [os.getenv(...)]: [None] and the empty string are false. *)
Definition getenv_truthy (v : option string) : bool :=
  match v with
  | None => false
  | Some s => negb (String.eqb s "")
  end.

Definition _generate_care_plan (ext : External) (breed_name : string)
    (diseases_with_prev : list (string * Q)) : result string :=
  if negb (_openai_client ext) || negb (getenv_truthy (OPENAI_API_KEY ext)) then
    Ok (_fallback_plan breed_name diseases_with_prev)
  else
    match chat_completion ext breed_name diseases_with_prev with
    | Some text => Ok text
    | None => Ok (_fallback_plan breed_name diseases_with_prev)
    end.

(** ** schemas.py: the response of the risk analysis *)

Record SimilarBreedSchema := mkSimilarBreed {
  sb_name : string;
  sb_species : string;
  sb_similarity : Q
}.

Record RiskAnalysisResponseSchema := mkRiskAnalysis {
  target_breed : string;
  similar_breeds : list SimilarBreedSchema;
  shared_diseases : list string;
  care_plan : string
}.

(** [SimilarBreedSchema(name=name, species=species, similarity=score)] *)
Definition similar_breed_schema (t : Sim) : SimilarBreedSchema :=
  mkSimilarBreed (fst (fst t)) (snd (fst t)) (snd t).

(** Status line for the outcome of a handler: an [HTTPException] carries its
    own code, a body that fails validation is answered with 422, anything
    else is an internal error. *)
Record Response (A : Type) := mkResponse {
  status : Z;
  content : result A
}.
Arguments mkResponse {A} status content.
Arguments status {A} r.
Arguments content {A} r.

Definition respond {A} (success : Z) (r : result A) : Response A :=
  match r with
  | Ok _ => mkResponse success r
  | Raise (HTTPException code _) => mkResponse code r
  | Raise (RequestValidationError _) =>
      mkResponse HTTP_422_UNPROCESSABLE_ENTITY r
  | Raise _ => mkResponse 500 r
  end.

(** ** services.py: the orchestrator *)

Section RiskAnalysis.

(** [difflib.get_close_matches(word, possibilities, n)] of the Python
    standard library, with its default cutoff. *)
Variable get_close_matches : string -> list string -> nat -> list string.

Definition not_found_message (db : Store) (breed_name : string) : string :=
  let all_names := map Breed.name (breeds db) in
  let suggestion := get_close_matches breed_name all_names 1 in
  let msg := "Breed '" +:+ breed_name +:+ "' not found." in
  match suggestion with
  | [] => msg
  | s :: _ => msg +:+ (" Did you mean '" +:+ s +:+ "'?")
  end.

Definition _get_breed_by_name_or_404 (db : Store) (breed_name : string)
  : result Breed.t :=
  match query_breed_first db breed_name with
  | None =>
      Raise (HTTPException HTTP_404_NOT_FOUND (not_found_message db breed_name))
  | Some breed => Ok breed
  end.

Definition run_risk_analysis (ext : External) (db : Store) (breed_name : string)
  : result RiskAnalysisResponseSchema :=
  let* target := _get_breed_by_name_or_404 db breed_name in
  let target_diseases := _fetch_target_diseases db (Breed.id target) in
  let target_disease_ids := map (fun t => snd t) target_diseases in
  let top_raw := _top_similar_breeds_via_sql db (Breed.name target) in
  let top_adj := _apply_species_penalty (Breed.species target) top_raw in
  let top_names := map (fun t => fst (fst t)) top_adj in
  let* shared :=
    _shared_diseases_with_top_breeds db target_disease_ids top_names in
  let* care_plan :=
    _generate_care_plan ext (Breed.name target)
      (map (fun t => (fst (fst t), snd (fst t))) target_diseases) in
  Ok (mkRiskAnalysis (Breed.name target)
        (map similar_breed_schema top_adj)
        shared care_plan).

(** [GET /breeds/risk_analysis?breed_name=...] *)
Definition risk_analysis (ext : External) (db : Store) (breed_name : string)
  : Response RiskAnalysisResponseSchema :=
  respond 200 (run_risk_analysis ext db breed_name).

End RiskAnalysis.

(** ** schemas.py: breed registration *)

Module DiseaseCreateSchema.
Record t := mk { disease_name : string; prevalence : Q }.
(** [prevalence: float = Field(..., ge=0, le=1)] *)
Definition valid (d : t) : bool :=
  Qle_bool 0 (prevalence d) && Qle_bool (prevalence d) 1.
End DiseaseCreateSchema.

Module BreedCreateSchema.
Record t := mk {
  name : string;
  species : string;
  diseases : list DiseaseCreateSchema.t
}.
(** Validation of a request body against the model: every listed disease
    must satisfy its field constraints. *)
Definition validate (body : t) : result t :=
  if forallb DiseaseCreateSchema.valid (diseases body) then Ok body
  else Raise (RequestValidationError "prevalence").
End BreedCreateSchema.

Record DiseaseResponseSchema := mkDiseaseResponse {
  dr_disease_name : string;
  dr_prevalence : Q
}.

Record BreedResponseSchema := mkBreedResponse {
  br_name : string;
  br_species : string;
  br_diseases : list DiseaseResponseSchema
}.

(** ** The session of one request

    [db.add] queues an object, [db.commit] writes the queued objects in the
    order they were added and raises [IntegrityError], writing none of them,
    when one breaks a uniqueness constraint.  Ids are assigned on insertion,
    one above the largest id of the table. *)

Inductive instance : Type :=
| NewBreed (name species : string)
| NewDisease (name : string)
| NewLink (breed_id disease_id : Z) (prevalence : Q).

Record Session := mkSession {
  committed : Store;
  pending : list instance
}.

Definition next_id (ids : list Z) : Z := 1 + fold_right Z.max 0 ids.

Definition insert_row (db : Store) (x : instance) : option Store :=
  match x with
  | NewBreed n sp =>
      match query_breed_first db n with
      | Some _ => None
      | None =>
          Some (mkStore
                  (breeds db ++ [Breed.mk (next_id (map Breed.id (breeds db))) n sp])
                  (diseases db) (breed_disease_links db))
      end
  | NewDisease n =>
      match query_disease_first db n with
      | Some _ => None
      | None =>
          Some (mkStore (breeds db)
                  (diseases db
                   ++ [Disease.mk (next_id (map Disease.id (diseases db))) n])
                  (breed_disease_links db))
      end
  | NewLink b d p =>
      if existsb
           (fun l => Z.eqb (BreedDiseaseLink.breed_id l) b
                     && Z.eqb (BreedDiseaseLink.disease_id l) d)
           (breed_disease_links db)
      then None
      else Some (mkStore (breeds db) (diseases db)
                   (breed_disease_links db ++ [BreedDiseaseLink.mk b d p]))
  end.

Fixpoint flush (db : Store) (xs : list instance) : option Store :=
  match xs with
  | [] => Some db
  | x :: xs' =>
      match insert_row db x with
      | None => None
      | Some db' => flush db' xs'
      end
  end.

(** Computations on a session that may raise; the session reached when the
    exception is raised is kept, since earlier commits stay in the store. *)
Definition M (A : Type) : Type := Session -> result A * Session.

Definition ret {A} (a : A) : M A := fun s => (Ok a, s).
Definition raise {A} (e : exn) : M A := fun s => (Raise e, s).
Definition bindM {A B} (m : M A) (k : A -> M B) : M B :=
  fun s =>
    match m s with
    | (Ok a, s') => k a s'
    | (Raise e, s') => (Raise e, s')
    end.

Notation "'do' x '<-' m ';' k" := (bindM m (fun x => k))
  (at level 10, x name, m at level 100, k at level 200).
Notation "m ';;' k" := (bindM m (fun _ => k))
  (at level 100, k at level 200, right associativity).

Definition db_add (x : instance) : M unit :=
  fun s => (Ok tt, mkSession (committed s) (pending s ++ [x])).

Definition db_commit : M unit :=
  fun s =>
    match flush (committed s) (pending s) with
    | Some db' => (Ok tt, mkSession db' [])
    | None => (Raise IntegrityError, mkSession (committed s) [])
    end.

(** ** crud.py *)

Definition get_disease_by_name (name : string) : M (option Disease.t) :=
  fun s => (Ok (query_disease_first (committed s) name), s).

Definition get_breed_by_name (name : string) : M (option Breed.t) :=
  fun s => (Ok (query_breed_first (committed s) name), s).

(** [db.refresh(obj)]: read the row of the object back from the store. *)
Definition refresh_disease (name : string) : M Disease.t :=
  do o <- get_disease_by_name name;
  match o with
  | Some d => ret d
  | None => raise InvalidRequestError
  end.

Definition refresh_breed (name : string) : M Breed.t :=
  do o <- get_breed_by_name name;
  match o with
  | Some b => ret b
  | None => raise InvalidRequestError
  end.

Definition create_disease (name : string) : M Disease.t :=
  db_add (NewDisease name) ;;
  db_commit ;;
  refresh_disease name.

Definition species_allowed (species : string) : bool :=
  String.eqb species "dog" || String.eqb species "cat".

Fixpoint handle_diseases (breed : Breed.t) (ds : list DiseaseCreateSchema.t)
  : M unit :=
  match ds with
  | [] => ret tt
  | d :: ds' =>
      if negb (Qle_bool 0 (DiseaseCreateSchema.prevalence d)
               && Qle_bool (DiseaseCreateSchema.prevalence d) 1)
      then raise (HTTPException HTTP_400_BAD_REQUEST
                    "Prevalence must be between 0 and 1.")
      else
        do found <- get_disease_by_name (DiseaseCreateSchema.disease_name d);
        do disease <-
          match found with
          | Some disease => ret disease
          | None => create_disease (DiseaseCreateSchema.disease_name d)
          end;
        db_add (NewLink (Breed.id breed) (Disease.id disease)
                  (DiseaseCreateSchema.prevalence d)) ;;
        handle_diseases breed ds'
  end.

(** [[DiseaseResponseSchema(disease_name=d.disease.name,
    prevalence=d.prevalence) for d in breed.diseases]]: the links of the
    breed, each with the name of its disease; a link without its disease
    row has [d.disease] equal to [None]. *)
Fixpoint disease_responses (db : Store) (breed : Breed.t)
    (links : list BreedDiseaseLink.t) : result (list DiseaseResponseSchema) :=
  match links with
  | [] => Ok []
  | l :: links' =>
      if Z.eqb (BreedDiseaseLink.breed_id l) (Breed.id breed) then
        match List.find
                (fun d => Z.eqb (Disease.id d) (BreedDiseaseLink.disease_id l))
                (diseases db) with
        | Some d =>
            let* rest := disease_responses db breed links' in
            Ok (mkDiseaseResponse (Disease.name d) (BreedDiseaseLink.prevalence l)
                :: rest)
        | None => Raise AttributeError
        end
      else disease_responses db breed links'
  end.

(** The order of the primary-key index [(breed_id, disease_id)] of
    [breed_disease_links]. *)
Definition key_leb (a b : BreedDiseaseLink.t) : bool :=
  Z.ltb (BreedDiseaseLink.breed_id a) (BreedDiseaseLink.breed_id b)
  || (Z.eqb (BreedDiseaseLink.breed_id a) (BreedDiseaseLink.breed_id b)
      && Z.leb (BreedDiseaseLink.disease_id a) (BreedDiseaseLink.disease_id b)).

(** [breed.diseases]: the relationship is loaded by a SELECT of the links
    whose [breed_id] is the breed's.  The SELECT has no ORDER BY, so the
    rows come as the engine finds them; [database.py], which chooses the
    engine, is not among the sources.  The order taken here is SQLite's,
    which answers the query from the primary-key index: by [disease_id]. *)
Definition breed_diseases (db : Store) (breed : Breed.t)
  : list BreedDiseaseLink.t :=
  stable_sort key_leb
    (List.filter
       (fun l => Z.eqb (BreedDiseaseLink.breed_id l) (Breed.id breed))
       (breed_disease_links db)).

Definition breed_response (breed : Breed.t) : M BreedResponseSchema :=
  fun s =>
    (let* ds :=
       disease_responses (committed s) breed
         (breed_diseases (committed s) breed) in
     Ok (mkBreedResponse (Breed.name breed) (Breed.species breed) ds),
     s).

Definition create_breed (breed_data : BreedCreateSchema.t)
  : M BreedResponseSchema :=
  if negb (species_allowed (BreedCreateSchema.species breed_data)) then
    raise (HTTPException HTTP_400_BAD_REQUEST "Species must be 'dog' or 'cat'.")
  else
    do existing_breed <- get_breed_by_name (BreedCreateSchema.name breed_data);
    match existing_breed with
    | Some _ =>
        raise (HTTPException HTTP_400_BAD_REQUEST "Breed already exists.")
    | None =>
        db_add (NewBreed (BreedCreateSchema.name breed_data)
                  (BreedCreateSchema.species breed_data)) ;;
        db_commit ;;
        do breed <- refresh_breed (BreedCreateSchema.name breed_data);
        handle_diseases breed (BreedCreateSchema.diseases breed_data) ;;
        db_commit ;;
        do breed <- refresh_breed (BreedCreateSchema.name breed_data);
        breed_response breed
    end.

(** ** main.py: breed registration *)

(** Modelled from the spec: [get_db] of [database.py] is not among the
    sources; one request is one transaction scope, released on every exit
    path.  [POST /breeds]: the body is validated against
    [BreedCreateSchema] before the handler runs; the handler works on a
    fresh session over the store, and what it committed is the store after
    the request. *)
Definition post_breeds (db : Store) (body : BreedCreateSchema.t)
  : Response BreedResponseSchema * Store :=
  match BreedCreateSchema.validate body with
  | Raise e => (respond 201 (Raise e), db)
  | Ok breed =>
      let '(r, s) := create_breed breed (mkSession db []) in
      (respond 201 r, committed s)
  end.

(** ** The similarity of the specification *)

(** The disease set of a breed: the diseases reachable through its links. *)
Definition disease_set (db : Store) (b : Breed.t) : gset Z :=
  their_ids db (Breed.id b).

(** Jaccard similarity of two disease sets, 0 when the union is empty. *)
Definition jaccard (X Y : gset Z) : Q :=
  if decide (X ∪ Y = ∅) then 0%Q
  else (inject_Z (Z.of_nat (size (X ∩ Y)))
        / inject_Z (Z.of_nat (size (X ∪ Y))))%Q.

(** The score the engine reports for candidate [b2] of target [b1]. *)
Definition raw_similarity (db : Store) (b1 b2 : Breed.t) : Q :=
  snd (row_to_tuple
         (mkRow (Breed.name b2) (Breed.species b2) (similarity_sql db b1 b2))).

(** ** seed.py: the sample data *)

Definition seed_diseases : list Disease.t :=
  [Disease.mk 1 "Hip Dysplasia"; Disease.mk 2 "Diabetes";
   Disease.mk 3 "Kidney Disease"; Disease.mk 4 "Arthritis";
   Disease.mk 5 "Heart Disease"].

Definition seed_breeds : list Breed.t :=
  [Breed.mk 1 "Labrador Retriever" "dog"; Breed.mk 2 "German Shepherd" "dog";
   Breed.mk 3 "Golden Retriever" "dog"; Breed.mk 4 "Bulldog" "dog";
   Breed.mk 5 "Beagle" "dog"; Breed.mk 6 "Persian" "cat";
   Breed.mk 7 "Siamese" "cat"; Breed.mk 8 "Maine Coon" "cat";
   Breed.mk 9 "Ragdoll" "cat"; Breed.mk 10 "British Shorthair" "cat"].

Definition seed_links : list BreedDiseaseLink.t :=
  [BreedDiseaseLink.mk 1 1 (8 # 10); BreedDiseaseLink.mk 1 4 (4 # 10);
   BreedDiseaseLink.mk 2 1 (7 # 10); BreedDiseaseLink.mk 2 5 (3 # 10);
   BreedDiseaseLink.mk 3 1 (6 # 10); BreedDiseaseLink.mk 3 4 (5 # 10);
   BreedDiseaseLink.mk 4 5 (6 # 10); BreedDiseaseLink.mk 5 2 (4 # 10);
   BreedDiseaseLink.mk 6 3 (7 # 10); BreedDiseaseLink.mk 7 2 (5 # 10);
   BreedDiseaseLink.mk 8 5 (4 # 10); BreedDiseaseLink.mk 9 3 (6 # 10);
   BreedDiseaseLink.mk 10 4 (3 # 10); BreedDiseaseLink.mk 10 2 (4 # 10)].

Definition seed_store : Store := mkStore seed_breeds seed_diseases seed_links.

(** Two breeds registered without any disease. *)
Definition sphynx : Breed.t := Breed.mk 1 "Sphynx" "cat".
Definition pug : Breed.t := Breed.mk 2 "Pug" "dog".
Definition no_disease_store : Store := mkStore [sphynx; pug] [] [].

(** A list of names in lexical order. *)
Definition lexically_sorted (l : list string) : Prop :=
  Sorted (precedes String.leb) l.

(** ** The closest-match search of the Python standard library

    [difflib.get_close_matches] is not code of this repository; the
    orchestrator above takes it as a parameter.  What follows renders
    CPython's [difflib.py] for the case the examples below need: strings
    of ASCII characters shorter than 200, for which [SequenceMatcher] marks
    no element as junk or popular, so that the loops of
    [find_longest_match] that extend a match over such elements have
    nothing to do and are left out. *)

Module difflib.

(** [b2j[c]]: the indices of [c] in [b], ascending. *)
Fixpoint indices_from (c : ascii) (b : list ascii) (j : nat) : list nat :=
  match b with
  | [] => []
  | x :: b' =>
      if Ascii.eqb x c then j :: indices_from c b' (S j)
      else indices_from c b' (S j)
  end.

Definition b2j (b : list ascii) (c : ascii) : list nat := indices_from c b 0.

Record Match := mkMatch { m_a : nat; m_b : nat; m_size : nat }.

(** One turn of the inner loop of [find_longest_match]; the indices come
    in ascending order, so leaving the loop at the first [j >= bhi] and
    skipping every such [j] are the same. *)
Definition scan (blo bhi i : nat) (j2len : gmap nat nat)
    (acc : Match * gmap nat nat) (j : nat) : Match * gmap nat nat :=
  let '(best, newj2len) := acc in
  if (j <? blo)%nat then acc
  else if (bhi <=? j)%nat then acc
  else
    let k := (match j with
              | O => 0
              | S j' => default 0 (j2len !! j')
              end + 1)%nat in
    let newj2len := <[j := k]> newj2len in
    if (m_size best <? k)%nat
    then (mkMatch (i + 1 - k) (j + 1 - k) k, newj2len)
    else (best, newj2len).

Definition find_longest_match (a b : list ascii) (alo ahi blo bhi : nat)
  : Match :=
  fst (fold_left
         (fun (st : Match * gmap nat nat) i =>
            match a !! i with
            | None => (fst st, ∅)
            | Some c => fold_left (scan blo bhi i (snd st)) (b2j b c) (fst st, ∅)
            end)
         (seq alo (ahi - alo)) (mkMatch alo blo 0, ∅)).

(** The sum of the sizes of the blocks [get_matching_blocks] collects: the
    longest match of the range, and the blocks of the ranges to its left
    and to its right.  The range of [a] shrinks at every level, so a fuel
    of [length a + 1] is never used up. *)
Fixpoint matches (fuel : nat) (a b : list ascii) (alo ahi blo bhi : nat) : nat :=
  match fuel with
  | O => 0
  | S fuel' =>
      let x := find_longest_match a b alo ahi blo bhi in
      let '(i, j, k) := (m_a x, m_b x, m_size x) in
      if (k =? 0)%nat then 0%nat
      else
        (k
         + (if (alo <? i)%nat && (blo <? j)%nat
            then matches fuel' a b alo i blo j else 0)
         + (if (i + k <? ahi)%nat && (j + k <? bhi)%nat
            then matches fuel' a b (i + k) ahi (j + k) bhi else 0))%nat
  end.

Definition _calculate_ratio (matches length : nat) : Q :=
  match length with
  | O => 1%Q
  | _ => (2 * inject_Z (Z.of_nat matches) / inject_Z (Z.of_nat length))%Q
  end.

Definition ratio (a b : list ascii) : Q :=
  _calculate_ratio
    (matches (S (length a)) a b 0 (length a) 0 (length b))
    (length a + length b).

(** [quick_ratio]: the size of the intersection of [a] and [b] as
    multisets. *)
Definition fullbcount (b : list ascii) : gmap ascii nat :=
  fold_left (fun m elt => <[elt := S (default 0%nat (m !! elt))]> m) b ∅.

Definition quick_ratio (a b : list ascii) : Q :=
  let full := fullbcount b in
  let '(_, matched) :=
    fold_left
      (fun (st : gmap ascii Z * nat) elt =>
         let '(avail, matched) := st in
         let numb :=
           match avail !! elt with
           | Some n => n
           | None => Z.of_nat (default 0%nat (full !! elt))
           end in
         (<[elt := numb - 1]> avail,
          if (0 <? numb)%Z then S matched else matched))
      a (∅, 0%nat) in
  _calculate_ratio matched (length a + length b).

Definition real_quick_ratio (a b : list ascii) : Q :=
  _calculate_ratio (Nat.min (length a) (length b)) (length a + length b).

(** Order of the pairs [(score, x)]. *)
Definition pair_leb (x y : Q * string) : bool :=
  negb (Qle_bool (fst y) (fst x))
  || (Qeq_bool (fst x) (fst y) && String.leb (snd x) (snd y)).

(** [heapq.nlargest(n, l)], that is [sorted(l, reverse=True)[:n]]. *)
Definition _nlargest (n : nat) (l : list (Q * string)) : list (Q * string) :=
  firstn n (stable_sort (fun x y => pair_leb y x) l).

Definition cutoff : Q := 6 # 10.

(** [get_close_matches(word, possibilities, n)] for [n > 0]. *)
Definition get_close_matches (word : string) (possibilities : list string)
    (n : nat) : list string :=
  let b := list_ascii_of_string word in
  let result :=
    flat_map
      (fun x =>
         let a := list_ascii_of_string x in
         if Qle_bool cutoff (real_quick_ratio a b)
            && Qle_bool cutoff (quick_ratio a b)
            && Qle_bool cutoff (ratio a b)
         then [(ratio a b, x)] else [])
      possibilities in
  map snd (_nlargest n result).

End difflib.

(** ** Requests used as examples *)

(** The dogs of the sample data only. *)
Definition seed_dogs_store : Store :=
  mkStore (firstn 5 seed_breeds) seed_diseases (firstn 8 seed_links).

(** A new breed whose second disease has prevalence 1.5. *)
Definition poodle_request : BreedCreateSchema.t :=
  BreedCreateSchema.mk "Poodle" "dog"
    [DiseaseCreateSchema.mk "Epilepsy" (5 # 10);
     DiseaseCreateSchema.mk "Bloat" (15 # 10)].

(** A second registration of "Beagle", listing a disease not yet known. *)
Definition beagle_request : BreedCreateSchema.t :=
  BreedCreateSchema.mk "Beagle" "dog"
    [DiseaseCreateSchema.mk "Epilepsy" (3 # 10)].

(** ** The care plan of the specification *)

(** The line of one disease: "<disease name>: monitor, vet checkups,
    lifestyle adjustments." *)
Definition spec_line (d : string * Q) : string :=
  fst d +:+ ": monitor, vet checkups, lifestyle adjustments.".

(** A client and a credential are there, and every call fails. *)
Definition failing_service : External :=
  mkExternal true (Some "sk-test") (fun _ _ => None).

(** ** The ranking of the specification *)

(** [x] may stand in front of [y] in a list ranked by descending score
    with ties broken by ascending name. *)
Definition ranks_before (x y : SimilarBreedSchema) : bool :=
  negb (Qle_bool (sb_similarity x) (sb_similarity y))
  || (Qeq_bool (sb_similarity x) (sb_similarity y)
      && String.leb (sb_name x) (sb_name y)).

(** Descending score alone. *)
Definition score_desc (x y : SimilarBreedSchema) : bool :=
  Qle_bool (sb_similarity y) (sb_similarity x).

Definition no_suggestions (word : string) (possibilities : list string)
    (n : nat) : list string := [].

(** No client, no credential. *)
Definition offline : External := mkExternal false None (fun _ _ => None).

(** The list obtained by scoring every candidate, adjusting every score,
    and keeping the first three only at the end. *)
Definition all_similar_breeds (db : Store) (target_breed_name : string)
  : list Sim :=
  map row_to_tuple
    (order_by_similarity_desc (candidate_rows db target_breed_name)).

Definition adjust_then_truncate (db : Store) (target : Breed.t)
  : list SimilarBreedSchema :=
  map similar_breed_schema
    (firstn 3 (_apply_species_penalty (Breed.species target)
                 (all_similar_breeds db (Breed.name target)))).

(** A candidate row of the target's species whose similarity, when not
    [NULL], is not negative. *)
Definition plain_row (species : string) (r : Row) : Prop :=
  row_species r = species
  /\ forall q, row_similarity r = Some q -> (0 <= q)%Q.

(** Six diseases and breeds that share some of the first three. *)
Definition six_diseases : list Disease.t :=
  [Disease.mk 1 "Allergy"; Disease.mk 2 "Bloat"; Disease.mk 3 "Cataract";
   Disease.mk 4 "Deafness"; Disease.mk 5 "Eczema"; Disease.mk 6 "Fever"].

Definition links_of (breed_id : Z) (disease_ids : list Z)
  : list BreedDiseaseLink.t :=
  map (fun d => BreedDiseaseLink.mk breed_id d (1 # 2)) disease_ids.

(** Target "Beagle" (dog); "Siamese" (cat) has raw score 3/5 and "Pug"
    (dog) has raw score 3/6. *)
Definition tie_store : Store :=
  mkStore
    [Breed.mk 1 "Beagle" "dog"; Breed.mk 2 "Siamese" "cat";
     Breed.mk 3 "Pug" "dog"]
    six_diseases
    (links_of 1 [1; 2; 3] ++ links_of 2 [1; 2; 3; 4; 5]
     ++ links_of 3 [1; 2; 3; 4; 5; 6]).

(** Target "Beagle" (dog); three cats with raw scores 1, 3/4 and 2/3, and
    the dog "Pug" with raw score 3/5. *)
Definition penalty_store : Store :=
  mkStore
    [Breed.mk 1 "Beagle" "dog"; Breed.mk 2 "Persian" "cat";
     Breed.mk 3 "Ragdoll" "cat"; Breed.mk 4 "Siamese" "cat";
     Breed.mk 5 "Pug" "dog"]
    six_diseases
    (links_of 1 [1; 2; 3] ++ links_of 2 [1; 2; 3] ++ links_of 3 [1; 2; 3; 4]
     ++ links_of 4 [1; 2] ++ links_of 5 [1; 2; 3; 4; 5]).

(** ** Stores used as examples, continued *)

(** Two breeds linked to a disease id that has no row in [diseases]. *)
Definition dangling_store : Store :=
  mkStore [sphynx; pug] []
    [BreedDiseaseLink.mk 1 7 (1 # 2); BreedDiseaseLink.mk 2 7 (1 # 4)].

(** ** Stores and sessions over time *)

(** [db'] has the rows of [db], in their places, and possibly more after
    them. *)
Definition extends (db db' : Store) : Prop :=
  exists bs ds ls,
    breeds db' = breeds db ++ bs
    /\ diseases db' = diseases db ++ ds
    /\ breed_disease_links db' = breed_disease_links db ++ ls.

(** A queued link refers to rows that are in the store. *)
Definition pending_ok (db : Store) (x : instance) : Prop :=
  match x with
  | NewLink b d _ =>
      In b (map Breed.id (breeds db)) /\ In d (map Disease.id (diseases db))
  | _ => True
  end.

Definition session_ok (s : Session) : Prop :=
  store_ok (committed s) /\ Forall (pending_ok (committed s)) (pending s).

(** A computation on a session that never removes or changes a committed
    row. *)
Definition grows {A} (m : M A) : Prop :=
  forall s r s', m s = (r, s') -> extends (committed s) (committed s').

(** A registration of "Collie" with one disease not yet known and one
    already known. *)
Definition collie_request : BreedCreateSchema.t :=
  BreedCreateSchema.mk "Collie" "dog"
    [DiseaseCreateSchema.mk "Epilepsy" (5 # 10);
     DiseaseCreateSchema.mk "Diabetes" (2 # 10)].

(** A registration with a species that is not allowed. *)
Definition parrot_request : BreedCreateSchema.t :=
  BreedCreateSchema.mk "Beagle" "bird"
    [DiseaseCreateSchema.mk "Psittacosis" (1 # 10)].

(** A registration that lists the same disease twice. *)
Definition twice_request : BreedCreateSchema.t :=
  BreedCreateSchema.mk "Collie" "dog"
    [DiseaseCreateSchema.mk "Diabetes" (2 # 10);
     DiseaseCreateSchema.mk "Diabetes" (3 # 10)].

(** ** What a successful registration writes *)

Definition link_instance (l : BreedDiseaseLink.t) : instance :=
  NewLink (BreedDiseaseLink.breed_id l) (BreedDiseaseLink.disease_id l)
    (BreedDiseaseLink.prevalence l).

(** The [diseases] table after each listed name that has no row yet was
    given one, in the order of the request. *)
Definition register_diseases (dis : list Disease.t)
    (ds : list DiseaseCreateSchema.t) : list Disease.t :=
  fold_left
    (fun dis d =>
       match List.find
               (fun r => String.eqb (Disease.name r)
                           (DiseaseCreateSchema.disease_name d)) dis with
       | Some _ => dis
       | None =>
           dis ++ [Disease.mk (next_id (map Disease.id dis))
                     (DiseaseCreateSchema.disease_name d)]
       end)
    ds dis.

Definition id_by_name (dis : list Disease.t) (n : string) : Z :=
  match List.find (fun r => String.eqb (Disease.name r) n) dis with
  | Some r => Disease.id r
  | None => 0
  end.

Definition new_link (breed_id : Z) (dis : list Disease.t)
    (d : DiseaseCreateSchema.t) : BreedDiseaseLink.t :=
  BreedDiseaseLink.mk breed_id
    (id_by_name dis (DiseaseCreateSchema.disease_name d))
    (DiseaseCreateSchema.prevalence d).

(** The store after the breed of [body], the diseases it names for the
    first time and one link per listed disease were added to [db]. *)
Definition registered (db : Store) (body : BreedCreateSchema.t) : Store :=
  let bid := next_id (map Breed.id (breeds db)) in
  let dis := register_diseases (diseases db) (BreedCreateSchema.diseases body) in
  mkStore
    (breeds db
     ++ [Breed.mk bid (BreedCreateSchema.name body)
           (BreedCreateSchema.species body)])
    dis
    (breed_disease_links db
     ++ map (new_link bid dis) (BreedCreateSchema.diseases body)).

(** The diseases of a request as the response lists them. *)
Definition listed (ds : list DiseaseCreateSchema.t)
  : list DiseaseResponseSchema :=
  map (fun d =>
         mkDiseaseResponse (DiseaseCreateSchema.disease_name d)
           (DiseaseCreateSchema.prevalence d)) ds.

(** The response to a registration of [body] on [db]: the name and the
    species of the request, and its diseases in the order of the ids of
    their rows in the [diseases] table after the registration. *)
Definition registration_response (db : Store) (body : BreedCreateSchema.t)
  : BreedResponseSchema :=
  let dis := register_diseases (diseases db) (BreedCreateSchema.diseases body) in
  mkBreedResponse (BreedCreateSchema.name body) (BreedCreateSchema.species body)
    (listed
       (stable_sort
          (fun d1 d2 =>
             Z.leb (id_by_name dis (DiseaseCreateSchema.disease_name d1))
                   (id_by_name dis (DiseaseCreateSchema.disease_name d2)))
          (BreedCreateSchema.diseases body))).

(** ** A disease listed twice *)

(** The disease named [n] has a row, and a link of breed [bid] to that row
    is committed or among the pending links [P]. *)
Definition already_linked (bid : Z) (c : Store) (P : list BreedDiseaseLink.t)
    (n : string) : Prop :=
  exists dr,
    query_disease_first c n = Some dr
    /\ In (bid, Disease.id dr)
         (map BreedDiseaseLink.key (breed_disease_links c ++ P)).

(** A session whose next commit fails. *)
Definition doomed (s : Session) : Prop :=
  flush (committed s) (pending s) = None.

Definition triple_request : BreedCreateSchema.t :=
  BreedCreateSchema.mk "Collie" "dog"
    [DiseaseCreateSchema.mk "Diabetes" (2 # 10);
     DiseaseCreateSchema.mk "Diabetes" (3 # 10);
     DiseaseCreateSchema.mk "Scurvy" (1 # 10)].

(** Target "Beagle" (dog) with diseases 1 to 7, and "Persian" (cat) with
    all 32 diseases: raw score 7/32. *)
Definition halfway_store : Store :=
  mkStore
    [Breed.mk 1 "Beagle" "dog"; Breed.mk 2 "Persian" "cat"]
    (map (fun i => Disease.mk (Z.of_nat i)
                     (String (Ascii.ascii_of_nat (64 + i)) EmptyString))
       (seq 1 32))
    (links_of 1 (map Z.of_nat (seq 1 7)) ++ links_of 2 (map Z.of_nat (seq 1 32))).

(** * Properties *)

(** ** Rounding *)

Lemma round_half_even_compat (p q : Q) :
  (p == q)%Q -> round_half_even p = round_half_even q.
Proof.
  intros E. unfold round_half_even.
  rewrite (Qfloor_comp _ _ E).
  assert (E' : (p - inject_Z (Qfloor q) == q - inject_Z (Qfloor q))%Q) by lra.
  rewrite (Qcompare_comp _ _ E' _ _ (Qeq_refl (1 # 2))).
  reflexivity.
Qed.

Lemma round_half_even_floor (q : Q) :
  Qfloor q <= round_half_even q <= Qfloor q + 1.
Proof.
  unfold round_half_even.
  destruct (_ ?= _)%Q; [destruct (Z.even _)|..]; lia.
Qed.

Lemma round_half_even_mono (p q : Q) :
  (p <= q)%Q -> round_half_even p <= round_half_even q.
Proof.
  intros L.
  pose proof (Qfloor_resp_le _ _ L) as F.
  destruct (Z.eq_dec (Qfloor p) (Qfloor q)) as [E | N].
  - unfold round_half_even. rewrite E.
    destruct (Qcompare_spec (p - inject_Z (Qfloor q)) (1 # 2)) as [Hp | Hp | Hp];
      destruct (Qcompare_spec (q - inject_Z (Qfloor q)) (1 # 2)) as [Hq | Hq | Hq];
      try destruct (Z.even (Qfloor q)); try lia; exfalso; lra.
  - pose proof (round_half_even_floor p). pose proof (round_half_even_floor q).
    lia.
Qed.

Lemma round_half_even_Z (z : Z) : round_half_even (inject_Z z) = z.
Proof.
  unfold round_half_even. rewrite Qfloor_Z.
  assert (E : (inject_Z z - inject_Z z == 0)%Q) by lra.
  rewrite (Qcompare_comp _ _ E _ _ (Qeq_refl (1 # 2))). reflexivity.
Qed.

(** The integer chosen is a nearest one. *)
Lemma round_half_even_near (q : Q) :
  (Qabs (q - inject_Z (round_half_even q)) <= 1 # 2)%Q.
Proof.
  unfold round_half_even.
  pose proof (Qfloor_le q) as Lo. pose proof (Qlt_floor q) as Hi.
  rewrite inject_Z_plus in Hi.
  apply Qabs_Qle_condition.
  destruct (Qcompare_spec (q - inject_Z (Qfloor q)) (1 # 2)) as [H | H | H];
    try destruct (Z.even (Qfloor q)); rewrite ?inject_Z_plus;
    change (inject_Z 1) with 1%Q in *; split; lra.
Qed.

Lemma pow10_pos (n : nat) : 0 < 10 ^ Z.of_nat n.
Proof. apply Z.pow_pos_nonneg; lia. Qed.

Lemma inject_pow10_pos (n : nat) : (0 < inject_Z (10 ^ Z.of_nat n))%Q.
Proof.
  change 0%Q with (inject_Z 0). rewrite <- Zlt_Qlt. apply pow10_pos.
Qed.

Lemma round_compat (p q : Q) (n : nat) : (p == q)%Q -> round p n = round q n.
Proof.
  intros E. unfold round. f_equal. f_equal.
  apply round_half_even_compat. rewrite E. reflexivity.
Qed.

Lemma round_mono (p q : Q) (n : nat) :
  (p <= q)%Q -> (round p n <= round q n)%Q.
Proof.
  intros L. unfold round.
  pose proof (inject_pow10_pos n) as P.
  apply Qmult_le_compat_r.
  - rewrite <- Zle_Qle. apply round_half_even_mono.
    apply Qmult_le_compat_r; [exact L | apply Qlt_le_weak, P].
  - apply Qlt_le_weak, Qinv_lt_0_compat, P.
Qed.

Lemma round_Z (z : Z) (n : nat) : (round (inject_Z z) n == inject_Z z)%Q.
Proof.
  unfold round. pose proof (inject_pow10_pos n) as P.
  rewrite <- inject_Z_mult, round_half_even_Z, inject_Z_mult.
  field. intros E. rewrite E in P. exact (Qlt_irrefl _ P).
Qed.

Lemma round_unit_interval (x : Q) (n : nat) :
  (0 <= x <= 1)%Q -> (0 <= round x n <= 1)%Q.
Proof.
  intros [Lo Hi]. split.
  - rewrite <- (round_Z 0 n). apply round_mono. exact Lo.
  - rewrite <- (round_Z 1 n). apply round_mono. exact Hi.
Qed.

(** [round x n] is a multiple of [10^-n] at distance at most half of
    [10^-n] from [x]. *)
Lemma round_near (x : Q) (n : nat) :
  (Qabs (x - round x n) * inject_Z (10 ^ Z.of_nat n) <= 1 # 2)%Q.
Proof.
  pose proof (inject_pow10_pos n) as P.
  pose proof (round_half_even_near (x * inject_Z (10 ^ Z.of_nat n))) as N.
  unfold round.
  set (t := inject_Z (10 ^ Z.of_nat n)) in *.
  set (z := inject_Z (round_half_even (x * t))) in *.
  assert (T : ~ (t == 0)%Q) by (intros E; rewrite E in P; exact (Qlt_irrefl _ P)).
  rewrite <- (Qabs_pos t) at 2 by (apply Qlt_le_weak, P).
  rewrite <- Qabs_Qmult.
  assert (E : ((x - z / t) * t == x * t - z)%Q) by (field; exact T).
  rewrite E. exact N.
Qed.

Lemma max_Qmax (a b : Q) : (max a b == Qmax a b)%Q.
Proof.
  unfold max. destruct (Qlt_le_dec a b) as [L | L].
  - symmetry. apply Q.max_r. apply Qlt_le_weak, L.
  - symmetry. apply Q.max_l. exact L.
Qed.

(** ** Floats *)

Lemma pow2_pos (e : Z) : 0 <= e -> 0 < 2 ^ e.
Proof. intros H. apply Z.pow_pos_nonneg; lia. Qed.

Lemma inject_pow2_pos (e : Z) : 0 <= e -> (0 < inject_Z (2 ^ e))%Q.
Proof.
  intros H. change 0%Q with (inject_Z 0). rewrite <- Zlt_Qlt. apply pow2_pos, H.
Qed.

Lemma last_bit_nonneg (s : Q) : 0 <= last_bit s.
Proof. unfold last_bit. lia. Qed.

Lemma last_bit_compat (s t : Q) : (s == t)%Q -> last_bit s = last_bit t.
Proof.
  intros E. unfold last_bit.
  rewrite (Qfloor_comp (Qabs s) (Qabs t)); [reflexivity |].
  rewrite E. reflexivity.
Qed.

Lemma round_53_bits_compat (s t : Q) :
  (s == t)%Q -> round_53_bits s = round_53_bits t.
Proof.
  intros E. unfold round_53_bits. rewrite (last_bit_compat s t E). f_equal.
  apply round_half_even_compat. rewrite E. reflexivity.
Qed.

Lemma Qfloor_abs_nonneg (s : Q) : 0 <= Qfloor (Qabs s).
Proof. apply (Qfloor_resp_le 0 (Qabs s)), Qabs_nonneg. Qed.

Lemma last_bit_upper (s : Q) : (Qabs s < inject_Z (2 ^ (last_bit s + 53)))%Q.
Proof.
  pose proof (Qlt_floor (Qabs s)) as Hi.
  pose proof (Qfloor_abs_nonneg s) as F0.
  eapply Qlt_le_trans; [exact Hi |]. rewrite <- Zle_Qle.
  unfold last_bit. set (F := Qfloor (Qabs s)) in *.
  destruct (Z.eq_dec F 0) as [-> | N].
  - apply Z.leb_le. reflexivity.
  - destruct (Z.log2_spec F) as [_ U]; [lia |].
    transitivity (2 ^ Z.succ (Z.log2 F)); [lia |].
    apply Z.pow_le_mono_r; lia.
Qed.

Lemma last_bit_lower (s : Q) :
  0 < last_bit s -> (inject_Z (2 ^ (last_bit s + 52)) <= Qabs s)%Q.
Proof.
  unfold last_bit. set (F := Qfloor (Qabs s)). intros H.
  assert (P : 0 < F).
  { destruct (Z_lt_le_dec 0 F) as [P | P]; [exact P |].
    rewrite (Z.log2_nonpos F P) in H. lia. }
  replace (Z.max (Z.log2 F - 52) 0 + 52) with (Z.log2 F) by lia.
  destruct (Z.log2_spec F P) as [Lo _].
  eapply Qle_trans; [| apply Qfloor_le]. rewrite <- Zle_Qle. exact Lo.
Qed.

Lemma last_bit_mono (s t : Q) :
  (Qabs s <= Qabs t)%Q -> last_bit s <= last_bit t.
Proof.
  intros L. unfold last_bit.
  pose proof (Z.log2_le_mono _ _ (Qfloor_resp_le _ _ L)). lia.
Qed.

(** The mantissa has at most 53 bits, and all of them unless the double is
    subnormal. *)
Lemma mantissa_bounds (s : Q) :
  - 2 ^ 53 <= round_half_even (s / inject_Z (2 ^ last_bit s)) <= 2 ^ 53.
Proof.
  pose proof (last_bit_upper s) as U.
  pose proof (inject_pow2_pos _ (last_bit_nonneg s)) as P.
  rewrite Z.pow_add_r, inject_Z_mult in U by (pose proof (last_bit_nonneg s); lia).
  set (p := inject_Z (2 ^ last_bit s)) in *.
  set (t := inject_Z (2 ^ 53)) in *.
  apply Qabs_Qlt_condition in U. destruct U as [Lo Hi].
  rewrite <- (round_half_even_Z (2 ^ 53)) at 2.
  rewrite <- (round_half_even_Z (- 2 ^ 53)).
  rewrite inject_Z_opp. fold t.
  split; apply round_half_even_mono.
  - apply Qle_shift_div_l; [exact P | lra].
  - apply Qle_shift_div_r; [exact P | lra].
Qed.

Lemma mantissa_normal_pos (s : Q) :
  0 < last_bit s -> (0 < s)%Q ->
  2 ^ 52 <= round_half_even (s / inject_Z (2 ^ last_bit s)).
Proof.
  intros N S. pose proof (last_bit_lower s N) as L.
  pose proof (inject_pow2_pos _ (last_bit_nonneg s)) as P.
  rewrite Z.add_comm, Z.pow_add_r, inject_Z_mult in L by lia.
  rewrite Qabs_pos in L by lra.
  rewrite <- (round_half_even_Z (2 ^ 52)). apply round_half_even_mono.
  apply Qle_shift_div_l; [exact P | exact L].
Qed.

Lemma mantissa_normal_neg (s : Q) :
  0 < last_bit s -> (s < 0)%Q ->
  round_half_even (s / inject_Z (2 ^ last_bit s)) <= - 2 ^ 52.
Proof.
  intros N S. pose proof (last_bit_lower s N) as L.
  pose proof (inject_pow2_pos _ (last_bit_nonneg s)) as P.
  rewrite Z.add_comm, Z.pow_add_r, inject_Z_mult in L by lia.
  rewrite Qabs_neg in L by lra.
  rewrite <- (round_half_even_Z (- 2 ^ 52)). apply round_half_even_mono.
  rewrite inject_Z_opp.
  apply Qle_shift_div_r; [exact P | lra].
Qed.

Lemma round_53_bits_nonneg (s : Q) : (0 <= s)%Q -> 0 <= round_53_bits s.
Proof.
  intros S. unfold round_53_bits.
  pose proof (inject_pow2_pos _ (last_bit_nonneg s)) as P.
  pose proof (pow2_pos _ (last_bit_nonneg s)).
  apply Z.mul_nonneg_nonneg; [| lia].
  rewrite <- (round_half_even_Z 0). apply round_half_even_mono.
  change (inject_Z 0) with 0%Q.
  apply Qle_shift_div_l; [exact P | lra].
Qed.

Lemma round_53_bits_nonpos (s : Q) : (s <= 0)%Q -> round_53_bits s <= 0.
Proof.
  intros S. unfold round_53_bits.
  pose proof (inject_pow2_pos _ (last_bit_nonneg s)) as P.
  pose proof (pow2_pos _ (last_bit_nonneg s)).
  apply Z.mul_nonpos_nonneg; [| lia].
  rewrite <- (round_half_even_Z 0). apply round_half_even_mono.
  change (inject_Z 0) with 0%Q.
  apply Qle_shift_div_r; [exact P | lra].
Qed.

(** Rounding to 53 bits is monotone. *)
Lemma round_53_bits_mono (s t : Q) :
  (s <= t)%Q -> round_53_bits s <= round_53_bits t.
Proof.
  intros L.
  destruct (Qlt_le_dec 0 s) as [S | S].
  - (* 0 < s <= t *)
    assert (A : last_bit s <= last_bit t).
    { apply last_bit_mono. rewrite !Qabs_pos by lra. exact L. }
    pose proof (last_bit_nonneg s) as Ns.
    unfold round_53_bits.
    destruct (Z.eq_dec (last_bit s) (last_bit t)) as [E | N].
    + rewrite E. apply Z.mul_le_mono_nonneg_r; [apply Z.pow_nonneg; lia |].
      apply round_half_even_mono. rewrite <- E.
      apply Qmult_le_compat_r; [exact L |].
      apply Qlt_le_weak, Qinv_lt_0_compat, inject_pow2_pos, Ns.
    + pose proof (mantissa_bounds s) as [_ Us].
      pose proof (mantissa_normal_pos t ltac:(lia) ltac:(lra)) as Lt.
      transitivity (2 ^ 53 * 2 ^ last_bit s).
      { apply Z.mul_le_mono_nonneg_r; [apply Z.pow_nonneg; lia | exact Us]. }
      transitivity (2 ^ 52 * 2 ^ last_bit t).
      { rewrite <- !Z.pow_add_r by lia. apply Z.pow_le_mono_r; lia. }
      apply Z.mul_le_mono_nonneg_r; [apply Z.pow_nonneg; lia | exact Lt].
  - destruct (Qlt_le_dec t 0) as [T | T].
    + (* s <= t < 0 *)
      assert (A : last_bit t <= last_bit s).
      { apply last_bit_mono. rewrite !Qabs_neg by lra. lra. }
      pose proof (last_bit_nonneg t) as Nt.
      unfold round_53_bits.
      destruct (Z.eq_dec (last_bit s) (last_bit t)) as [E | N].
      * rewrite E. apply Z.mul_le_mono_nonneg_r; [apply Z.pow_nonneg; lia |].
        apply round_half_even_mono. rewrite <- E.
        apply Qmult_le_compat_r; [exact L |].
        apply Qlt_le_weak, Qinv_lt_0_compat, inject_pow2_pos. lia.
      * pose proof (mantissa_bounds t) as [Lt _].
        pose proof (mantissa_normal_neg s ltac:(lia) ltac:(lra)) as Us.
        transitivity (- 2 ^ 52 * 2 ^ last_bit s).
        { apply Z.mul_le_mono_nonneg_r; [apply Z.pow_nonneg; lia | exact Us]. }
        transitivity (- 2 ^ 53 * 2 ^ last_bit t).
        { rewrite !Z.mul_opp_l. apply Z.opp_le_mono. rewrite !Z.opp_involutive.
          rewrite <- !Z.pow_add_r by lia. apply Z.pow_le_mono_r; lia. }
        apply Z.mul_le_mono_nonneg_r; [apply Z.pow_nonneg; lia | exact Lt].
    + (* s <= 0 <= t *)
      pose proof (round_53_bits_nonpos s S). pose proof (round_53_bits_nonneg t T).
      lia.
Qed.

(** A number that has 53 significant bits is its own rounding. *)
Lemma round_53_bits_multiple (n : Z) (s : Q) :
  (s == inject_Z (n * 2 ^ last_bit s))%Q -> round_53_bits s = n * 2 ^ last_bit s.
Proof.
  intros E. unfold round_53_bits. f_equal.
  rewrite <- (round_half_even_Z n). apply round_half_even_compat.
  pose proof (inject_pow2_pos _ (last_bit_nonneg s)) as P.
  rewrite E at 1. rewrite inject_Z_mult. field.
  intros Z0. rewrite Z0 in P. exact (Qlt_irrefl _ P).
Qed.

Lemma round_53_bits_exact (m k : Z) :
  0 <= k -> - 2 ^ 53 <= m <= 2 ^ 53 ->
  round_53_bits (inject_Z (m * 2 ^ k)) = m * 2 ^ k.
Proof.
  intros K M. set (z := m * 2 ^ k). set (lb := last_bit (inject_Z z)).
  pose proof (last_bit_nonneg (inject_Z z)) as N. fold lb in N.
  assert (D : exists n, z = n * 2 ^ lb).
  { destruct (Z_le_gt_dec lb k) as [L | G].
    - exists (m * 2 ^ (k - lb)). unfold z.
      rewrite <- Z.mul_assoc, <- Z.pow_add_r by lia. f_equal. f_equal. lia.
    - pose proof (last_bit_lower (inject_Z z) ltac:(fold lb; lia)) as Lo.
      fold lb in Lo.
      change (Qabs (inject_Z z)) with (inject_Z (Z.abs z)) in Lo.
      rewrite <- Zle_Qle in Lo. unfold z in Lo.
      rewrite Z.abs_mul, (Z.abs_eq (2 ^ k)) in Lo by (apply Z.pow_nonneg; lia).
      pose proof (pow2_pos k K) as Pk.
      assert (A : Z.abs m * 2 ^ k <= 2 ^ 53 * 2 ^ k)
        by (apply Z.mul_le_mono_nonneg_r; lia).
      rewrite <- Z.pow_add_r in A by lia.
      assert (B : lb + 52 <= 53 + k).
      { apply (Z.pow_le_mono_r_iff 2); lia. }
      assert (lb = k + 1) by lia. subst lb.
      replace (last_bit (inject_Z z) + 52) with (53 + k) in Lo by lia.
      rewrite Z.pow_add_r in Lo by lia.
      assert (C : 2 ^ 53 <= Z.abs m).
      { apply (Z.mul_le_mono_pos_r _ _ (2 ^ k)); [exact Pk | exact Lo]. }
      replace (last_bit (inject_Z z)) with (k + 1) by lia.
      rewrite Z.pow_add_r by lia. change (2 ^ 1) with 2.
      change (2 ^ 53) with (2 * 2 ^ 52) in *.
      destruct (Z_le_gt_dec 0 m) as [Pm | Pm].
      + exists (2 ^ 52). unfold z. replace m with (2 * 2 ^ 52) by lia. ring.
      + exists (- 2 ^ 52). unfold z. replace m with (- (2 * 2 ^ 52)) by lia. ring. }
  destruct D as (n & E).
  rewrite E at 2. apply round_53_bits_multiple. f_equal. exact E.
Qed.

Lemma round_53_bits_idem (s : Q) :
  round_53_bits (inject_Z (round_53_bits s)) = round_53_bits s.
Proof.
  unfold round_53_bits at 2 3.
  apply round_53_bits_exact; [apply last_bit_nonneg | apply mantissa_bounds].
Qed.

(** Rounding to 53 bits moves a number by at most half of the last bit. *)
Lemma round_53_bits_near (s : Q) :
  (Qabs (inject_Z (round_53_bits s) - s) <= inject_Z (2 ^ last_bit s) / 2)%Q.
Proof.
  unfold round_53_bits.
  pose proof (inject_pow2_pos _ (last_bit_nonneg s)) as P.
  set (p := inject_Z (2 ^ last_bit s)) in *.
  pose proof (round_half_even_near (s / p)) as N.
  rewrite inject_Z_mult. fold p.
  set (m := inject_Z (round_half_even (s / p))) in *.
  apply Qabs_Qle_condition in N. destruct N as [Lo Hi].
  assert (E : (s == (s / p) * p)%Q).
  { field. intros Z0. rewrite Z0 in P. exact (Qlt_irrefl _ P). }
  set (q := (s / p)%Q) in *.
  apply Qabs_Qle_condition.
  assert (A : ((q - m) * p <= (1 # 2) * p)%Q)
    by (apply Qmult_le_compat_r; [exact Hi | lra]).
  assert (B : ((- (1 # 2)) * p <= (q - m) * p)%Q)
    by (apply Qmult_le_compat_r; [exact Lo | lra]).
  split.
  - rewrite E at 1. 
    assert (X : (m * p - q * p == - ((q - m) * p))%Q) by ring.
    rewrite X. 
    assert (Y : (- (p / 2) == - ((1 # 2) * p))%Q) by (field).
    rewrite Y. apply Qopp_le_compat. exact A.
  - rewrite E at 1.
    assert (X : (m * p - q * p == - ((q - m) * p))%Q) by ring.
    rewrite X.
    assert (Y : (p / 2 == - ((- (1 # 2)) * p))%Q) by (field).
    rewrite Y. apply Qopp_le_compat. exact B.
Qed.

Lemma float64_compat (p q : Q) : (p == q)%Q -> float64 p = float64 q.
Proof.
  intros E. unfold float64. f_equal. f_equal.
  apply round_53_bits_compat. rewrite E. reflexivity.
Qed.

Lemma float64_mono (p q : Q) : (p <= q)%Q -> (float64 p <= float64 q)%Q.
Proof.
  intros L. unfold float64.
  pose proof (inject_pow2_pos 1074 ltac:(lia)) as P.
  apply Qmult_le_compat_r.
  - rewrite <- Zle_Qle. apply round_53_bits_mono.
    apply Qmult_le_compat_r; [exact L | apply Qlt_le_weak, P].
  - apply Qlt_le_weak, Qinv_lt_0_compat, P.
Qed.

(** A double is its own nearest double. *)
Lemma float64_idem (q : Q) : float64 (float64 q) = float64 q.
Proof.
  unfold float64 at 1 3. f_equal. f_equal.
  rewrite <- (round_53_bits_idem (q * inject_Z (2 ^ 1074))).
  apply round_53_bits_compat. unfold float64.
  pose proof (inject_pow2_pos 1074 ltac:(lia)) as P.
  field. intros Z0. rewrite Z0 in P. exact (Qlt_irrefl _ P).
Qed.

(** Integers of at most 53 bits are doubles. *)
Lemma float64_Z (z : Z) :
  - 2 ^ 53 <= z <= 2 ^ 53 -> (float64 (inject_Z z) == inject_Z z)%Q.
Proof.
  intros B. unfold float64.
  pose proof (inject_pow2_pos 1074 ltac:(lia)) as P.
  rewrite (round_53_bits_compat _ (inject_Z (z * 2 ^ 1074)))
    by (rewrite inject_Z_mult; reflexivity).
  rewrite round_53_bits_exact by (lia || exact B).
  rewrite inject_Z_mult. field.
  intros Z0. rewrite Z0 in P. exact (Qlt_irrefl _ P).
Qed.

Lemma float64_unit_interval (q : Q) :
  (0 <= q <= 1)%Q -> (0 <= float64 q <= 1)%Q.
Proof.
  intros [Lo Hi]. split.
  - rewrite <- (float64_Z 0) by (split; apply Z.leb_le; reflexivity).
    apply float64_mono. exact Lo.
  - rewrite <- (float64_Z 1) by (split; apply Z.leb_le; reflexivity).
    apply float64_mono. exact Hi.
Qed.

(** Up to magnitude 1 the nearest double is within [2^-53]. *)
Lemma float64_near (q : Q) :
  (Qabs q <= 1)%Q -> (Qabs (float64 q - q) <= 1 # 2 ^ 53)%Q.
Proof.
  intros B. unfold float64.
  pose proof (inject_pow2_pos 1074 ltac:(lia)) as P.
  set (c := inject_Z (2 ^ 1074)) in *.
  set (s := (q * c)%Q).
  pose proof (round_53_bits_near s) as N.
  assert (L : last_bit s <= 1022).
  { unfold last_bit.
    assert (F : Qfloor (Qabs s) <= 2 ^ 1074).
    { rewrite <- (Qfloor_Z (2 ^ 1074)). apply Qfloor_resp_le.
      unfold s. rewrite Qabs_Qmult, (Qabs_pos c) by (apply Qlt_le_weak, P).
      fold c. rewrite <- (Qmult_1_l c) at 2.
      apply Qmult_le_compat_r; [exact B | apply Qlt_le_weak, P]. }
    apply Z.log2_le_mono in F. rewrite Z.log2_pow2 in F by lia. lia. }
  assert (U : (inject_Z (2 ^ last_bit s) <= inject_Z (2 ^ 1022))%Q).
  { rewrite <- Zle_Qle. apply Z.pow_le_mono_r; [lia | exact L]. }
  set (r := inject_Z (round_53_bits s)) in *.
  set (u := inject_Z (2 ^ last_bit s)) in *.
  assert (E : (r / c - q == (r - s) / c)%Q).
  { unfold s. field. intros Z0. rewrite Z0 in P. exact (Qlt_irrefl _ P). }
  rewrite E. unfold Qdiv at 1. rewrite Qabs_Qmult.
  rewrite (Qabs_pos (/ c)) by (apply Qlt_le_weak, Qinv_lt_0_compat, P).
  apply Qle_trans with ((inject_Z (2 ^ 1022) / 2) * / c)%Q.
  - apply Qmult_le_compat_r; [| apply Qlt_le_weak, Qinv_lt_0_compat, P].
    eapply Qle_trans; [exact N |].
    apply Qmult_le_compat_r; [exact U | discriminate].
  - unfold c. apply Qle_bool_iff. vm_compute. reflexivity.
Qed.

(** ** The stable sort *)

Section StableSortFacts.
Context {A : Type} (before : A -> A -> bool).

Lemma insert_sorted_perm (x : A) (l : list A) :
  Permutation (insert_sorted before x l) (x :: l).
Proof.
  induction l as [| y l IH]; simpl.
  - reflexivity.
  - destruct (before x y).
    + reflexivity.
    + rewrite IH. apply perm_swap.
Qed.

Lemma stable_sort_perm (l : list A) : Permutation (stable_sort before l) l.
Proof.
  induction l as [| x l IH]; simpl.
  - reflexivity.
  - rewrite insert_sorted_perm. constructor. exact IH.
Qed.

Lemma stable_sort_length (l : list A) :
  length (stable_sort before l) = length l.
Proof. apply Permutation_length, stable_sort_perm. Qed.

Lemma stable_sort_In (x : A) (l : list A) :
  In x (stable_sort before l) <-> In x l.
Proof.
  split; apply Permutation_in;
    [apply stable_sort_perm | symmetry; apply stable_sort_perm].
Qed.

Hypothesis before_total : forall x y, before x y = true \/ before y x = true.

Lemma insert_sorted_Sorted (x : A) (l : list A) :
  Sorted (precedes before) l -> Sorted (precedes before) (insert_sorted before x l).
Proof.
  induction 1 as [| y l S IH H]; simpl.
  - repeat constructor.
  - destruct (before x y) eqn:B.
    + constructor; [constructor; assumption | constructor; exact B].
    + constructor; [exact IH |].
      destruct (before_total x y) as [T | T]; [congruence |].
      destruct l as [| z l]; simpl.
      * constructor. exact T.
      * destruct (before x z); constructor; [exact T |].
        inversion H; assumption.
Qed.

Lemma stable_sort_Sorted (l : list A) : Sorted (precedes before) (stable_sort before l).
Proof.
  induction l as [| x l IH]; simpl.
  - constructor.
  - apply insert_sorted_Sorted, IH.
Qed.

End StableSortFacts.

Section StableSortMore.
Context {A : Type} (before : A -> A -> bool).

(** A list that is already in order is returned as it is. *)
Lemma insert_sorted_head (x : A) (l : list A) :
  HdRel (precedes before) x l -> insert_sorted before x l = x :: l.
Proof.
  destruct 1 as [| y l H]; simpl; [reflexivity |].
  unfold precedes in H. rewrite H. reflexivity.
Qed.

Lemma stable_sort_id (l : list A) :
  Sorted (precedes before) l -> stable_sort before l = l.
Proof.
  induction 1 as [| x l S IH H]; simpl; [reflexivity |].
  rewrite IH. apply insert_sorted_head, H.
Qed.

(** Stability: the elements of a class of mutually tied elements come out
    in the order they went in. *)
Lemma insert_sorted_filter (p : A -> bool) (x : A) (l : list A) :
  (forall a b, p a = true -> p b = true -> before a b = true) ->
  List.filter p (insert_sorted before x l) = List.filter p (x :: l).
Proof.
  intros Tie. induction l as [| y l IH]; simpl; [reflexivity |].
  destruct (before x y) eqn:B; simpl; [reflexivity |].
  rewrite IH. simpl.
  destruct (p x) eqn:Px, (p y) eqn:Py; try reflexivity.
  rewrite (Tie x y Px Py) in B. discriminate.
Qed.

Lemma stable_sort_filter (p : A -> bool) (l : list A) :
  (forall a b, p a = true -> p b = true -> before a b = true) ->
  List.filter p (stable_sort before l) = List.filter p l.
Proof.
  intros Tie. induction l as [| x l IH]; simpl; [reflexivity |].
  rewrite (insert_sorted_filter p x _ Tie). simpl. rewrite IH. reflexivity.
Qed.

End StableSortMore.

(** ** The score adjuster *)

Lemma fold_left_snoc_map {A B} (f : A -> B) (l : list A) (acc : list B) :
  fold_left (fun acc t => acc ++ [f t]) l acc = acc ++ map f l.
Proof.
  revert acc. induction l as [| x l IH]; intros acc; simpl.
  - rewrite app_nil_r. reflexivity.
  - rewrite IH, <- app_assoc. reflexivity.
Qed.

Lemma apply_species_penalty_unfold (target_species : string) (sims : list Sim) :
  _apply_species_penalty target_species sims
  = sort_by_score_desc (map (penalized target_species) sims).
Proof.
  unfold _apply_species_penalty. rewrite fold_left_snoc_map. reflexivity.
Qed.

Lemma penalized_formula (target_species name species : string) (raw : Q) :
  penalized target_species (name, species, raw)
  = (name, species,
     if String.eqb species target_species then round (float64 raw) 4
     else round (Qmax 0 (float_sub raw (1 # 10))) 4).
Proof.
  unfold penalized. destruct (String.eqb species target_species); simpl.
  - reflexivity.
  - f_equal. apply round_compat, max_Qmax.
Qed.

Lemma float_sub_tenth (raw : Q) :
  (0 <= raw <= 1)%Q -> (float_sub raw (1 # 10) <= 1)%Q.
Proof.
  intros B. unfold float_sub.
  pose proof (float64_unit_interval raw B) as [_ Hi].
  pose proof (float64_unit_interval (1 # 10)) as [Lo _];
    [split; discriminate |].
  rewrite <- (float64_Z 1) by (split; apply Z.leb_le; reflexivity).
  apply float64_mono. change (inject_Z 1) with 1%Q. lra.
Qed.

Lemma penalized_unit_interval (target_species : string) (t : Sim) :
  (0 <= score_of t <= 1)%Q ->
  (0 <= score_of (penalized target_species t) <= 1)%Q.
Proof.
  destruct t as [[name species] raw]. unfold score_of. simpl. intros B.
  apply round_unit_interval.
  destruct (negb _); [| apply float64_unit_interval, B].
  pose proof (float_sub_tenth raw B) as Hi.
  unfold max. destruct (Qlt_le_dec 0 (float_sub raw (1 # 10))); split; lra.
Qed.

Lemma float_sub_tenth_near (raw : Q) :
  (0 <= raw <= 1)%Q ->
  (Qabs (float_sub raw (1 # 10) - (raw - (1 # 10))) <= 1 # 2 ^ 51)%Q.
Proof.
  intros B. unfold float_sub.
  pose proof (float64_unit_interval raw B) as D.
  assert (C := float64_unit_interval (1 # 10) ltac:(split; discriminate)).
  assert (N1 := float64_near raw ltac:(apply Qabs_Qle_condition; split; lra)).
  assert (N2 := float64_near (1 # 10) ltac:(discriminate)).
  assert (N3 := float64_near (float64 raw - float64 (1 # 10))
                  ltac:(apply Qabs_Qle_condition; split; lra)).
  set (d := float64 raw) in *. set (c := float64 (1 # 10)) in *.
  set (e := float64 (d - c)) in *.
  change (1 # 2 ^ 53)%Q with (1 # 9007199254740992)%Q in *.
  change (1 # 2 ^ 51)%Q with (1 # 2251799813685248)%Q.
  apply Qabs_Qle_condition in N1, N2, N3.
  apply Qabs_Qle_condition. split; lra.
Qed.

(** An evaluation of the adjuster at scores whose exact value lies halfway
    between two multiples of 0.0001. *)
Example adjusted_scores_at_halves :
  _apply_species_penalty "dog"
    [("Persian", "cat", 7 # 32); ("Ragdoll", "cat", 5 # 32);
     ("Pug", "dog", 9 # 160); ("Boxer", "dog", 1 # 160)]%Q
  = [("Persian", "cat", 1187 # 10000); ("Pug", "dog", 563 # 10000);
     ("Ragdoll", "cat", 562 # 10000); ("Boxer", "dog", 63 # 10000)]%Q.
Proof. vm_compute. reflexivity. Qed.

(** The score 7/32 arises from a store: analysing "Beagle" in
    [halfway_store] lists "Persian" with 0.1187, where the exact
    [7/32 - 0.10] is 0.11875. *)
Example halfway_store_run :
  raw_similarity halfway_store (Breed.mk 1 "Beagle" "dog")
    (Breed.mk 2 "Persian" "cat") = (7 # 32)%Q
  /\ exists resp,
       run_risk_analysis no_suggestions offline halfway_store "Beagle" = Ok resp
       /\ similar_breeds resp = [mkSimilarBreed "Persian" "cat" (1187 # 10000)].
Proof.
  split; [vm_compute; reflexivity |].
  eexists. split; [vm_compute; reflexivity | reflexivity].
Qed.

(** C4, as stated, fails: the adjusted score is not the exact value
    [raw], or [max(0, raw - 0.10)], rounded to four decimals, whatever the
    rounding rule.  With target species "dog", the cat with raw score 5/32
    and the dog with raw score 9/160 have the same exact value 0.05625 to
    round, and the adjuster gives the first 0.0562 and the second 0.0563:
    the double [5/32 - 0.1] lies just below 0.05625, the double nearest to
    9/160 just above. *)
Lemma adjusted_score_is_no_rounding_of_the_exact_value :
  ~ (exists rounded : Q -> Q,
       (forall x y, (x == y)%Q -> (rounded x == rounded y)%Q)
       /\ forall target_species sims name species raw,
            In (name, species, raw) sims ->
            exists adjusted,
              In (name, species, adjusted)
                (_apply_species_penalty target_species sims)
              /\ (adjusted
                  == rounded (if String.eqb species target_species then raw
                              else Qmax 0 (raw - (1 # 10))))%Q).
Proof.
  intros (rounded & Compat & Claim).
  destruct (Claim "dog" [("Ragdoll", "cat", 5 # 32)%Q] "Ragdoll" "cat" (5 # 32)%Q)
    as (a1 & I1 & E1); [left; reflexivity |].
  destruct (Claim "dog" [("Pug", "dog", 9 # 160)%Q] "Pug" "dog" (9 # 160)%Q)
    as (a2 & I2 & E2); [left; reflexivity |].
  vm_compute in I1. destruct I1 as [I1 | []]. injection I1 as <-.
  vm_compute in I2. destruct I2 as [I2 | []]. injection I2 as <-.
  simpl in E1, E2.
  rewrite (Compat (Qmax 0 ((5 # 32) - (1 # 10))) (9 # 160)%Q) in E1
    by reflexivity.
  rewrite <- E2 in E1. discriminate E1.
Qed.

(** C4, amended. For target species [s], the adjuster returns, up to order,
    each candidate [(name, species, raw)] with the score [round(v, 4)],
    where [v] is the double nearest to [raw] when [species = s] and
    [max(0.0, raw - 0.1)] taken in double arithmetic otherwise;
    [round(x, 4)] is a multiple of 1/10000 at distance at most 1/20000 from
    [x], and for [raw] in [0,1] the double [v] is within [2^-51] of [raw],
    respectively of the exact [max(0, raw - 0.10)]; when every raw score
    lies in [0,1], so does every adjusted score. *)
Theorem apply_species_penalty_scores (target_species : string) (sims : list Sim) :
  Permutation (_apply_species_penalty target_species sims)
    (map (fun t : Sim =>
            (fst (fst t), snd (fst t),
             if String.eqb (snd (fst t)) target_species
             then round (float64 (snd t)) 4
             else round (Qmax 0 (float_sub (snd t) (1 # 10))) 4)) sims)
  /\ (forall x : Q,
        exists z : Z,
          round x 4 = (inject_Z z / inject_Z 10000)%Q
          /\ (Qabs (x - round x 4) <= 1 # 20000)%Q)
  /\ (forall raw : Q,
        (0 <= raw <= 1)%Q ->
        (Qabs (float64 raw - raw) <= 1 # 2 ^ 51)%Q
        /\ (Qabs (Qmax 0 (float_sub raw (1 # 10)) - Qmax 0 (raw - (1 # 10)))
            <= 1 # 2 ^ 51)%Q)
  /\ (Forall (fun t => (0 <= score_of t <= 1)%Q) sims ->
      Forall (fun t => (0 <= score_of t <= 1)%Q)
        (_apply_species_penalty target_species sims)).
Proof.
  rewrite apply_species_penalty_unfold. split; [| split; [| split]].
  - unfold sort_by_score_desc. rewrite stable_sort_perm.
    erewrite map_ext; [reflexivity |].
    intros [[name species] raw]. apply penalized_formula.
  - intros x. exists (round_half_even (x * inject_Z (10 ^ Z.of_nat 4))).
    split; [reflexivity |].
    pose proof (round_near x 4) as N.
    change (inject_Z (10 ^ Z.of_nat 4)) with (10000 # 1)%Q in N.
    apply Qmult_le_r with (z := (10000 # 1)%Q); [reflexivity |].
    eapply Qle_trans; [exact N | discriminate].
  - intros raw B. split.
    + eapply Qle_trans; [apply float64_near |].
      * apply Qabs_Qle_condition. split; lra.
      * discriminate.
    + pose proof (float_sub_tenth_near raw B) as N.
      set (a := float_sub raw (1 # 10)) in *.
      set (b := (raw - (1 # 10))%Q) in *.
      change (1 # 2 ^ 51)%Q with (1 # 2251799813685248)%Q in *.
      rewrite Qabs_Qle_condition in N. destruct N as [N1 N2].
      apply Qabs_Qle_condition.
      destruct (Q.max_spec 0 a) as [[? ->] | [? ->]];
        destruct (Q.max_spec 0 b) as [[? ->] | [? ->]]; split; lra.
  - intros H. rewrite List.Forall_forall in *. intros t Ht.
    unfold sort_by_score_desc in Ht.
    apply stable_sort_In, in_map_iff in Ht. destruct Ht as (t0 & <- & Ht0).
    apply penalized_unit_interval, H, Ht0.
Qed.

Lemma apply_species_penalty_scores_witness :
  ((Qabs (float64 (7 # 32) - (7 # 32)) <= 1 # 2 ^ 51)%Q
   /\ (Qabs (Qmax 0 (float_sub (7 # 32) (1 # 10))
             - Qmax 0 ((7 # 32) - (1 # 10))) <= 1 # 2 ^ 51)%Q)
  /\ Forall (fun t => (0 <= score_of t <= 1)%Q)
       (_apply_species_penalty "dog"
          [("Persian", "cat", 7 # 32); ("Beagle", "dog", 1 # 3)]%Q).
Proof.
  split.
  - apply (proj1 (proj2 (proj2 (apply_species_penalty_scores "dog"
             [("Persian", "cat", 7 # 32); ("Beagle", "dog", 1 # 3)]%Q)))
             (7 # 32)%Q).
    split; discriminate.
  - apply (proj2 (proj2 (proj2 (apply_species_penalty_scores "dog"
             [("Persian", "cat", 7 # 32); ("Beagle", "dog", 1 # 3)]%Q)))).
    repeat constructor; simpl; discriminate.
Defined.

(** ** The similarity query *)

Lemma NoDup_list_prod {A B} (l1 : list A) (l2 : list B) :
  NoDup l1 -> NoDup l2 -> NoDup (list_prod l1 l2).
Proof.
  intros H1 H2. induction H1 as [| x l1 Hx H1 IH]; simpl.
  - constructor.
  - apply NoDup_app. split; [| split].
    + apply NoDup_fmap_2; [intros a b E; congruence | exact H2].
    + intros [a b] Hin Hin'.
      apply list_elem_of_In, in_map_iff in Hin. destruct Hin as (b' & E & _).
      apply list_elem_of_In, in_prod_iff in Hin'. destruct Hin' as [Ha _].
      apply Hx. apply list_elem_of_In. congruence.
    + exact IH.
Qed.

Lemma NoDup_map_inj_on {A B} (f : A -> B) (l : list A) (x y : A) :
  NoDup (map f l) -> In x l -> In y l -> f x = f y -> x = y.
Proof.
  induction l as [| a l IH]; simpl; [tauto |].
  intros N Hx Hy E. apply NoDup_cons in N. destruct N as [Na N].
  destruct Hx as [-> | Hx], Hy as [-> | Hy].
  - reflexivity.
  - exfalso. apply Na. apply list_elem_of_In. rewrite E. apply in_map, Hy.
  - exfalso. apply Na. apply list_elem_of_In. rewrite <- E. apply in_map, Hx.
  - apply IH; assumption.
Qed.

Section Similarity.
Variable db : Store.
Hypothesis links_unique : NoDup (map BreedDiseaseLink.key (breed_disease_links db)).

Lemma elem_of_their_ids (b d : Z) :
  d ∈ their_ids db b <->
  exists l, In l (breed_disease_links db)
            /\ BreedDiseaseLink.breed_id l = b
            /\ BreedDiseaseLink.disease_id l = d.
Proof.
  unfold their_ids. rewrite elem_of_list_to_set, list_elem_of_In, in_map_iff.
  split.
  - intros (l & E & Hl). apply filter_In in Hl. destruct Hl as [Hl Hb].
    exists l. repeat split; [assumption | lia | assumption].
  - intros (l & Hl & Hb & Hd). exists l. split; [assumption |].
    apply filter_In. split; [assumption | lia].
Qed.

Lemma joined_links_In (b1 b2 : Z) (p : BreedDiseaseLink.t * BreedDiseaseLink.t) :
  In p (joined_links db b1 b2) <->
  In (fst p) (breed_disease_links db) /\ In (snd p) (breed_disease_links db)
  /\ BreedDiseaseLink.disease_id (fst p) = BreedDiseaseLink.disease_id (snd p)
  /\ BreedDiseaseLink.breed_id (fst p) = b1
  /\ BreedDiseaseLink.breed_id (snd p) = b2.
Proof.
  unfold joined_links. rewrite filter_In. destruct p as [l1 l2]. simpl.
  rewrite in_prod_iff, !andb_true_iff, !Z.eqb_eq. tauto.
Qed.

Lemma count_joined_intersection (b1 b2 : Z) :
  count_joined db b1 b2 = Z.of_nat (size (their_ids db b1 ∩ their_ids db b2)).
Proof.
  unfold count_joined. f_equal.
  set (g := fun p : BreedDiseaseLink.t * BreedDiseaseLink.t =>
              BreedDiseaseLink.disease_id (fst p)).
  assert (NL : NoDup (breed_disease_links db))
    by (eapply (NoDup_fmap_1 BreedDiseaseLink.key); exact links_unique).
  assert (ND : NoDup (map g (joined_links db b1 b2))).
  { apply NoDup_ListNoDup, NoDup_map_NoDup_ForallPairs.
    - intros p q Hp Hq E. apply joined_links_In in Hp, Hq. unfold g in E.
      destruct Hp as (Hp1 & Hp2 & Hpd & Hpb1 & Hpb2).
      destruct Hq as (Hq1 & Hq2 & Hqd & Hqb1 & Hqb2).
      destruct p as [p1 p2], q as [q1 q2]. simpl in *.
      f_equal; eapply NoDup_map_inj_on; try exact links_unique; try assumption;
        unfold BreedDiseaseLink.key; f_equal; congruence.
    - apply List.NoDup_filter, NoDup_ListNoDup, NoDup_list_prod; exact NL. }
  rewrite <- (length_map g), <- (size_list_to_set (C := gset Z)) by exact ND.
  f_equal. apply set_eq. intros d.
  rewrite elem_of_list_to_set, list_elem_of_In, in_map_iff, elem_of_intersection,
    !elem_of_their_ids.
  split.
  - intros ([l1 l2] & E & Hp). apply joined_links_In in Hp. unfold g in E.
    simpl in *. destruct Hp as (H1 & H2 & Hd & Hb1 & Hb2).
    split; [exists l1 | exists l2]; repeat split; congruence.
  - intros [(l1 & H1 & Hb1 & Hd1) (l2 & H2 & Hb2 & Hd2)].
    exists (l1, l2). split; [exact Hd1 |].
    apply joined_links_In. simpl. repeat split; congruence.
Qed.

End Similarity.

Lemma count_distinct_diseases_union (db : Store) (b1 b2 : Z) :
  count_distinct_diseases db b1 b2
  = Z.of_nat (size (their_ids db b1 ∪ their_ids db b2)).
Proof.
  unfold count_distinct_diseases. f_equal.
  rewrite <- (size_list_to_set (C := gset Z)) by apply NoDup_remove_dups.
  f_equal. apply set_eq. intros d.
  rewrite elem_of_list_to_set, elem_of_remove_dups, elem_of_union.
  unfold their_ids. rewrite !elem_of_list_to_set, !list_elem_of_In, !in_map_iff.
  split.
  - intros (l & E & Hl). apply filter_In in Hl. destruct Hl as [Hl Hb].
    apply orb_true_iff in Hb. destruct Hb as [Hb | Hb]; [left | right];
      exists l; (split; [exact E | apply filter_In; split; assumption]).
  - intros [(l & E & Hl) | (l & E & Hl)]; apply filter_In in Hl;
      destruct Hl as [Hl Hb]; exists l; (split; [exact E |]);
      apply filter_In; (split; [exact Hl |]); rewrite Hb;
      [reflexivity | apply orb_true_r].
Qed.

Lemma candidate_rows_In (db : Store) (target_breed : string) (r : Row) :
  In r (candidate_rows db target_breed) <->
  exists b1 b2, In b1 (breeds db) /\ In b2 (breeds db)
    /\ Breed.name b1 = target_breed /\ Breed.name b2 <> target_breed
    /\ r = mkRow (Breed.name b2) (Breed.species b2) (similarity_sql db b1 b2).
Proof.
  unfold candidate_rows. rewrite in_flat_map. split.
  - intros (b1 & H1 & Hr).
    destruct (String.eqb_spec (Breed.name b1) target_breed) as [E1 | N1];
      [| destruct Hr].
    apply in_flat_map in Hr. destruct Hr as (b2 & H2 & Hr).
    destruct (String.eqb_spec (Breed.name b2) target_breed) as [E2 | N2];
      simpl in Hr; [destruct Hr |].
    destruct Hr as [<- | []]. exists b1, b2. tauto.
  - intros (b1 & b2 & H1 & H2 & E1 & N2 & ->). exists b1. split; [exact H1 |].
    destruct (String.eqb_spec (Breed.name b1) target_breed); [| contradiction].
    apply in_flat_map. exists b2. split; [exact H2 |].
    destruct (String.eqb_spec (Breed.name b2) target_breed); [contradiction |].
    left. reflexivity.
Qed.

Lemma In_firstn {A} (n : nat) (l : list A) (x : A) :
  In x (firstn n l) -> In x l.
Proof.
  revert l. induction n as [| n IH]; intros [| y l]; simpl; try tauto.
  intros [-> | H]; [left; reflexivity | right; apply IH, H].
Qed.

Lemma top_similar_breeds_In (db : Store) (target_breed : string) (t : Sim) :
  In t (_top_similar_breeds_via_sql db target_breed) ->
  exists b1 b2, In b1 (breeds db) /\ In b2 (breeds db)
    /\ Breed.name b1 = target_breed /\ Breed.name b2 <> target_breed
    /\ t = (Breed.name b2, Breed.species b2, raw_similarity db b1 b2).
Proof.
  unfold _top_similar_breeds_via_sql. rewrite in_map_iff.
  intros (r & <- & Hr). apply In_firstn in Hr.
  unfold order_by_similarity_desc in Hr. apply stable_sort_In in Hr.
  apply candidate_rows_In in Hr.
  destruct Hr as (b1 & b2 & H1 & H2 & E1 & N2 & ->).
  exists b1, b2. repeat split; assumption.
Qed.

Lemma raw_similarity_jaccard (db : Store) (b1 b2 : Breed.t) :
  NoDup (map BreedDiseaseLink.key (breed_disease_links db)) ->
  (raw_similarity db b1 b2 == jaccard (disease_set db b1) (disease_set db b2))%Q
  /\ (0 <= raw_similarity db b1 b2 <= 1)%Q.
Proof.
  intros U. unfold raw_similarity, row_to_tuple, similarity_sql, sql_div. simpl.
  rewrite count_joined_intersection by exact U.
  rewrite count_distinct_diseases_union.
  unfold jaccard, disease_set.
  set (X := their_ids db (Breed.id b1)). set (Y := their_ids db (Breed.id b2)).
  assert (Sub : (size (X ∩ Y) <= size (X ∪ Y))%nat).
  { apply subseteq_size. intros d Hd. apply elem_of_intersection in Hd.
    apply elem_of_union_l, Hd. }
  destruct (decide (X ∪ Y = ∅)) as [E | N].
  - rewrite E, size_empty. simpl. split; [reflexivity | split; discriminate].
  - assert (P : size (X ∪ Y) <> 0%nat)
      by (apply size_non_empty_iff; intros E; apply N; apply leibniz_equiv, E).
    destruct (Z.eqb_spec (Z.of_nat (size (X ∪ Y))) 0) as [Z0 | _]; [lia |].
    split; [reflexivity |].
    assert (D : (0 < inject_Z (Z.of_nat (size (X ∪ Y))))%Q).
    { change 0%Q with (inject_Z 0). rewrite <- Zlt_Qlt. lia. }
    split.
    + apply Qle_shift_div_l; [exact D |]. rewrite Qmult_0_l.
      change 0%Q with (inject_Z 0). rewrite <- Zle_Qle. lia.
    + apply Qle_shift_div_r; [exact D |]. rewrite Qmult_1_l.
      rewrite <- Zle_Qle. lia.
Qed.

(** C1. Given that a (breed, disease) pair is linked at most once, the
    engine computes for target [T] a row for every other breed [C], its raw
    score is the Jaccard similarity of the two disease sets and lies in
    [0,1], and every tuple the engine returns is such a row. *)
Theorem raw_similarity_is_jaccard (db : Store) (target_breed : string) :
  NoDup (map BreedDiseaseLink.key (breed_disease_links db)) ->
  (forall T C, In T (breeds db) -> In C (breeds db) ->
     Breed.name T = target_breed -> Breed.name C <> target_breed ->
     In (Breed.name C, Breed.species C, raw_similarity db T C)
        (map row_to_tuple (candidate_rows db target_breed))
     /\ (raw_similarity db T C
         == jaccard (disease_set db T) (disease_set db C))%Q
     /\ (0 <= raw_similarity db T C <= 1)%Q)
  /\ Forall
       (fun t => exists T C, In T (breeds db) /\ In C (breeds db)
          /\ Breed.name T = target_breed /\ Breed.name C <> target_breed
          /\ t = (Breed.name C, Breed.species C, raw_similarity db T C))
       (_top_similar_breeds_via_sql db target_breed).
Proof.
  intros U. split.
  - intros T C HT HC ET NC. split; [| apply raw_similarity_jaccard, U].
    apply in_map_iff.
    exists (mkRow (Breed.name C) (Breed.species C) (similarity_sql db T C)).
    split; [reflexivity |]. apply candidate_rows_In. exists T, C. tauto.
  - apply List.Forall_forall. intros t Ht. apply top_similar_breeds_In, Ht.
Qed.

Lemma seed_links_unique :
  NoDup (map BreedDiseaseLink.key (breed_disease_links seed_store)).
Proof. apply (bool_decide_unpack _). vm_compute. exact I. Defined.

Lemma raw_similarity_is_jaccard_witness :
  Forall
    (fun t => exists T C, In T (breeds seed_store) /\ In C (breeds seed_store)
       /\ Breed.name T = "Labrador Retriever"
       /\ Breed.name C <> "Labrador Retriever"
       /\ t = (Breed.name C, Breed.species C, raw_similarity seed_store T C))
    (_top_similar_breeds_via_sql seed_store "Labrador Retriever").
Proof.
  exact (proj2 (raw_similarity_is_jaccard seed_store "Labrador Retriever"
                  seed_links_unique)).
Defined.

Example seed_labrador_top3 :
  _top_similar_breeds_via_sql seed_store "Labrador Retriever"
  = [("Golden Retriever", "dog", 2 # 2); ("German Shepherd", "dog", 1 # 3);
     ("British Shorthair", "cat", 1 # 3)]%Q.
Proof. vm_compute. reflexivity. Qed.

(** C2. When neither [T] nor [C] has a recorded disease, the divisor of the
    query is zero, the similarity cell is [NULL] rather than an error, the
    score reported for [C] is 0, and the engine's computation for target
    [T] has the row [(C.name, C.species, 0)]. *)
Theorem empty_disease_sets_similarity_zero (db : Store) (T C : Breed.t) :
  disease_set db T = ∅ -> disease_set db C = ∅ ->
  count_distinct_diseases db (Breed.id T) (Breed.id C) = 0
  /\ similarity_sql db T C = None
  /\ raw_similarity db T C = 0%Q
  /\ (In T (breeds db) -> In C (breeds db) -> Breed.name C <> Breed.name T ->
      In (Breed.name C, Breed.species C, 0%Q)
         (map row_to_tuple (candidate_rows db (Breed.name T)))).
Proof.
  unfold disease_set. intros ET EC.
  assert (D : count_distinct_diseases db (Breed.id T) (Breed.id C) = 0).
  { rewrite count_distinct_diseases_union, ET, EC, union_empty_l_L, size_empty.
    reflexivity. }
  assert (S : similarity_sql db T C = None).
  { unfold similarity_sql, sql_div. rewrite D. reflexivity. }
  assert (R : raw_similarity db T C = 0%Q).
  { unfold raw_similarity, row_to_tuple. simpl. rewrite S. reflexivity. }
  repeat split; try assumption.
  intros HT HC N. apply in_map_iff.
  exists (mkRow (Breed.name C) (Breed.species C) (similarity_sql db T C)).
  split.
  - unfold row_to_tuple. simpl. rewrite S. reflexivity.
  - apply candidate_rows_In. exists T, C. tauto.
Qed.

Lemma empty_disease_sets_similarity_zero_witness :
  similarity_sql no_disease_store sphynx pug = None
  /\ raw_similarity no_disease_store sphynx pug = 0%Q
  /\ _top_similar_breeds_via_sql no_disease_store "Sphynx" = [("Pug", "dog", 0%Q)].
Proof.
  destruct (empty_disease_sets_similarity_zero no_disease_store sphynx pug)
    as (_ & S & R & _); [reflexivity | reflexivity |].
  split; [exact S | split; [exact R | reflexivity]].
Defined.

Example tie_store_run :
  run_risk_analysis no_suggestions offline tie_store "Beagle"
  = Ok (mkRiskAnalysis "Beagle"
          [mkSimilarBreed "Siamese" "cat" (5000 # 10000);
           mkSimilarBreed "Pug" "dog" (5000 # 10000)]
          ["Allergy"; "Bloat"; "Cataract"]
          (_fallback_plan "Beagle"
             [("Allergy", 1 # 2); ("Bloat", 1 # 2); ("Cataract", 1 # 2)]%Q)).
Proof. vm_compute. reflexivity. Qed.

(** ** The orchestrator *)

Lemma run_risk_analysis_Ok gcm (ext : External) (db : Store)
    (breed_name : string) (resp : RiskAnalysisResponseSchema) :
  run_risk_analysis gcm ext db breed_name = Ok resp ->
  exists target,
    query_breed_first db breed_name = Some target
    /\ target_breed resp = Breed.name target
    /\ similar_breeds resp
       = map similar_breed_schema
           (_apply_species_penalty (Breed.species target)
              (_top_similar_breeds_via_sql db (Breed.name target))).
Proof.
  unfold run_risk_analysis, _get_breed_by_name_or_404.
  destruct (query_breed_first db breed_name) as [target |]; simpl;
    [| discriminate].
  destruct (_shared_diseases_with_top_breeds _ _ _); simpl; [| discriminate].
  destruct (_generate_care_plan _ _ _); simpl; [| discriminate].
  intros [= <-]. exists target. simpl. auto.
Qed.

Lemma Sorted_map {A B} (R : A -> A -> Prop) (R' : B -> B -> Prop)
    (P : A -> Prop) (f : A -> B) (l : list A) :
  (forall x y, P x -> P y -> R x y -> R' (f x) (f y)) ->
  Forall P l -> Sorted R l -> Sorted R' (map f l).
Proof.
  intros Mono HP HS. induction HS as [| x l S IH H]; simpl; [constructor |].
  apply Forall_cons in HP. destruct HP as [Px HP].
  constructor; [apply IH, HP |].
  destruct H as [| y l H]; simpl; constructor.
  apply Forall_cons in HP. destruct HP as [Py _]. apply Mono; assumption.
Qed.

Lemma Forall_True {A} (l : list A) : Forall (fun _ => True) l.
Proof. induction l; constructor; auto. Qed.

Lemma Qle_bool_total (x y : Q) : Qle_bool x y = true \/ Qle_bool y x = true.
Proof.
  rewrite !Qle_bool_iff. destruct (Qlt_le_dec x y) as [L | L]; [left | right].
  - apply Qlt_le_weak, L.
  - exact L.
Qed.

Lemma apply_species_penalty_Sorted (target_species : string) (sims : list Sim) :
  Sorted (fun x y => (score_of y <= score_of x)%Q)
    (_apply_species_penalty target_species sims).
Proof.
  rewrite apply_species_penalty_unfold. unfold sort_by_score_desc.
  match goal with |- Sorted _ ?l => rewrite <- (map_id l) end.
  eapply Sorted_map with (P := fun _ => True).
  - intros x y _ _ H. apply Qle_bool_iff. exact H.
  - apply Forall_True.
  - apply stable_sort_Sorted. intros x y. apply Qle_bool_total.
Qed.

Lemma apply_species_penalty_length (target_species : string) (sims : list Sim) :
  length (_apply_species_penalty target_species sims) = length sims.
Proof.
  rewrite apply_species_penalty_unfold. unfold sort_by_score_desc.
  rewrite stable_sort_length, length_map. reflexivity.
Qed.

Lemma top_similar_breeds_length (db : Store) (target_breed : string) :
  length (_top_similar_breeds_via_sql db target_breed)
  = Nat.min 3 (length (candidate_rows db target_breed)).
Proof.
  unfold _top_similar_breeds_via_sql, order_by_similarity_desc.
  rewrite length_map, length_firstn, stable_sort_length. reflexivity.
Qed.

(** Adjusted scores that are equal keep the order of the engine's ranking. *)
Lemma apply_species_penalty_stable (target_species : string) (sims : list Sim)
    (q : Q) :
  List.filter (fun t => Qeq_bool (score_of t) q)
    (_apply_species_penalty target_species sims)
  = List.filter (fun t => Qeq_bool (score_of t) q)
      (map (penalized target_species) sims).
Proof.
  rewrite apply_species_penalty_unfold. unfold sort_by_score_desc.
  apply stable_sort_filter. intros a b Ha Hb.
  apply Qeq_bool_iff in Ha, Hb. apply Qle_bool_iff. rewrite Ha, Hb.
  apply Qle_refl.
Qed.

Lemma filter_map_comm {A B} (p : B -> bool) (f : A -> B) (l : list A) :
  List.filter p (map f l) = map f (List.filter (fun x => p (f x)) l).
Proof.
  induction l as [| x l IH]; simpl; [reflexivity |].
  destruct (p (f x)); simpl; rewrite IH; reflexivity.
Qed.

(** C3, as stated, fails: analysing "Beagle" in [tie_store] returns
    "Siamese" before "Pug" at the same adjusted score 0.5. *)
Lemma similar_breeds_name_tie_break_fails :
  ~ (forall gcm ext db breed_name resp,
       run_risk_analysis gcm ext db breed_name = Ok resp ->
       Sorted (precedes ranks_before) (similar_breeds resp)
       /\ (length (similar_breeds resp) <= 3)%nat).
Proof.
  intros Claim.
  destruct (Claim no_suggestions offline tie_store "Beagle" _ tie_store_run)
    as [S _].
  simpl in S. apply Sorted_inv in S. destruct S as [_ H].
  apply HdRel_inv in H. vm_compute in H. discriminate H.
Qed.

(** C3, amended. For every risk-analysis run the similar-breeds list of the
    response is in descending order of adjusted score and has [min 3 k]
    entries, [k] being the number of candidate rows of the target; entries
    whose adjusted scores are equal keep the order in which the similarity
    query ranked them. *)
Theorem similar_breeds_ranked gcm (ext : External) (db : Store)
    (breed_name : string) (resp : RiskAnalysisResponseSchema) :
  run_risk_analysis gcm ext db breed_name = Ok resp ->
  Sorted (precedes score_desc) (similar_breeds resp)
  /\ (length (similar_breeds resp) <= 3)%nat
  /\ exists target,
       query_breed_first db breed_name = Some target
       /\ length (similar_breeds resp)
          = Nat.min 3 (length (candidate_rows db (Breed.name target)))
       /\ forall q,
            List.filter (fun sb => Qeq_bool (sb_similarity sb) q)
              (similar_breeds resp)
            = List.filter (fun sb => Qeq_bool (sb_similarity sb) q)
                (map similar_breed_schema
                   (map (penalized (Breed.species target))
                      (_top_similar_breeds_via_sql db (Breed.name target)))).
Proof.
  intros Run. apply run_risk_analysis_Ok in Run.
  destruct Run as (target & Q & _ & ->).
  assert (L : length (map similar_breed_schema
                (_apply_species_penalty (Breed.species target)
                   (_top_similar_breeds_via_sql db (Breed.name target))))
              = Nat.min 3 (length (candidate_rows db (Breed.name target)))).
  { rewrite length_map, apply_species_penalty_length.
    apply top_similar_breeds_length. }
  split; [| split].
  - eapply Sorted_map with (P := fun _ => True).
    + intros x y _ _ H. unfold precedes, score_desc. simpl.
      apply Qle_bool_iff. exact H.
    + apply Forall_True.
    + apply apply_species_penalty_Sorted.
  - rewrite L. apply Nat.le_min_l.
  - exists target. split; [exact Q |]. split; [exact L |].
    intros q. rewrite !(filter_map_comm _ similar_breed_schema). f_equal.
    apply (apply_species_penalty_stable (Breed.species target) _ q).
Qed.

Lemma similar_breeds_ranked_witness :
  Sorted (precedes score_desc)
    [mkSimilarBreed "Siamese" "cat" (5000 # 10000);
     mkSimilarBreed "Pug" "dog" (5000 # 10000)].
Proof.
  exact (proj1 (similar_breeds_ranked no_suggestions offline tie_store "Beagle"
                  _ tie_store_run)).
Defined.

(** ** Truncating before or after the adjustment *)

Example penalty_store_run :
  run_risk_analysis no_suggestions offline penalty_store "Beagle"
  = Ok (mkRiskAnalysis "Beagle"
          [mkSimilarBreed "Persian" "cat" (9000 # 10000);
           mkSimilarBreed "Ragdoll" "cat" (6500 # 10000);
           mkSimilarBreed "Siamese" "cat" (5667 # 10000)]
          ["Allergy"; "Bloat"; "Cataract"]
          (_fallback_plan "Beagle"
             [("Allergy", 1 # 2); ("Bloat", 1 # 2); ("Cataract", 1 # 2)]%Q)).
Proof. vm_compute. reflexivity. Qed.

Example penalty_store_adjust_then_truncate :
  adjust_then_truncate penalty_store (Breed.mk 1 "Beagle" "dog")
  = [mkSimilarBreed "Persian" "cat" (9000 # 10000);
     mkSimilarBreed "Ragdoll" "cat" (6500 # 10000);
     mkSimilarBreed "Pug" "dog" (6000 # 10000)].
Proof. vm_compute. reflexivity. Qed.

(** C5, as stated, fails: for "Beagle" in [penalty_store] the response
    ends with the cat "Siamese" (0.5667), while adjusting all four
    candidates before truncating ends with the dog "Pug" (0.6). *)
Lemma truncate_before_adjust_differs :
  ~ (forall gcm ext db breed_name resp target,
       query_breed_first db breed_name = Some target ->
       run_risk_analysis gcm ext db breed_name = Ok resp ->
       similar_breeds resp = adjust_then_truncate db target).
Proof.
  intros Claim.
  pose proof (Claim no_suggestions offline penalty_store "Beagle" _
                (Breed.mk 1 "Beagle" "dog") eq_refl penalty_store_run) as E.
  rewrite penalty_store_adjust_then_truncate in E. simpl in E.
  discriminate E.
Qed.

Lemma similarity_sql_nonneg (db : Store) (b1 b2 : Breed.t) (q : Q) :
  similarity_sql db b1 b2 = Some q -> (0 <= q)%Q.
Proof.
  unfold similarity_sql, sql_div, count_joined, count_distinct_diseases.
  set (n := length (joined_links _ _ _)). set (d := length _).
  destruct (Z.eqb_spec (Z.of_nat d) 0) as [| N]; [discriminate |].
  intros [= <-]. apply Qle_shift_div_l.
  - change 0%Q with (inject_Z 0). rewrite <- Zlt_Qlt. lia.
  - rewrite Qmult_0_l. change 0%Q with (inject_Z 0). rewrite <- Zle_Qle. lia.
Qed.

Lemma Sorted_firstn {A} (R : A -> A -> Prop) (n : nat) (l : list A) :
  Sorted R l -> Sorted R (firstn n l).
Proof.
  intros S. revert n. induction S as [| x l S IH H]; intros [| n]; simpl;
    try constructor.
  - apply IH.
  - destruct H as [| y l H]; destruct n; simpl; constructor. exact H.
Qed.

Lemma penalized_plain (species : string) (x y : Row) :
  plain_row species x -> plain_row species y ->
  precedes
    (fun r1 r2 => sql_float_leb (row_similarity r2) (row_similarity r1)) x y ->
  precedes (fun a b => Qle_bool (score_of b) (score_of a))
    (penalized species (row_to_tuple x)) (penalized species (row_to_tuple y)).
Proof.
  unfold precedes, plain_row, penalized, row_to_tuple, score_of.
  intros [Sx Px] [Sy Py] H. simpl.
  rewrite Sx, Sy, String.eqb_refl. simpl.
  apply Qle_bool_iff, round_mono, float64_mono.
  destruct (row_similarity x) as [qx |], (row_similarity y) as [qy |];
    simpl in H.
  - apply Qle_bool_iff, H.
  - apply Px. reflexivity.
  - discriminate H.
  - apply Qle_refl.
Qed.

(** On rows of the target's species that are already ranked, the adjuster
    only rounds: its sort leaves the order alone. *)
Lemma apply_species_penalty_plain (species : string) (rows : list Row) :
  Forall (plain_row species) rows ->
  Sorted
    (precedes
       (fun r1 r2 => sql_float_leb (row_similarity r2) (row_similarity r1)))
    rows ->
  _apply_species_penalty species (map row_to_tuple rows)
  = map (penalized species) (map row_to_tuple rows).
Proof.
  intros P S. rewrite apply_species_penalty_unfold. unfold sort_by_score_desc.
  apply stable_sort_id. rewrite map_map.
  eapply Sorted_map; [| exact P | exact S].
  intros x y Hx Hy H. apply penalized_plain; assumption.
Qed.

Lemma sql_float_leb_total (x y : sql_float) :
  sql_float_leb x y = true \/ sql_float_leb y x = true.
Proof.
  destruct x as [p |], y as [q |]; simpl; auto. apply Qle_bool_total.
Qed.

(** C5, amended. The response's similar-breeds list, obtained by keeping the
    three best raw scores and then adjusting, equals the list obtained by
    adjusting every candidate and keeping three at the end, provided the
    target has at most three candidates or no candidate's species differs
    from the target's. *)
Theorem truncate_before_adjust_agrees gcm (ext : External) (db : Store)
    (breed_name : string) (resp : RiskAnalysisResponseSchema)
    (target : Breed.t) :
  query_breed_first db breed_name = Some target ->
  run_risk_analysis gcm ext db breed_name = Ok resp ->
  (length (candidate_rows db (Breed.name target)) <= 3)%nat
  \/ Forall (fun r => row_species r = Breed.species target)
       (candidate_rows db (Breed.name target)) ->
  similar_breeds resp = adjust_then_truncate db target.
Proof.
  intros Q Run Side. apply run_risk_analysis_Ok in Run.
  destruct Run as (target' & Q' & _ & ->).
  assert (target' = target) by congruence. subst target'.
  unfold adjust_then_truncate, all_similar_breeds, _top_similar_breeds_via_sql.
  f_equal.
  set (S := order_by_similarity_desc (candidate_rows db (Breed.name target))).
  assert (LS : length S = length (candidate_rows db (Breed.name target)))
    by apply stable_sort_length.
  destruct Side as [Few | Same].
  - rewrite (firstn_all2 (n := 3) S) by lia.
    rewrite firstn_all2; [reflexivity |].
    rewrite apply_species_penalty_length, length_map. lia.
  - assert (SS : Sorted
        (precedes
           (fun r1 r2 => sql_float_leb (row_similarity r2) (row_similarity r1)))
        S).
    { apply stable_sort_Sorted. intros x y. apply sql_float_leb_total. }
    assert (PS : Forall (plain_row (Breed.species target)) S).
    { apply List.Forall_forall. intros r Hr. apply stable_sort_In in Hr.
      split.
      - rewrite List.Forall_forall in Same. apply Same, Hr.
      - intros q Hq. apply candidate_rows_In in Hr.
        destruct Hr as (b1 & b2 & _ & _ & _ & _ & ->). simpl in Hq.
        eapply similarity_sql_nonneg, Hq. }
    rewrite (apply_species_penalty_plain _ S PS SS).
    rewrite apply_species_penalty_plain.
    + rewrite !firstn_map. reflexivity.
    + apply List.Forall_forall. intros r Hr. apply In_firstn in Hr.
      rewrite List.Forall_forall in PS. apply PS, Hr.
    + apply Sorted_firstn, SS.
Qed.

(** ** The shared-disease aggregator *)

Lemma disease_map_fold_lookup (l : list Disease.t) (m0 : gmap Z string)
    (i : Z) (n : string) :
  NoDup (map Disease.id l) ->
  fold_left (fun m d => <[Disease.id d := Disease.name d]> m) l m0 !! i = Some n
  <-> (exists d, In d l /\ Disease.id d = i /\ Disease.name d = n)
      \/ (~ In i (map Disease.id l) /\ m0 !! i = Some n).
Proof.
  revert m0. induction l as [| d l IH]; intros m0 N; simpl.
  - split; [intros H; right; tauto | intros [(d & [] & _) | [_ H]]; exact H].
  - apply NoDup_cons in N. destruct N as [Nd N].
    rewrite (IH _ N). clear IH. split.
    + intros [(d' & Hd' & E) | [Ni H]].
      * left. exists d'. tauto.
      * destruct (decide (Disease.id d = i)) as [E | NE].
        -- rewrite E, lookup_insert_eq in H. injection H as H.
           left. exists d. tauto.
        -- rewrite lookup_insert_ne in H by exact NE. right. tauto.
    + intros [(d' & [-> | Hd'] & Ei & En) | [Ni H]].
      * right. split.
        -- intros Hin. apply Nd. apply list_elem_of_In. rewrite Ei. exact Hin.
        -- rewrite Ei, lookup_insert_eq, En. reflexivity.
      * left. exists d'. tauto.
      * right. split; [tauto |].
        rewrite lookup_insert_ne by tauto. exact H.
Qed.

Lemma disease_map_lookup (db : Store) (i : Z) (n : string) :
  NoDup (map Disease.id (diseases db)) ->
  disease_map db !! i = Some n
  <-> exists d, In d (diseases db) /\ Disease.id d = i /\ Disease.name d = n.
Proof.
  intros N. unfold disease_map. rewrite (disease_map_fold_lookup _ _ _ _ N).
  rewrite lookup_empty. split; [intros [H | [_ H]] | intros H].
  - exact H.
  - discriminate H.
  - left. exact H.
Qed.

Lemma shared_ids_fold (db : Store) (target_set : gset Z)
    (names : list string) (acc : gset Z) (d : Z) :
  d ∈ fold_left
        (fun shared bname =>
           match query_breed_first db bname with
           | None => shared
           | Some b => shared ∪ (their_ids db (Breed.id b) ∩ target_set)
           end)
        names acc
  <-> d ∈ acc
      \/ (d ∈ target_set
          /\ exists bname b, In bname names
               /\ query_breed_first db bname = Some b
               /\ d ∈ their_ids db (Breed.id b)).
Proof.
  revert acc. induction names as [| bname names IH]; intros acc; simpl.
  - split; [tauto | intros [H | (_ & _ & _ & [] & _)]; exact H].
  - rewrite IH. clear IH.
    destruct (query_breed_first db bname) as [b |] eqn:Q.
    + rewrite elem_of_union, elem_of_intersection. split.
      * intros [[H | [H1 H2]] | (Ht & bn & b' & Hin & Hq & Hd)].
        -- tauto.
        -- right. split; [exact H2 |]. exists bname, b. tauto.
        -- right. split; [exact Ht |]. exists bn, b'. tauto.
      * intros [H | (Ht & bn & b' & [<- | Hin] & Hq & Hd)].
        -- tauto.
        -- left. right. rewrite Q in Hq. injection Hq as <-. tauto.
        -- right. split; [exact Ht |]. exists bn, b'. tauto.
    + split.
      * intros [H | (Ht & bn & b' & Hin & Hq & Hd)]; [tauto |].
        right. split; [exact Ht |]. exists bn, b'. tauto.
      * intros [H | (Ht & bn & b' & [<- | Hin] & Hq & Hd)]; [tauto | congruence |].
        right. split; [exact Ht |]. exists bn, b'. tauto.
Qed.

Lemma elem_of_shared_ids (db : Store) (target_set : gset Z)
    (names : list string) (d : Z) :
  d ∈ shared_ids db target_set names
  <-> d ∈ target_set
      /\ exists bname b, In bname names
           /\ query_breed_first db bname = Some b
           /\ d ∈ their_ids db (Breed.id b).
Proof.
  unfold shared_ids. rewrite shared_ids_fold. split; [| tauto].
  intros [H | H]; [| exact H]. exfalso. exact (not_elem_of_empty _ H).
Qed.

(** A name that resolves to no breed contributes nothing. *)
Lemma shared_ids_skip (db : Store) (target_set : gset Z)
    (l1 l2 : list string) (bname : string) :
  query_breed_first db bname = None ->
  shared_ids db target_set (l1 ++ bname :: l2)
  = shared_ids db target_set (l1 ++ l2).
Proof.
  intros Q. unfold shared_ids. rewrite !fold_left_app. simpl. rewrite Q.
  reflexivity.
Qed.

Lemma lookup_names_Ok (m : gmap Z string) (ids : list Z) :
  (forall i, In i ids -> is_Some (m !! i)) ->
  exists ns, lookup_names m ids = Ok ns
             /\ Forall2 (fun i n => m !! i = Some n) ids ns.
Proof.
  induction ids as [| i ids IH]; intros H; simpl.
  - exists []. split; [reflexivity | constructor].
  - destruct (H i (or_introl eq_refl)) as [n Hn]. rewrite Hn.
    destruct IH as (ns & -> & F); [intros j Hj; apply H; right; exact Hj |].
    exists (n :: ns). split; [reflexivity | constructor; assumption].
Qed.

Lemma Forall2_In_r {A B} (R : A -> B -> Prop) (l : list A) (k : list B) (b : B) :
  Forall2 R l k -> In b k -> exists a, In a l /\ R a b.
Proof.
  induction 1 as [| a b' l k Rab F IH]; simpl; [tauto |].
  intros [<- | H].
  - exists a. tauto.
  - destruct (IH H) as (a' & Ha' & Ra'). exists a'. tauto.
Qed.

Lemma Forall2_NoDup {A B} (R : A -> B -> Prop) (l : list A) (k : list B) :
  (forall a a' b, In a l -> In a' l -> R a b -> R a' b -> a = a') ->
  Forall2 R l k -> NoDup l -> NoDup k.
Proof.
  intros Inj F. induction F as [| a b l k Rab F IH]; intros N.
  - constructor.
  - apply NoDup_cons in N. destruct N as [Na N]. apply NoDup_cons. split.
    + intros Hb. apply list_elem_of_In in Hb.
      destruct (Forall2_In_r _ _ _ _ F Hb) as (a' & Ha' & Ra'b).
      apply Na. apply list_elem_of_In.
      rewrite (Inj a a' b); [exact Ha' | left; reflexivity | right; exact Ha'
                            | exact Rab | exact Ra'b].
    + apply IH; [| exact N].
      intros x y z Hx Hy. apply Inj; right; assumption.
Qed.

Lemma shared_ids_in_disease_map (db : Store) (target_set : gset Z)
    (names : list string) (i : Z) :
  store_ok db ->
  i ∈ shared_ids db target_set names ->
  i ∈ target_set /\ is_Some (disease_map db !! i).
Proof.
  intros OK Hi. apply elem_of_shared_ids in Hi.
  destruct Hi as (Ht & bname & b & _ & _ & Hd). split; [exact Ht |].
  unfold their_ids in Hd.
  rewrite elem_of_list_to_set, list_elem_of_In, in_map_iff in Hd.
  destruct Hd as (l & <- & Hl). apply filter_In in Hl. destruct Hl as [Hl _].
  pose proof (link_disease_fk db OK l Hl) as FK. apply in_map_iff in FK.
  destruct FK as (d & E & Hd). exists (Disease.name d).
  apply disease_map_lookup; [apply (disease_pk db OK) |]. exists d. tauto.
Qed.

Lemma disease_map_inj (db : Store) (i j : Z) (n : string) :
  store_ok db ->
  disease_map db !! i = Some n -> disease_map db !! j = Some n -> i = j.
Proof.
  intros OK Hi Hj.
  apply disease_map_lookup in Hi, Hj; try apply (disease_pk db OK).
  destruct Hi as (d & Hd & <- & En), Hj as (d' & Hd' & <- & En').
  f_equal. eapply NoDup_map_inj_on;
    [apply (disease_name_unique db OK) | assumption.. | congruence].
Qed.

(** C6. On a store that satisfies its table constraints, for every list of
    target disease ids and every list of breed names the aggregator returns
    (it does not raise) a list of disease names that is lexically sorted,
    has no duplicates, and consists of names of the target's diseases; a
    name that resolves to no breed can be dropped from the input without
    changing the result. *)
Theorem shared_diseases_sorted_unique_subset (db : Store)
    (target_disease_ids : list Z) (top_breed_names : list string) :
  store_ok db ->
  exists out,
    _shared_diseases_with_top_breeds db target_disease_ids top_breed_names
    = Ok out
    /\ lexically_sorted out
    /\ NoDup out
    /\ (forall n, In n out ->
          exists did, In did target_disease_ids
                      /\ disease_map db !! did = Some n)
    /\ (forall l1 bname l2,
          top_breed_names = l1 ++ bname :: l2 ->
          query_breed_first db bname = None ->
          _shared_diseases_with_top_breeds db target_disease_ids (l1 ++ l2)
          = Ok out).
Proof.
  intros OK.
  set (target_set := list_to_set target_disease_ids : gset Z).
  set (shared := shared_ids db target_set top_breed_names).
  destruct (lookup_names_Ok (disease_map db) (elements shared)) as (ns & L & F).
  { intros i Hi. apply list_elem_of_In, elem_of_elements in Hi.
    apply (shared_ids_in_disease_map db target_set top_breed_names i OK Hi). }
  assert (Full : forall names,
             shared_ids db target_set names = shared ->
             _shared_diseases_with_top_breeds db target_disease_ids names
             = Ok (sorted ns)).
  { intros names E. unfold _shared_diseases_with_top_breeds.
    destruct names as [| bname names].
    - unfold shared_ids in E. simpl in E. rewrite <- E in L, F.
      rewrite elements_empty in L. simpl in L. injection L as <-. reflexivity.
    - fold target_set. rewrite E, L. reflexivity. }
  exists (sorted ns). split; [apply Full; reflexivity |].
  split; [| split; [| split]].
  - apply stable_sort_Sorted, String.leb_total.
  - unfold sorted. rewrite stable_sort_perm.
    eapply Forall2_NoDup; [| exact F | apply NoDup_elements].
    intros i j n _ _. apply disease_map_inj, OK.
  - intros n Hn. apply stable_sort_In in Hn.
    destruct (Forall2_In_r _ _ _ _ F Hn) as (i & Hi & Hm).
    exists i. split; [| exact Hm].
    apply list_elem_of_In, elem_of_elements in Hi.
    apply (shared_ids_in_disease_map db target_set top_breed_names i OK) in Hi.
    destruct Hi as [Hi _]. apply elem_of_list_to_set in Hi.
    apply list_elem_of_In, Hi.
  - intros l1 bname l2 -> Q. apply Full. symmetry.
    apply shared_ids_skip, Q.
Qed.

Lemma seed_store_ok : store_ok seed_store.
Proof.
  split; try (apply (bool_decide_unpack _); vm_compute; exact I);
    intros l Hl; simpl in Hl;
    repeat (destruct Hl as [<- | Hl];
            [apply list_elem_of_In, (bool_decide_unpack _); vm_compute; exact I |]);
    destruct Hl.
Defined.

Lemma shared_diseases_sorted_unique_subset_witness :
  exists out,
    _shared_diseases_with_top_breeds seed_store [1; 4]
      ["Golden Retriever"; "Labradoodle"; "German Shepherd"]
    = Ok out
    /\ lexically_sorted out
    /\ NoDup out
    /\ (forall n, In n out ->
          exists did, In did [1; 4] /\ disease_map seed_store !! did = Some n)
    /\ (forall l1 bname l2,
          ["Golden Retriever"; "Labradoodle"; "German Shepherd"]
          = l1 ++ bname :: l2 ->
          query_breed_first seed_store bname = None ->
          _shared_diseases_with_top_breeds seed_store [1; 4] (l1 ++ l2)
          = Ok out).
Proof.
  exact (shared_diseases_sorted_unique_subset seed_store [1; 4]
           ["Golden Retriever"; "Labradoodle"; "German Shepherd"]
           seed_store_ok).
Defined.

Example seed_shared_diseases :
  _shared_diseases_with_top_breeds seed_store [1; 4]
    ["Golden Retriever"; "Labradoodle"; "German Shepherd"]
  = Ok ["Arthritis"; "Hip Dysplasia"].
Proof. vm_compute. reflexivity. Qed.

(** ** The care-plan generator *)

Lemma string_length_append (s t : string) :
  String.length (s +:+ t) = (String.length s + String.length t)%nat.
Proof. induction s as [| c s IH]; simpl; [reflexivity | rewrite IH; reflexivity]. Qed.

Lemma string_get_append (s t : string) :
  String.get (String.length s) (s +:+ t) = String.get 0 t.
Proof.
  rewrite (append_correct2 s t 0). reflexivity.
Qed.

(** C7, as stated, fails on the form of the lines: the fallback text for
    "Pug" with the single disease "Bloat" is not a header followed by the
    line "Bloat: monitor, vet checkups, lifestyle adjustments."; the line
    starts with "- ". *)
Lemma fallback_line_is_not_bare :
  ~ (forall ext breed_name diseases,
       _openai_client ext = false ->
       exists header,
         _generate_care_plan ext breed_name diseases
         = Ok (join newline (header :: map spec_line diseases))).
Proof.
  intros Claim.
  destruct (Claim offline "Pug" [("Bloat", 1 # 2)%Q] eq_refl) as [header E].
  injection E as E.
  pose proof (f_equal String.length E) as L.
  simpl join in E, L. rewrite string_length_append in L.
  pose proof (string_get_append header
                (newline +:+ spec_line ("Bloat", 1 # 2)%Q)) as G.
  rewrite <- E in G.
  assert (Total : String.length (_fallback_plan "Pug" [("Bloat", 1 # 2)%Q])
                  = (31 + String.length
                            (newline +:+ spec_line ("Bloat", 1 # 2)%Q))%nat)
    by reflexivity.
  assert (Len : String.length header = 31%nat) by lia.
  rewrite Len in G. vm_compute in G. discriminate G.
Qed.

Lemma string_append_assoc (s t u : string) : (s +:+ t) +:+ u = s +:+ t +:+ u.
Proof.
  induction s as [| c s IH]; [reflexivity |].
  change (String c ((s +:+ t) +:+ u) = String c (s +:+ t +:+ u)).
  f_equal. exact IH.
Qed.

Lemma string_append_nil_r (s : string) : s +:+ "" = s.
Proof.
  induction s as [| c s IH]; [reflexivity |].
  change (String c (s +:+ "") = String c s). f_equal. exact IH.
Qed.

Lemma join_bullets (d : string * Q) (diseases : list (string * Q)) :
  join newline (map bullet (d :: diseases))
  = bullet d
    +:+ fold_right String.append ""
          (map (fun d => newline +:+ bullet d) diseases).
Proof.
  revert d. induction diseases as [| d' ds IH]; intros d.
  - simpl. symmetry. apply string_append_nil_r.
  - change (join newline (map bullet (d :: d' :: ds)))
      with (bullet d +:+ newline +:+ join newline (map bullet (d' :: ds))).
    rewrite IH. simpl. rewrite string_append_assoc. reflexivity.
Qed.

(** The fallback text, character by character: the header, and then either
    a bare line break (no disease) or, for each disease in the order given,
    a line break and the line of the disease. *)
Lemma fallback_plan_format (breed_name : string) (diseases : list (string * Q)) :
  _fallback_plan breed_name diseases
  = ("Preventive care plan for " +:+ breed_name +:+ ":")
    +:+ match diseases with
        | [] => newline
        | _ :: _ =>
            fold_right String.append ""
              (map (fun d =>
                      newline +:+ "- " +:+ fst d
                      +:+ ": monitor, vet checkups, lifestyle adjustments.")
                   diseases)
        end.
Proof.
  unfold _fallback_plan.
  rewrite !string_append_assoc.
  change ("Preventive care plan for " +:+ breed_name +:+ ":" +:+ newline
          +:+ join newline (map bullet diseases))
    with ("Preventive care plan for " +:+ breed_name +:+ ":" +:+
          (newline +:+ join newline (map bullet diseases))).
  do 3 f_equal. destruct diseases as [| d ds]; [reflexivity |].
  rewrite join_bullets. simpl. rewrite string_append_assoc. reflexivity.
Qed.

(** The fallback text does not depend on the prevalences. *)
Lemma fallback_plan_names (breed_name : string)
    (diseases diseases' : list (string * Q)) :
  map fst diseases = map fst diseases' ->
  _fallback_plan breed_name diseases = _fallback_plan breed_name diseases'.
Proof.
  intros E. unfold _fallback_plan. do 2 f_equal.
  revert diseases' E. induction diseases as [| d ds IH]; intros [| d' ds'] E;
    try discriminate E; [reflexivity |].
  simpl in E. injection E as E1 E2. simpl. unfold bullet at 1 3.
  rewrite E1, (IH _ E2). reflexivity.
Qed.

(** C7, amended. The generator never raises; when the client is missing,
    the credential is missing or empty, or the call to the service raises,
    its result is the fallback text, which is a function of the breed name
    and the ordered disease names alone: the header "Preventive care plan
    for <breed>:" and then, for each disease in the order supplied, a new
    line "- <disease name>: monitor, vet checkups, lifestyle adjustments."
    (a bare line break when no disease is supplied). *)
Theorem generate_care_plan_falls_back (ext : External) (breed_name : string)
    (diseases_with_prev : list (string * Q)) :
  exists text,
    _generate_care_plan ext breed_name diseases_with_prev = Ok text
    /\ (_openai_client ext = false
        \/ getenv_truthy (OPENAI_API_KEY ext) = false
        \/ chat_completion ext breed_name diseases_with_prev = None ->
        text
        = ("Preventive care plan for " +:+ breed_name +:+ ":")
          +:+ match diseases_with_prev with
              | [] => newline
              | _ :: _ =>
                  fold_right String.append ""
                    (map (fun d =>
                            newline +:+ "- " +:+ fst d
                            +:+ ": monitor, vet checkups, lifestyle adjustments.")
                       diseases_with_prev)
              end).
Proof.
  unfold _generate_care_plan.
  destruct (_openai_client ext) eqn:C; simpl.
  - destruct (getenv_truthy (OPENAI_API_KEY ext)) eqn:K; simpl.
    + destruct (chat_completion ext breed_name diseases_with_prev) as [t |] eqn:P.
      * exists t. split; [reflexivity |].
        intros [H | [H | H]]; discriminate H.
      * eexists. split; [reflexivity |]. intros _. apply fallback_plan_format.
    + eexists. split; [reflexivity |]. intros _. apply fallback_plan_format.
  - eexists. split; [reflexivity |]. intros _. apply fallback_plan_format.
Qed.

Lemma generate_care_plan_falls_back_witness :
  _generate_care_plan failing_service "Pug" [("Bloat", 1 # 2); ("Otitis", 1 # 5)]%Q
  = Ok ("Preventive care plan for Pug:" +:+ newline
        +:+ "- Bloat: monitor, vet checkups, lifestyle adjustments." +:+ newline
        +:+ "- Otitis: monitor, vet checkups, lifestyle adjustments.").
Proof.
  destruct (generate_care_plan_falls_back failing_service "Pug"
              [("Bloat", 1 # 2); ("Otitis", 1 # 5)]%Q) as (text & E & F).
  rewrite E. f_equal. rewrite F; [reflexivity |]. right. right. reflexivity.
Defined.

(** ** Unknown breed names *)


(** ** Breed registration *)

Lemma validate_rejects (body : BreedCreateSchema.t) :
  (exists d, In d (BreedCreateSchema.diseases body)
             /\ ~ (0 <= DiseaseCreateSchema.prevalence d <= 1)%Q) ->
  BreedCreateSchema.validate body = Raise (RequestValidationError "prevalence").
Proof.
  intros (d & Hd & Bad). unfold BreedCreateSchema.validate.
  destruct (forallb _ _) eqn:F; [exfalso | reflexivity].
  rewrite forallb_forall in F. specialize (F d Hd).
  unfold DiseaseCreateSchema.valid in F. apply andb_true_iff in F.
  rewrite !Qle_bool_iff in F. exact (Bad F).
Qed.

(** C9. A [POST /breeds] request that lists a disease whose prevalence is
    outside [0,1] is answered with the validation error, status 422, a
    4xx status, and leaves the store as it was: no breed, disease or link
    row is written, also for the diseases listed before the invalid one. *)
Theorem invalid_prevalence_rejected (db : Store) (body : BreedCreateSchema.t) :
  (exists d, In d (BreedCreateSchema.diseases body)
             /\ ~ (0 <= DiseaseCreateSchema.prevalence d <= 1)%Q) ->
  exists detail,
    post_breeds db body
    = (mkResponse 422 (Raise (RequestValidationError detail)), db)
    /\ 400 <= status (fst (post_breeds db body)) < 500
    /\ snd (post_breeds db body) = db.
Proof.
  intros Bad. exists "prevalence". unfold post_breeds.
  rewrite (validate_rejects body Bad). simpl.
  unfold HTTP_422_UNPROCESSABLE_ENTITY. repeat split; lia.
Qed.

(** C10. When the species is allowed and the name is already that of a
    breed, [create_breed] raises "Breed already exists." (400) and leaves
    the session exactly as it found it: nothing was added, nothing was
    committed; the store after the [POST /breeds] request is the store
    before it, whatever diseases the request lists. *)
Theorem duplicate_breed_rejected (s : Session)
    (breed_data : BreedCreateSchema.t) (existing : Breed.t) :
  species_allowed (BreedCreateSchema.species breed_data) = true ->
  query_breed_first (committed s) (BreedCreateSchema.name breed_data)
  = Some existing ->
  create_breed breed_data s
  = (Raise (HTTPException 400 "Breed already exists."), s)
  /\ snd (post_breeds (committed s) breed_data) = committed s
  /\ 400 <= status (fst (post_breeds (committed s) breed_data)) < 500.
Proof.
  intros Sp Q.
  assert (C : forall s', query_breed_first (committed s')
                           (BreedCreateSchema.name breed_data) = Some existing ->
              create_breed breed_data s'
              = (Raise (HTTPException 400 "Breed already exists."), s')).
  { intros s' Q'. unfold create_breed. rewrite Sp. simpl.
    unfold bindM, get_breed_by_name. rewrite Q'. reflexivity. }
  split; [apply C, Q |].
  unfold post_breeds, BreedCreateSchema.validate.
  destruct (forallb _ _); simpl.
  - rewrite (C (mkSession (committed s) []) Q). simpl.
    unfold HTTP_400_BAD_REQUEST. split; [reflexivity | lia].
  - unfold HTTP_422_UNPROCESSABLE_ENTITY. split; [reflexivity | lia].
Qed.

(** The examples of the documentation of [difflib]. *)
Example difflib_ratio_doc :
  difflib.ratio (list_ascii_of_string "abcd") (list_ascii_of_string "bcde")
  = (2 * 3 / 8)%Q
  /\ difflib.quick_ratio (list_ascii_of_string "abcd")
       (list_ascii_of_string "bcde") = (2 * 3 / 8)%Q
  /\ difflib.real_quick_ratio (list_ascii_of_string "abcd")
       (list_ascii_of_string "bcde") = (2 * 4 / 8)%Q.
Proof. vm_compute. auto. Qed.

Example difflib_longest_match_doc :
  difflib.find_longest_match (list_ascii_of_string " abcd")
    (list_ascii_of_string "abcd abcd") 0 5 0 9
  = difflib.mkMatch 0 4 5.
Proof. vm_compute. reflexivity. Qed.

Example difflib_close_matches_doc :
  difflib.get_close_matches "appel" ["ape"; "apple"; "peach"; "puppy"] 3
  = ["apple"; "ape"].
Proof. vm_compute. reflexivity. Qed.

(** ** The theorems at work on the sample data *)

Example labrador_analysis :
  run_risk_analysis difflib.get_close_matches offline seed_store
    "Labrador Retriever"
  = Ok (mkRiskAnalysis "Labrador Retriever"
          [mkSimilarBreed "Golden Retriever" "dog" (10000 # 10000);
           mkSimilarBreed "German Shepherd" "dog" (3333 # 10000);
           mkSimilarBreed "British Shorthair" "cat" (2333 # 10000)]
          ["Arthritis"; "Hip Dysplasia"]
          (_fallback_plan "Labrador Retriever"
             [("Hip Dysplasia", 8 # 10); ("Arthritis", 4 # 10)]%Q)).
Proof. vm_compute. reflexivity. Qed.

Example labrador_dogs_analysis :
  run_risk_analysis difflib.get_close_matches offline seed_dogs_store
    "Labrador Retriever"
  = Ok (mkRiskAnalysis "Labrador Retriever"
          [mkSimilarBreed "Golden Retriever" "dog" (10000 # 10000);
           mkSimilarBreed "German Shepherd" "dog" (3333 # 10000);
           mkSimilarBreed "Bulldog" "dog" (0 # 10000)]
          ["Arthritis"; "Hip Dysplasia"]
          (_fallback_plan "Labrador Retriever"
             [("Hip Dysplasia", 8 # 10); ("Arthritis", 4 # 10)]%Q)).
Proof. vm_compute. reflexivity. Qed.

Lemma truncate_before_adjust_agrees_witness :
  [mkSimilarBreed "Golden Retriever" "dog" (10000 # 10000);
   mkSimilarBreed "German Shepherd" "dog" (3333 # 10000);
   mkSimilarBreed "Bulldog" "dog" (0 # 10000)]
  = adjust_then_truncate seed_dogs_store (Breed.mk 1 "Labrador Retriever" "dog").
Proof.
  apply (truncate_before_adjust_agrees difflib.get_close_matches offline
           seed_dogs_store "Labrador Retriever" _ _ eq_refl
           labrador_dogs_analysis).
  right. repeat constructor.
Defined.


Example unknown_breed_without_suggestion :
  run_risk_analysis difflib.get_close_matches offline seed_store "Axolotl"
  = Raise (HTTPException 404 "Breed 'Axolotl' not found.").
Proof. vm_compute. reflexivity. Qed.

Lemma invalid_prevalence_rejected_witness :
  exists detail,
    post_breeds seed_store poodle_request
    = (mkResponse 422 (Raise (RequestValidationError detail)), seed_store)
    /\ 400 <= status (fst (post_breeds seed_store poodle_request)) < 500
    /\ snd (post_breeds seed_store poodle_request) = seed_store.
Proof.
  apply (invalid_prevalence_rejected seed_store poodle_request).
  exists (DiseaseCreateSchema.mk "Bloat" (15 # 10)). split.
  - right. left. reflexivity.
  - simpl. intros [_ H]. apply H. reflexivity.
Defined.

Lemma duplicate_breed_rejected_witness :
  create_breed beagle_request (mkSession seed_store [])
  = (Raise (HTTPException 400 "Breed already exists."), mkSession seed_store [])
  /\ snd (post_breeds seed_store beagle_request) = seed_store
  /\ 400 <= status (fst (post_breeds seed_store beagle_request)) < 500.
Proof.
  exact (duplicate_breed_rejected (mkSession seed_store []) beagle_request
           (Breed.mk 5 "Beagle" "dog") eq_refl eq_refl).
Defined.

(** A registration that succeeds: the breed, the new disease and both links
    are written; the response lists "Diabetes" (disease 2) before the new
    "Epilepsy" (disease 6). *)
Example register_poodle :
  let body :=
    BreedCreateSchema.mk "Poodle" "dog"
      [DiseaseCreateSchema.mk "Epilepsy" (5 # 10);
       DiseaseCreateSchema.mk "Diabetes" (2 # 10)] in
  post_breeds seed_store body
  = (mkResponse 201
       (Ok (mkBreedResponse "Poodle" "dog"
              [mkDiseaseResponse "Diabetes" (2 # 10);
               mkDiseaseResponse "Epilepsy" (5 # 10)])),
     mkStore (seed_breeds ++ [Breed.mk 11 "Poodle" "dog"])
       (seed_diseases ++ [Disease.mk 6 "Epilepsy"])
       (seed_links ++ [BreedDiseaseLink.mk 11 6 (5 # 10);
                       BreedDiseaseLink.mk 11 2 (2 # 10)])).
Proof. vm_compute. reflexivity. Qed.

(** Called directly on a body that did not pass validation, [create_breed]
    has already committed the breed and the disease listed before the
    invalid one when its own prevalence check raises; the validation of
    the request body keeps every request away from this path. *)
Example create_breed_unvalidated_body :
  create_breed poodle_request (mkSession seed_store [])
  = (Raise (HTTPException 400 "Prevalence must be between 0 and 1."),
     mkSession
       (mkStore (seed_breeds ++ [Breed.mk 11 "Poodle" "dog"])
          (seed_diseases ++ [Disease.mk 6 "Epilepsy"]) seed_links)
       [NewLink 11 6 (5 # 10)]).
Proof. vm_compute. reflexivity. Qed.

(** * Further properties of the code *)

(** ** The similarity engine *)

Lemma jaccard_comm (X Y : gset Z) : jaccard X Y = jaccard Y X.
Proof.
  unfold jaccard.
  rewrite (union_comm_L X Y), (intersection_comm_L X Y). reflexivity.
Qed.

(** X1. The raw score is symmetric: the score of [b] as a candidate of [a]
    is the score of [a] as a candidate of [b]. *)
Theorem raw_similarity_symmetric (db : Store) (a b : Breed.t) :
  NoDup (map BreedDiseaseLink.key (breed_disease_links db)) ->
  (raw_similarity db a b == raw_similarity db b a)%Q.
Proof.
  intros U.
  destruct (raw_similarity_jaccard db a b U) as [Eab _].
  destruct (raw_similarity_jaccard db b a U) as [Eba _].
  rewrite Eab, Eba, jaccard_comm. reflexivity.
Qed.

Lemma raw_similarity_symmetric_witness :
  (raw_similarity seed_store (Breed.mk 1 "Labrador Retriever" "dog")
     (Breed.mk 10 "British Shorthair" "cat")
   == raw_similarity seed_store (Breed.mk 10 "British Shorthair" "cat")
        (Breed.mk 1 "Labrador Retriever" "dog"))%Q.
Proof.
  exact (raw_similarity_symmetric seed_store _ _ seed_links_unique).
Defined.

Lemma inject_Z_eq (a b : Z) : (inject_Z a == inject_Z b)%Q -> a = b.
Proof. unfold Qeq. simpl. lia. Qed.

Lemma jaccard_zero (X Y : gset Z) : (jaccard X Y == 0)%Q <-> X ∩ Y = ∅.
Proof.
  unfold jaccard. destruct (decide (X ∪ Y = ∅)) as [E | N].
  - split; [intros _ | reflexivity].
    apply leibniz_equiv. apply leibniz_equiv_iff in E.
    apply empty_union in E. destruct E as [EX _].
    intros d. rewrite elem_of_intersection, EX. split; [tauto |].
    intros H. exfalso. exact (not_elem_of_empty _ H).
  - assert (P : size (X ∪ Y) <> 0%nat)
      by (apply size_non_empty_iff; intros E; apply N, leibniz_equiv, E).
    assert (D : ~ (inject_Z (Z.of_nat (size (X ∪ Y))) == 0)%Q).
    { intros E. change 0%Q with (inject_Z 0) in E. apply inject_Z_eq in E.
      lia. }
    split.
    + intros E.
      assert (E0 : (inject_Z (Z.of_nat (size (X ∩ Y))) == 0)%Q).
      { rewrite <- (Qmult_div_r _ _ D), E. ring. }
      change 0%Q with (inject_Z 0) in E0. apply inject_Z_eq in E0.
      apply leibniz_equiv, size_empty_iff. lia.
    + intros E. rewrite E, size_empty. simpl. unfold Qdiv. ring.
Qed.

Lemma jaccard_one (X Y : gset Z) :
  (jaccard X Y == 1)%Q <-> X = Y /\ X <> ∅.
Proof.
  unfold jaccard. destruct (decide (X ∪ Y = ∅)) as [E | N].
  - split; [discriminate |]. intros [<- NE]. exfalso. apply NE.
    apply leibniz_equiv. intros d. split.
    + intros Hd. rewrite <- E. apply elem_of_union_l, Hd.
    + intros H. exfalso. exact (not_elem_of_empty _ H).
  - assert (P : size (X ∪ Y) <> 0%nat)
      by (apply size_non_empty_iff; intros E; apply N, leibniz_equiv, E).
    assert (D : ~ (inject_Z (Z.of_nat (size (X ∪ Y))) == 0)%Q).
    { intros E. change 0%Q with (inject_Z 0) in E. apply inject_Z_eq in E.
      lia. }
    assert (Sub : X ∩ Y ⊆ X ∪ Y).
    { intros d Hd. apply elem_of_intersection in Hd. apply elem_of_union_l, Hd. }
    split.
    + intros E.
      assert (E1 : (inject_Z (Z.of_nat (size (X ∩ Y)))
                    == inject_Z (Z.of_nat (size (X ∪ Y))))%Q).
      { rewrite <- (Qmult_div_r _ _ D), E. ring. }
      apply inject_Z_eq in E1.
      assert (S : X ∩ Y ≡ X ∪ Y).
      { apply set_subseteq_size_equiv; [exact Sub | lia]. }
      assert (XY : X = Y).
      { apply leibniz_equiv. intros d. split; intros Hd.
        - assert (H : d ∈ X ∪ Y) by (apply elem_of_union_l, Hd).
          apply S, elem_of_intersection in H. tauto.
        - assert (H : d ∈ X ∪ Y) by (apply elem_of_union_r, Hd).
          apply S, elem_of_intersection in H. tauto. }
      split; [exact XY |]. intros EX. apply N. rewrite <- XY, EX.
      apply leibniz_equiv. intros d. rewrite elem_of_union. tauto.
    + intros [<- _].
      assert (U : X ∪ X = X)
        by (apply leibniz_equiv; intros d; rewrite elem_of_union; tauto).
      assert (I : X ∩ X = X)
        by (apply leibniz_equiv; intros d; rewrite elem_of_intersection; tauto).
      rewrite U in D |- *. rewrite I. apply Qmult_inv_r. exact D.
Qed.

(** X2. The raw score is 0 exactly when the two breeds share no disease,
    and 1 exactly when they have the same, non-empty, disease set. *)
Theorem raw_similarity_extremes (db : Store) (a b : Breed.t) :
  NoDup (map BreedDiseaseLink.key (breed_disease_links db)) ->
  ((raw_similarity db a b == 0)%Q
   <-> disease_set db a ∩ disease_set db b = ∅)
  /\ ((raw_similarity db a b == 1)%Q
      <-> disease_set db a = disease_set db b /\ disease_set db a <> ∅).
Proof.
  intros U. destruct (raw_similarity_jaccard db a b U) as [E _].
  split.
  - rewrite E. apply jaccard_zero.
  - rewrite E. apply jaccard_one.
Qed.

Lemma raw_similarity_extremes_witness :
  (raw_similarity seed_store (Breed.mk 1 "Labrador Retriever" "dog")
     (Breed.mk 3 "Golden Retriever" "dog") == 1)%Q
  /\ (raw_similarity seed_store (Breed.mk 1 "Labrador Retriever" "dog")
        (Breed.mk 6 "Persian" "cat") == 0)%Q.
Proof.
  split.
  - apply (proj2 (raw_similarity_extremes seed_store
                    (Breed.mk 1 "Labrador Retriever" "dog")
                    (Breed.mk 3 "Golden Retriever" "dog") seed_links_unique)).
    split; [| intros E; apply (f_equal size) in E]; vm_compute; [reflexivity |].
    vm_compute in E. discriminate E.
  - apply (proj1 (raw_similarity_extremes seed_store
                    (Breed.mk 1 "Labrador Retriever" "dog")
                    (Breed.mk 6 "Persian" "cat") seed_links_unique)).
    vm_compute. reflexivity.
Defined.

Lemma sql_float_leb_trans (x y z : sql_float) :
  sql_float_leb x y = true -> sql_float_leb y z = true ->
  sql_float_leb x z = true.
Proof.
  destruct x as [p |], y as [q |], z as [r |]; simpl; try congruence.
  rewrite !Qle_bool_iff. apply Qle_trans.
Qed.

Lemma StronglySorted_app_cross {A} (R : A -> A -> Prop) (l1 l2 : list A) :
  StronglySorted R (l1 ++ l2) ->
  forall x y, In x l1 -> In y l2 -> R x y.
Proof.
  induction l1 as [| a l1 IH]; simpl; intros S x y Hx Hy; [destruct Hx |].
  apply StronglySorted_inv in S. destruct S as [S F].
  destruct Hx as [<- | Hx].
  - rewrite List.Forall_forall in F. apply F, in_or_app. right. exact Hy.
  - apply (IH S x y Hx Hy).
Qed.

Lemma StronglySorted_app_l {A} (R : A -> A -> Prop) (l1 l2 : list A) :
  StronglySorted R (l1 ++ l2) -> StronglySorted R l1.
Proof.
  induction l1 as [| a l1 IH]; simpl; intros S; [constructor |].
  apply StronglySorted_inv in S. destruct S as [S F].
  constructor; [apply IH, S |].
  rewrite List.Forall_forall in *. intros x Hx. apply F, in_or_app. left.
  exact Hx.
Qed.

Lemma StronglySorted_map {A B} (R : A -> A -> Prop) (R' : B -> B -> Prop)
    (P : A -> Prop) (f : A -> B) (l : list A) :
  (forall x y, P x -> R x y -> R' (f x) (f y)) ->
  Forall P l -> StronglySorted R l -> StronglySorted R' (map f l).
Proof.
  intros Mono HP S. induction S as [| x l S IH F]; simpl; [constructor |].
  apply Forall_cons in HP. destruct HP as [Px HP].
  constructor; [apply IH, HP |].
  rewrite List.Forall_forall in *. intros y Hy. apply in_map_iff in Hy.
  destruct Hy as (z & <- & Hz). apply Mono; [exact Px | apply F, Hz].
Qed.

Lemma row_to_tuple_mono (x y : Row) :
  (forall q, row_similarity x = Some q -> (0 <= q)%Q) ->
  sql_float_leb (row_similarity y) (row_similarity x) = true ->
  (score_of (row_to_tuple y) <= score_of (row_to_tuple x))%Q.
Proof.
  unfold row_to_tuple, score_of. simpl. intros P H.
  destruct (row_similarity x) as [qx |], (row_similarity y) as [qy |];
    simpl in H.
  - apply Qle_bool_iff, H.
  - apply P. reflexivity.
  - discriminate H.
  - apply Qle_refl.
Qed.

Lemma candidate_rows_nonneg (db : Store) (target_breed : string) (r : Row) (q : Q) :
  In r (candidate_rows db target_breed) -> row_similarity r = Some q ->
  (0 <= q)%Q.
Proof.
  intros Hr Hq. apply candidate_rows_In in Hr.
  destruct Hr as (b1 & b2 & _ & _ & _ & _ & ->). simpl in Hq.
  eapply similarity_sql_nonneg, Hq.
Qed.

(** X3. The rows the engine returns are the three best ones: they never
    name the target, there are three of them, or as many as there are
    candidate rows if these are fewer, they are in descending order of raw
    score, and together with the rows cut off by [LIMIT 3] they make up all
    candidate rows, none of the rows cut off having a higher score than a
    row returned. *)
Theorem top_similar_breeds_are_best (db : Store) (target_breed : string) :
  Forall (fun t => fst (fst t) <> target_breed)
    (_top_similar_breeds_via_sql db target_breed)
  /\ length (_top_similar_breeds_via_sql db target_breed)
     = Nat.min 3 (length (candidate_rows db target_breed))
  /\ StronglySorted (fun x y => (score_of y <= score_of x)%Q)
       (_top_similar_breeds_via_sql db target_breed)
  /\ exists rest,
       Permutation (map row_to_tuple (candidate_rows db target_breed))
         (_top_similar_breeds_via_sql db target_breed ++ rest)
       /\ forall t r,
            In t (_top_similar_breeds_via_sql db target_breed) ->
            In r rest -> (score_of r <= score_of t)%Q.
Proof.
  set (before := fun r1 r2 : Row =>
                   sql_float_leb (row_similarity r2) (row_similarity r1)).
  set (S := order_by_similarity_desc (candidate_rows db target_breed)).
  assert (InS : forall r, In r S -> In r (candidate_rows db target_breed))
    by (intros r; apply stable_sort_In).
  assert (SS : StronglySorted (precedes before) S).
  { apply Sorted_StronglySorted.
    - intros x y z Hxy Hyz. unfold precedes, before in *.
      eapply sql_float_leb_trans; eassumption.
    - apply stable_sort_Sorted. intros x y. apply sql_float_leb_total. }
  assert (Cross : forall x y, In x S -> precedes before x y ->
            (score_of (row_to_tuple y) <= score_of (row_to_tuple x))%Q).
  { intros x y Hx H. apply row_to_tuple_mono; [| exact H].
    intros q. apply (candidate_rows_nonneg db target_breed), InS, Hx. }
  split; [| split; [apply top_similar_breeds_length | split]].
  - apply List.Forall_forall. intros t Ht. apply top_similar_breeds_In in Ht.
    destruct Ht as (b1 & b2 & _ & _ & _ & N & ->). exact N.
  - unfold _top_similar_breeds_via_sql. fold S.
    eapply StronglySorted_map with
      (P := fun r => In r (candidate_rows db target_breed)).
    + intros x y Hx H. apply row_to_tuple_mono; [| exact H].
      intros q. apply (candidate_rows_nonneg db target_breed), Hx.
    + apply List.Forall_forall. intros r Hr. apply InS, (In_firstn 3), Hr.
    + apply (StronglySorted_app_l _ _ (skipn 3 S)).
      rewrite firstn_skipn. exact SS.
  - exists (map row_to_tuple (skipn 3 S)). split.
    + unfold _top_similar_breeds_via_sql. fold S.
      rewrite <- map_app, firstn_skipn. apply Permutation_map.
      symmetry. apply stable_sort_perm.
    + unfold _top_similar_breeds_via_sql. fold S. intros t r Ht Hr.
      apply in_map_iff in Ht, Hr.
      destruct Ht as (x & <- & Hx), Hr as (y & <- & Hy).
      apply Cross; [eapply In_firstn, Hx |].
      rewrite <- (firstn_skipn 3 S) in SS.
      apply (StronglySorted_app_cross _ _ _ SS x y Hx Hy).
Qed.

(** ** The score adjuster, continued *)

Lemma float64_nonneg (q : Q) : (0 <= q)%Q -> (0 <= float64 q)%Q.
Proof.
  intros P. rewrite <- (float64_Z 0) by (split; apply Z.leb_le; reflexivity).
  apply float64_mono. exact P.
Qed.

Lemma float64_nonpos (q : Q) : (q <= 0)%Q -> (float64 q <= 0)%Q.
Proof.
  intros P. rewrite <- (float64_Z 0) by (split; apply Z.leb_le; reflexivity).
  apply float64_mono. exact P.
Qed.

(** Subtracting the float 0.1 never gives a larger float. *)
Lemma float_sub_tenth_le (raw : Q) :
  (float_sub raw (1 # 10) <= float64 raw)%Q.
Proof.
  unfold float_sub. rewrite <- (float64_idem raw) at 2. apply float64_mono.
  pose proof (float64_nonneg (1 # 10)) as C. lra.
Qed.

Lemma penalized_never_raises (target_species name species : string) (raw : Q) :
  (0 <= raw)%Q ->
  (0 <= score_of (penalized target_species (name, species, raw))
   <= round (float64 raw) 4)%Q
  /\ (species <> target_species -> (raw <= 1 # 10)%Q ->
      (score_of (penalized target_species (name, species, raw)) == 0)%Q)
  /\ (species = target_species ->
      score_of (penalized target_species (name, species, raw))
      = round (float64 raw) 4).
Proof.
  intros Pos. unfold penalized, score_of. simpl.
  pose proof (float64_nonneg raw Pos) as D.
  destruct (String.eqb_spec species target_species) as [E | N]; simpl.
  - split; [| split; [contradiction | reflexivity]].
    split; [| apply Qle_refl].
    rewrite <- (round_Z 0 4). apply round_mono. exact D.
  - pose proof (float_sub_tenth_le raw) as Le.
    unfold max. destruct (Qlt_le_dec 0 (float_sub raw (1 # 10))) as [L | L].
    + split; [| split; [| contradiction]].
      * split.
        -- rewrite <- (round_Z 0 4). apply round_mono.
           change (inject_Z 0) with 0%Q. lra.
        -- apply round_mono. exact Le.
      * intros _ H. exfalso.
        assert (F : (float_sub raw (1 # 10) <= 0)%Q).
        { unfold float_sub. apply float64_nonpos.
          pose proof (float64_mono _ _ H). lra. }
        lra.
    + split; [| split; [| contradiction]].
      * split.
        -- apply Qle_bool_iff. reflexivity.
        -- apply round_mono. exact D.
      * intros _ _. apply (round_Z 0 4).
Qed.

(** X4. The adjuster returns, up to order, one tuple for each candidate it
    is given, with the candidate's name and species.  On raw scores that
    are not negative it never raises a score and never returns a negative
    one: the adjusted score of a candidate lies between 0 and its rounded
    raw score; a candidate of the target's species keeps its rounded raw
    score, and a candidate of another species whose raw score is at most
    0.10 ends at 0. *)
Theorem species_penalty_never_raises (target_species : string) (sims : list Sim) :
  Forall (fun t => (0 <= score_of t)%Q) sims ->
  exists adjusted,
    Permutation (_apply_species_penalty target_species sims) adjusted
    /\ Forall2
         (fun t a =>
            fst a = fst t
            /\ (0 <= score_of a <= round (float64 (score_of t)) 4)%Q
            /\ (snd (fst t) <> target_species -> (score_of t <= 1 # 10)%Q ->
                (score_of a == 0)%Q)
            /\ (snd (fst t) = target_species ->
                score_of a = round (float64 (score_of t)) 4))
         sims adjusted.
Proof.
  intros Pos. exists (map (penalized target_species) sims). split.
  - rewrite apply_species_penalty_unfold. apply stable_sort_perm.
  - induction sims as [| [[name species] raw] sims IH]; simpl; constructor.
    + apply Forall_cons in Pos. destruct Pos as [P _].
      unfold score_of at 1 in P. simpl in P.
      pose proof (penalized_never_raises target_species name species raw P)
        as (B & C & K).
      split; [reflexivity |]. split; [exact B |]. split; [exact C | exact K].
    + apply IH. apply Forall_cons in Pos. apply Pos.
Qed.

Lemma species_penalty_never_raises_witness :
  exists adjusted,
    Permutation
      (_apply_species_penalty "dog"
         [("Persian", "cat", 1 # 20); ("Beagle", "dog", 1 # 3)]%Q)
      adjusted
    /\ Forall2
         (fun t a =>
            fst a = fst t
            /\ (0 <= score_of a <= round (float64 (score_of t)) 4)%Q
            /\ (snd (fst t) <> "dog" -> (score_of t <= 1 # 10)%Q ->
                (score_of a == 0)%Q)
            /\ (snd (fst t) = "dog" ->
                score_of a = round (float64 (score_of t)) 4))
         [("Persian", "cat", 1 # 20); ("Beagle", "dog", 1 # 3)]%Q adjusted.
Proof.
  apply (species_penalty_never_raises "dog"
           [("Persian", "cat", 1 # 20); ("Beagle", "dog", 1 # 3)]%Q).
  repeat constructor; discriminate.
Defined.

(** ** The shared-disease aggregator, continued *)

Lemma lookup_names_inv (m : gmap Z string) (ids : list Z) (ns : list string) :
  lookup_names m ids = Ok ns -> Forall2 (fun i n => m !! i = Some n) ids ns.
Proof.
  revert ns. induction ids as [| i ids IH]; intros ns; simpl.
  - intros [= <-]. constructor.
  - destruct (m !! i) as [n |] eqn:Hi; [| discriminate].
    destruct (lookup_names m ids) as [ns' |]; simpl; [| discriminate].
    intros [= <-]. constructor; [exact Hi | apply IH; reflexivity].
Qed.

Lemma lookup_names_Raise (m : gmap Z string) (ids : list Z) :
  (exists i, In i ids /\ m !! i = None) ->
  exists k, lookup_names m ids = Raise (KeyError k) /\ In k ids /\ m !! k = None.
Proof.
  induction ids as [| i ids IH]; intros (j & Hj & Nj); [destruct Hj |].
  simpl. destruct (m !! i) as [n |] eqn:Hi.
  - destruct Hj as [-> | Hj]; [congruence |].
    destruct IH as (k & -> & Hk & Nk); [exists j; tauto |].
    exists k. simpl. tauto.
  - exists i. tauto.
Qed.

Lemma Forall2_In_l {A B} (R : A -> B -> Prop) (l : list A) (k : list B) (a : A) :
  Forall2 R l k -> In a l -> exists b, In b k /\ R a b.
Proof.
  induction 1 as [| a' b l k Rab F IH]; simpl; [tauto |].
  intros [<- | H].
  - exists b. tauto.
  - destruct (IH H) as (b' & Hb' & Rb'). exists b'. tauto.
Qed.

(** What the aggregator computes, whenever it returns. *)
Lemma shared_diseases_Ok_inv (db : Store) (target_disease_ids : list Z)
    (top_breed_names : list string) (out : list string) :
  _shared_diseases_with_top_breeds db target_disease_ids top_breed_names = Ok out ->
  exists ns,
    Forall2 (fun i n => disease_map db !! i = Some n)
      (elements (shared_ids db (list_to_set target_disease_ids) top_breed_names))
      ns
    /\ out = sorted ns.
Proof.
  unfold _shared_diseases_with_top_breeds.
  destruct top_breed_names as [| bname names].
  - intros [= <-]. exists []. unfold shared_ids. simpl.
    rewrite elements_empty. split; [constructor | reflexivity].
  - destruct (lookup_names _ _) as [ns |] eqn:L; simpl; [| discriminate].
    intros [= <-]. exists ns. split; [apply lookup_names_inv, L | reflexivity].
Qed.

(** X5. Whenever the aggregator returns, a name is in its result exactly
    when it is the name, in the id-to-name map, of a disease that is among
    the target's ids and is linked to a breed that one of the given names
    resolves to. *)
Theorem shared_diseases_membership (db : Store) (target_disease_ids : list Z)
    (top_breed_names : list string) (out : list string) :
  _shared_diseases_with_top_breeds db target_disease_ids top_breed_names = Ok out ->
  forall n,
    In n out <->
    exists did bname b l,
      In did target_disease_ids
      /\ In bname top_breed_names
      /\ query_breed_first db bname = Some b
      /\ In l (breed_disease_links db)
      /\ BreedDiseaseLink.breed_id l = Breed.id b
      /\ BreedDiseaseLink.disease_id l = did
      /\ disease_map db !! did = Some n.
Proof.
  intros E n. apply shared_diseases_Ok_inv in E. destruct E as (ns & F & ->).
  unfold sorted. rewrite stable_sort_In. split.
  - intros Hn. destruct (Forall2_In_r _ _ _ _ F Hn) as (did & Hd & Hm).
    apply list_elem_of_In, elem_of_elements, elem_of_shared_ids in Hd.
    destruct Hd as (Ht & bname & b & Hb & Q & Hi).
    apply elem_of_their_ids in Hi. destruct Hi as (l & Hl & Lb & Ld).
    exists did, bname, b, l. repeat split; try assumption.
    apply elem_of_list_to_set in Ht. apply list_elem_of_In, Ht.
  - intros (did & bname & b & l & Ht & Hb & Q & Hl & Lb & Ld & Hm).
    assert (Hs : In did (elements (shared_ids db (list_to_set target_disease_ids)
                                     top_breed_names))).
    { apply list_elem_of_In, elem_of_elements, elem_of_shared_ids. split.
      - apply elem_of_list_to_set, list_elem_of_In, Ht.
      - exists bname, b. repeat split; try assumption.
        apply elem_of_their_ids. exists l. tauto. }
    destruct (Forall2_In_l _ _ _ _ F Hs) as (n' & Hn' & Hm').
    congruence.
Qed.

Lemma shared_diseases_membership_witness :
    In "Arthritis" ["Arthritis"; "Hip Dysplasia"] <->
    exists did bname b l,
      In did [1; 4]
      /\ In bname ["Golden Retriever"; "Labradoodle"; "German Shepherd"]
      /\ query_breed_first seed_store bname = Some b
      /\ In l (breed_disease_links seed_store)
      /\ BreedDiseaseLink.breed_id l = Breed.id b
      /\ BreedDiseaseLink.disease_id l = did
      /\ disease_map seed_store !! did = Some "Arthritis".
Proof.
  exact (shared_diseases_membership seed_store [1; 4]
           ["Golden Retriever"; "Labradoodle"; "German Shepherd"]
           ["Arthritis"; "Hip Dysplasia"] seed_shared_diseases "Arthritis").
Defined.

(** X6. The aggregator looks at its two arguments as sets: target ids and
    breed names given in another order, or repeated, give the same
    result. *)
Theorem shared_diseases_order_irrelevant (db : Store)
    (target_disease_ids target_disease_ids' : list Z)
    (top_breed_names top_breed_names' : list string) :
  (forall i, In i target_disease_ids <-> In i target_disease_ids') ->
  (forall x, In x top_breed_names <-> In x top_breed_names') ->
  _shared_diseases_with_top_breeds db target_disease_ids top_breed_names
  = _shared_diseases_with_top_breeds db target_disease_ids' top_breed_names'.
Proof.
  intros Hi Hn.
  assert (T : (list_to_set target_disease_ids : gset Z)
              = list_to_set target_disease_ids').
  { apply set_eq. intros i. rewrite !elem_of_list_to_set, !list_elem_of_In.
    apply Hi. }
  assert (S : shared_ids db (list_to_set target_disease_ids) top_breed_names
              = shared_ids db (list_to_set target_disease_ids') top_breed_names').
  { rewrite T. apply set_eq. intros d. rewrite !elem_of_shared_ids.
    split; intros (Ht & bname & b & Hb & Q); (split; [exact Ht |]);
      exists bname, b; (split; [apply Hn, Hb | exact Q]). }
  unfold _shared_diseases_with_top_breeds.
  destruct top_breed_names as [| x l], top_breed_names' as [| x' l'].
  - reflexivity.
  - exfalso. apply (proj2 (Hn x')). left. reflexivity.
  - exfalso. apply (proj1 (Hn x)). left. reflexivity.
  - rewrite S. reflexivity.
Qed.

Lemma shared_diseases_order_irrelevant_witness :
  _shared_diseases_with_top_breeds seed_store [1; 4]
    ["Golden Retriever"; "German Shepherd"]
  = _shared_diseases_with_top_breeds seed_store [4; 1; 4]
      ["German Shepherd"; "Golden Retriever"; "German Shepherd"].
Proof.
  apply shared_diseases_order_irrelevant; intros x; simpl; tauto.
Defined.

(** X7. The aggregator raises [KeyError] exactly when a disease shared with
    one of the breeds has no row in [diseases]; the key it reports is such
    a disease id.  Without target ids, without names, or when no name
    resolves to a breed, it returns the empty list on every store. *)
Theorem shared_diseases_missing_row (db : Store) (target_disease_ids : list Z)
    (top_breed_names : list string) :
  let shared :=
    shared_ids db (list_to_set target_disease_ids) top_breed_names in
  ((exists i, i ∈ shared /\ disease_map db !! i = None) ->
   exists k,
     _shared_diseases_with_top_breeds db target_disease_ids top_breed_names
     = Raise (KeyError k)
     /\ k ∈ shared /\ disease_map db !! k = None)
  /\ ((forall i, i ∈ shared -> is_Some (disease_map db !! i)) ->
      exists out,
        _shared_diseases_with_top_breeds db target_disease_ids top_breed_names
        = Ok out)
  /\ (target_disease_ids = [] \/ top_breed_names = []
      \/ Forall (fun bname => query_breed_first db bname = None) top_breed_names ->
      _shared_diseases_with_top_breeds db target_disease_ids top_breed_names
      = Ok []).
Proof.
  intros shared. split; [| split].
  - intros (i & Hi & Ni).
    destruct (lookup_names_Raise (disease_map db) (elements shared))
      as (k & L & Hk & Nk).
    { exists i. split; [apply list_elem_of_In, elem_of_elements, Hi | exact Ni]. }
    exists k. split; [| split; [apply elem_of_elements, list_elem_of_In, Hk
                               | exact Nk]].
    unfold _shared_diseases_with_top_breeds.
    destruct top_breed_names as [| bname names].
    + exfalso. exact (not_elem_of_empty _ Hi).
    + fold shared. rewrite L. reflexivity.
  - intros All.
    destruct (lookup_names_Ok (disease_map db) (elements shared)) as (ns & L & _).
    { intros i Hi. apply All, elem_of_elements, list_elem_of_In, Hi. }
    unfold _shared_diseases_with_top_breeds.
    destruct top_breed_names as [| bname names]; [eexists; reflexivity |].
    fold shared. rewrite L. eexists. reflexivity.
  - intros Edge.
    assert (E : top_breed_names = [] \/ shared = ∅).
    { destruct Edge as [-> | [-> | None]]; [right | left; reflexivity | right];
        apply leibniz_equiv; intros d; split;
        try (intros H; exfalso; exact (not_elem_of_empty _ H));
        unfold shared; rewrite elem_of_shared_ids.
      - intros [H _]. exact H.
      - intros (_ & bname & b & Hb & Q & _).
        rewrite List.Forall_forall in None. rewrite (None _ Hb) in Q.
        discriminate Q. }
    unfold _shared_diseases_with_top_breeds.
    destruct top_breed_names as [| bname names]; [reflexivity |].
    destruct E as [E | E]; [discriminate E |].
    fold shared. rewrite E, elements_empty. reflexivity.
Qed.

Lemma shared_diseases_missing_row_witness :
  exists k,
    _shared_diseases_with_top_breeds dangling_store [7] ["Pug"]
    = Raise (KeyError k)
    /\ k ∈ shared_ids dangling_store (list_to_set [7]) ["Pug"]
    /\ disease_map dangling_store !! k = None.
Proof.
  apply (proj1 (shared_diseases_missing_row dangling_store [7] ["Pug"])).
  exists 7. split; [| reflexivity].
  apply elem_of_shared_ids. split.
  - apply elem_of_list_to_set, list_elem_of_In. left. reflexivity.
  - exists "Pug", pug. split; [left; reflexivity |]. split; [reflexivity |].
    apply elem_of_their_ids.
    exists (BreedDiseaseLink.mk 2 7 (1 # 4)). simpl. tauto.
Defined.

(** ** The target's diseases *)

Lemma flat_map_app_perm {A B} (g h : A -> list B) (l : list A) :
  Permutation (flat_map (fun y => g y ++ h y) l) (flat_map g l ++ flat_map h l).
Proof.
  induction l as [| y l IH]; simpl; [reflexivity |].
  rewrite IH, <- !app_assoc. apply Permutation_app_head.
  rewrite !app_assoc. apply Permutation_app_tail, Permutation_app_comm.
Qed.

Lemma flat_map_swap {A B C} (f : A -> B -> list C) (xs : list A) (ys : list B) :
  Permutation (flat_map (fun x => flat_map (f x) ys) xs)
    (flat_map (fun y => flat_map (fun x => f x y) xs) ys).
Proof.
  induction xs as [| x xs IH]; simpl.
  - induction ys as [| y ys IHy]; simpl; [reflexivity | exact IHy].
  - rewrite IH. symmetry. apply flat_map_app_perm.
Qed.

Lemma flat_map_unique {A B} (key : A -> Z) (g : A -> B) (k : Z) (l : list A) :
  NoDup (map key l) ->
  flat_map (fun x => if Z.eqb (key x) k then [g x] else []) l
  = match List.find (fun x => Z.eqb (key x) k) l with
    | Some x => [g x]
    | None => []
    end.
Proof.
  induction l as [| a l IH]; simpl; intros N; [reflexivity |].
  apply NoDup_cons in N. destruct N as [Na N].
  destruct (Z.eqb_spec (key a) k) as [E | NE]; simpl.
  - f_equal. rewrite (IH N).
    destruct (List.find _ l) as [x |] eqn:F; [exfalso | reflexivity].
    apply find_some in F. destruct F as [Hx Ex]. apply Z.eqb_eq in Ex.
    apply Na. apply list_elem_of_In. rewrite E, <- Ex. apply in_map, Hx.
  - apply IH, N.
Qed.

Lemma find_disease_by_id (db : Store) (i : Z) :
  store_ok db -> In i (map Disease.id (diseases db)) ->
  exists d, List.find (fun d => Z.eqb (Disease.id d) i) (diseases db) = Some d
            /\ Disease.id d = i /\ disease_map db !! i = Some (Disease.name d).
Proof.
  intros OK Hi. apply in_map_iff in Hi. destruct Hi as (d0 & E0 & H0).
  destruct (List.find _ _) as [d |] eqn:F.
  - apply find_some in F. destruct F as [Hd Ed]. apply Z.eqb_eq in Ed.
    exists d. repeat split; [exact Ed |].
    apply disease_map_lookup; [apply (disease_pk db OK) |]. exists d. tauto.
  - exfalso. apply (find_none _ _ F) in H0. apply Z.eqb_neq in H0. tauto.
Qed.

(** The rows of [_fetch_target_diseases], link by link. *)
Lemma fetch_target_diseases_by_link (db : Store) (breed_id : Z) :
  store_ok db ->
  Permutation (_fetch_target_diseases db breed_id)
    (flat_map
       (fun l =>
          if Z.eqb (BreedDiseaseLink.breed_id l) breed_id then
            match List.find
                    (fun d => Z.eqb (Disease.id d) (BreedDiseaseLink.disease_id l))
                    (diseases db) with
            | Some d =>
                [(Disease.name d, BreedDiseaseLink.prevalence l, Disease.id d)]
            | None => []
            end
          else [])
       (breed_disease_links db)).
Proof.
  intros OK. unfold _fetch_target_diseases. rewrite flat_map_swap.
  erewrite flat_map_ext; [reflexivity |].
  intros l. simpl. destruct (Z.eqb_spec (BreedDiseaseLink.breed_id l) breed_id) as [E | N].
  - rewrite <- (flat_map_unique Disease.id
                  (fun d => (Disease.name d, BreedDiseaseLink.prevalence l,
                             Disease.id d))
                  (BreedDiseaseLink.disease_id l) (diseases db)
                  (disease_pk db OK)).
    erewrite flat_map_ext; [reflexivity |].
    intros d. simpl. rewrite andb_true_r. reflexivity.
  - erewrite flat_map_ext with (g := fun _ => []).
    + induction (diseases db); simpl; auto.
    + intros d. simpl. rewrite andb_false_r. reflexivity.
Qed.

Lemma links_of_breed_distinct (links : list BreedDiseaseLink.t) (breed_id : Z) :
  NoDup (map BreedDiseaseLink.key links) ->
  NoDup (map BreedDiseaseLink.disease_id
           (List.filter (fun l => Z.eqb (BreedDiseaseLink.breed_id l) breed_id)
              links)).
Proof.
  induction links as [| l links IH]; simpl; intros N; [constructor |].
  apply NoDup_cons in N. destruct N as [Nl N].
  destruct (Z.eqb_spec (BreedDiseaseLink.breed_id l) breed_id) as [E | NE];
    [| apply IH, N].
  simpl. apply NoDup_cons. split; [| apply IH, N].
  intros H. apply list_elem_of_In, in_map_iff in H.
  destruct H as (l' & Ed & Hl'). apply filter_In in Hl'.
  destruct Hl' as [Hl' Eb]. apply Z.eqb_eq in Eb.
  apply Nl. apply list_elem_of_In, in_map_iff. exists l'.
  split; [| exact Hl']. unfold BreedDiseaseLink.key. congruence.
Qed.

(** X8. On a store that satisfies its constraints, the query for the
    target's diseases returns one row per link of the breed: up to order,
    the disease ids and prevalences of the rows are those of the breed's
    links, every row carries the name that the id-to-name map gives its
    disease id, and no disease id occurs twice. *)
Theorem fetch_target_diseases_rows (db : Store) (breed_id : Z) :
  store_ok db ->
  Permutation
    (map (fun t => (snd t, snd (fst t))) (_fetch_target_diseases db breed_id))
    (map (fun l => (BreedDiseaseLink.disease_id l, BreedDiseaseLink.prevalence l))
       (List.filter (fun l => Z.eqb (BreedDiseaseLink.breed_id l) breed_id)
          (breed_disease_links db)))
  /\ Forall (fun t => disease_map db !! snd t = Some (fst (fst t)))
       (_fetch_target_diseases db breed_id)
  /\ NoDup (map (fun t => snd t) (_fetch_target_diseases db breed_id)).
Proof.
  intros OK.
  pose proof (fetch_target_diseases_by_link db breed_id OK) as P.
  set (F := fun l : BreedDiseaseLink.t =>
              if Z.eqb (BreedDiseaseLink.breed_id l) breed_id then
                match List.find
                        (fun d => Z.eqb (Disease.id d)
                                    (BreedDiseaseLink.disease_id l))
                        (diseases db) with
                | Some d =>
                    [(Disease.name d, BreedDiseaseLink.prevalence l,
                      Disease.id d)]
                | None => []
                end
              else []) in *.
  assert (Rows : forall ls,
            (forall l, In l ls -> In l (breed_disease_links db)) ->
            map (fun t : string * Q * Z => (snd t, snd (fst t))) (flat_map F ls)
            = map (fun l => (BreedDiseaseLink.disease_id l,
                             BreedDiseaseLink.prevalence l))
                (List.filter
                   (fun l => Z.eqb (BreedDiseaseLink.breed_id l) breed_id) ls)
            /\ Forall (fun t => disease_map db !! snd t = Some (fst (fst t)))
                 (flat_map F ls)).
  { induction ls as [| l ls IH]; intros Sub; simpl; [split; constructor |].
    destruct IH as [IH1 IH2]; [intros l' Hl'; apply Sub; right; exact Hl' |].
    unfold F at 1 3.
    destruct (Z.eqb (BreedDiseaseLink.breed_id l) breed_id); [| tauto].
    destruct (find_disease_by_id db (BreedDiseaseLink.disease_id l) OK)
      as (d & Fd & Ed & Md).
    { apply (link_disease_fk db OK), Sub. left. reflexivity. }
    rewrite Fd. simpl. split.
    - rewrite IH1, Ed. reflexivity.
    - constructor; [simpl; rewrite Ed; exact Md | exact IH2]. }
  destruct (Rows (breed_disease_links db) (fun l H => H)) as [R1 R2].
  split; [| split].
  - rewrite P. rewrite R1. reflexivity.
  - rewrite List.Forall_forall in *. intros t Ht. apply R2.
    eapply Permutation_in; [exact P | exact Ht].
  - assert (E : map (fun t : string * Q * Z => snd t) (flat_map F (breed_disease_links db))
                = map BreedDiseaseLink.disease_id
                    (List.filter
                       (fun l => Z.eqb (BreedDiseaseLink.breed_id l) breed_id)
                       (breed_disease_links db))).
    { rewrite <- (map_map (fun t : string * Q * Z => (snd t, snd (fst t))) fst).
      rewrite R1, map_map. reflexivity. }
    rewrite P, E. apply links_of_breed_distinct, (link_pk db OK).
Qed.

Lemma fetch_target_diseases_rows_witness :
  NoDup (map (fun t => snd t) (_fetch_target_diseases seed_store 10)).
Proof.
  exact (proj2 (proj2 (fetch_target_diseases_rows seed_store 10 seed_store_ok))).
Defined.

(** ** The orchestrator, continued *)

Lemma query_breed_first_name (db : Store) (n : string) (b : Breed.t) :
  query_breed_first db n = Some b -> In b (breeds db) /\ Breed.name b = n.
Proof.
  unfold query_breed_first. intros F. apply find_some in F.
  destruct F as [H E]. apply String.eqb_eq in E. tauto.
Qed.

Lemma shared_diseases_Ok (db : Store) (target_disease_ids : list Z)
    (top_breed_names : list string) :
  store_ok db ->
  exists out,
    _shared_diseases_with_top_breeds db target_disease_ids top_breed_names
    = Ok out.
Proof.
  intros OK. unfold _shared_diseases_with_top_breeds.
  destruct top_breed_names as [| bname names]; [eexists; reflexivity |].
  destruct (lookup_names_Ok (disease_map db)
              (elements (shared_ids db (list_to_set target_disease_ids)
                           (bname :: names)))) as (ns & L & _).
  - intros i Hi. apply list_elem_of_In, elem_of_elements in Hi.
    apply (shared_ids_in_disease_map db _ _ i OK Hi).
  - rewrite L. eexists. reflexivity.
Qed.

Lemma generate_care_plan_Ok (ext : External) (breed_name : string)
    (diseases_with_prev : list (string * Q)) :
  exists text, _generate_care_plan ext breed_name diseases_with_prev = Ok text.
Proof.
  unfold _generate_care_plan.
  destruct (negb _ || negb _); [eexists; reflexivity |].
  destruct (chat_completion _ _ _); eexists; reflexivity.
Qed.

Lemma run_risk_analysis_found gcm (ext : External) (db : Store)
    (breed_name : string) (target : Breed.t) :
  query_breed_first db breed_name = Some target ->
  run_risk_analysis gcm ext db breed_name
  = bind
      (_shared_diseases_with_top_breeds db
         (map (fun t => snd t) (_fetch_target_diseases db (Breed.id target)))
         (map (fun t => fst (fst t))
            (_apply_species_penalty (Breed.species target)
               (_top_similar_breeds_via_sql db (Breed.name target)))))
      (fun shared =>
         bind
           (_generate_care_plan ext (Breed.name target)
              (map (fun t => (fst (fst t), snd (fst t)))
                 (_fetch_target_diseases db (Breed.id target))))
           (fun care_plan =>
              Ok (mkRiskAnalysis (Breed.name target)
                    (map similar_breed_schema
                       (_apply_species_penalty (Breed.species target)
                          (_top_similar_breeds_via_sql db (Breed.name target))))
                    shared care_plan))).
Proof.
  intros HQ. unfold run_risk_analysis, _get_breed_by_name_or_404.
  rewrite HQ. reflexivity.
Qed.

(** X9. On a store that satisfies its constraints no step after the lookup
    of the breed fails: when the name resolves, the analysis returns a
    response for the requested name, with the text the generator produces
    for the target's diseases, and the endpoint answers 200; when it does
    not resolve, the endpoint answers 404. *)
Theorem risk_analysis_answers gcm (ext : External) (db : Store)
    (breed_name : string) :
  store_ok db ->
  match query_breed_first db breed_name with
  | Some target =>
      exists resp,
        run_risk_analysis gcm ext db breed_name = Ok resp
        /\ status (risk_analysis gcm ext db breed_name) = 200
        /\ target_breed resp = breed_name
        /\ _generate_care_plan ext breed_name
             (map (fun t => (fst (fst t), snd (fst t)))
                (_fetch_target_diseases db (Breed.id target)))
           = Ok (care_plan resp)
  | None => status (risk_analysis gcm ext db breed_name) = 404
  end.
Proof.
  intros OK.
  destruct (query_breed_first db breed_name) as [target |] eqn:HQ.
  - destruct (query_breed_first_name db breed_name target HQ) as [_ N].
    unfold risk_analysis.
    rewrite (run_risk_analysis_found gcm ext db breed_name target HQ).
    destruct (shared_diseases_Ok db
                (map (fun t => snd t)
                   (_fetch_target_diseases db (Breed.id target)))
                (map (fun t => fst (fst t))
                   (_apply_species_penalty (Breed.species target)
                      (_top_similar_breeds_via_sql db (Breed.name target))))
                OK) as (shared & ->).
    destruct (generate_care_plan_Ok ext (Breed.name target)
                (map (fun t => (fst (fst t), snd (fst t)))
                   (_fetch_target_diseases db (Breed.id target))))
      as (text & G).
    unfold bind. rewrite G. eexists. split; [reflexivity |].
    rewrite <- N. simpl. auto.
  - unfold risk_analysis, run_risk_analysis, _get_breed_by_name_or_404.
    rewrite HQ. reflexivity.
Qed.

Lemma risk_analysis_answers_witness :
  exists resp,
    run_risk_analysis difflib.get_close_matches failing_service seed_store
      "Siamese" = Ok resp
    /\ status (risk_analysis difflib.get_close_matches failing_service
                 seed_store "Siamese") = 200
    /\ target_breed resp = "Siamese"
    /\ _generate_care_plan failing_service "Siamese"
         (map (fun t => (fst (fst t), snd (fst t)))
            (_fetch_target_diseases seed_store 7))
       = Ok (care_plan resp).
Proof.
  exact (risk_analysis_answers difflib.get_close_matches failing_service
           seed_store "Siamese" seed_store_ok).
Defined.

Lemma apply_species_penalty_In (target_species : string) (sims : list Sim)
    (t : Sim) :
  In t (_apply_species_penalty target_species sims) <->
  exists t0, In t0 sims /\ t = penalized target_species t0.
Proof.
  rewrite apply_species_penalty_unfold. unfold sort_by_score_desc.
  rewrite stable_sort_In, in_map_iff. split; intros (t0 & H1 & H2).
  - exists t0. split; [exact H2 | symmetry; exact H1].
  - exists t0. split; [symmetry; exact H2 | exact H1].
Qed.

Lemma penalized_name (target_species : string) (t : Sim) :
  fst (penalized target_species t) = fst t.
Proof. destruct t as [[name species] raw]. reflexivity. Qed.

Lemma NoDup_firstn {A} (n : nat) (l : list A) : NoDup l -> NoDup (firstn n l).
Proof.
  revert l. induction n as [| n IH]; intros [| x l] N; simpl; try constructor.
  - apply NoDup_cons in N. destruct N as [Nx N].
    intros H. apply Nx. apply list_elem_of_In, (In_firstn n).
    apply list_elem_of_In, H.
  - apply IH. apply NoDup_cons in N. tauto.
Qed.

Lemma flat_map_one_breed {B} (target_breed : string) (f : Breed.t -> list B)
    (l : list Breed.t) :
  NoDup (map Breed.name l) ->
  flat_map
    (fun b1 => if String.eqb (Breed.name b1) target_breed then f b1 else []) l
  = match List.find (fun b => String.eqb (Breed.name b) target_breed) l with
    | Some b1 => f b1
    | None => []
    end.
Proof.
  induction l as [| a l IH]; simpl; intros N; [reflexivity |].
  apply NoDup_cons in N. destruct N as [Na N].
  destruct (String.eqb_spec (Breed.name a) target_breed) as [E | NE].
  - rewrite (IH N).
    destruct (List.find _ l) as [x |] eqn:F.
    + exfalso. apply find_some in F. destruct F as [Hx Ex].
      apply String.eqb_eq in Ex. apply Na. apply list_elem_of_In.
      rewrite E, <- Ex. apply in_map, Hx.
    + apply app_nil_r.
  - apply IH, N.
Qed.

Lemma candidate_rows_names (db : Store) (target_breed : string) :
  NoDup (map Breed.name (breeds db)) ->
  NoDup (map row_name (candidate_rows db target_breed)).
Proof.
  intros N. unfold candidate_rows. rewrite (flat_map_one_breed _ _ _ N).
  destruct (List.find _ _) as [b1 |]; [| constructor].
  induction (breeds db) as [| b2 l IH]; simpl; [constructor |].
  apply NoDup_cons in N. destruct N as [N2 N].
  destruct (String.eqb (Breed.name b2) target_breed); simpl; [apply IH, N |].
  apply NoDup_cons. split; [| apply IH, N].
  intros H. apply N2. apply list_elem_of_In in H. apply list_elem_of_In.
  apply in_map_iff in H. destruct H as (r & Er & Hr).
  apply in_flat_map in Hr. destruct Hr as (b & Hb & Hr).
  destruct (negb _) in Hr; [| destruct Hr].
  destruct Hr as [<- | []]. simpl in Er. rewrite <- Er. apply in_map, Hb.
Qed.

Lemma top_similar_breeds_names (db : Store) (target_breed : string) :
  NoDup (map Breed.name (breeds db)) ->
  NoDup (map (fun t : Sim => fst (fst t))
           (_top_similar_breeds_via_sql db target_breed)).
Proof.
  intros N. unfold _top_similar_breeds_via_sql.
  rewrite map_map. simpl.
  change (fun x : Row => row_name x) with row_name.
  rewrite <- firstn_map. apply NoDup_firstn.
  unfold order_by_similarity_desc.
  rewrite (Permutation_map row_name (stable_sort_perm _ _)).
  apply candidate_rows_names, N.
Qed.

(** X10. On a store that satisfies its constraints, every entry of the
    similar-breeds list of a response is a registered breed other than the
    requested one, listed with the species it is stored with and with a
    similarity in [0,1]; no breed is listed twice. *)
Theorem similar_breeds_entries gcm (ext : External) (db : Store)
    (breed_name : string) (resp : RiskAnalysisResponseSchema) :
  store_ok db ->
  run_risk_analysis gcm ext db breed_name = Ok resp ->
  Forall
    (fun sb =>
       sb_name sb <> breed_name
       /\ (0 <= sb_similarity sb <= 1)%Q
       /\ exists b, In b (breeds db) /\ Breed.name b = sb_name sb
                    /\ Breed.species b = sb_species sb)
    (similar_breeds resp)
  /\ NoDup (map sb_name (similar_breeds resp)).
Proof.
  intros OK Run. apply run_risk_analysis_Ok in Run.
  destruct Run as (target & HQ & _ & ->).
  destruct (query_breed_first_name db breed_name target HQ) as [_ N].
  split.
  - apply List.Forall_forall. intros sb Hsb. apply in_map_iff in Hsb.
    destruct Hsb as (t & <- & Ht). apply apply_species_penalty_In in Ht.
    destruct Ht as (t0 & Ht0 & ->). apply top_similar_breeds_In in Ht0.
    destruct Ht0 as (b1 & b2 & H1 & H2 & E1 & N2 & ->).
    destruct (raw_similarity_jaccard db b1 b2 (link_pk db OK)) as [_ Bounds].
    split; [| split].
    + simpl. rewrite <- N. exact N2.
    + apply (penalized_unit_interval (Breed.species target)
               (Breed.name b2, Breed.species b2, raw_similarity db b1 b2)).
      exact Bounds.
    + exists b2. simpl. auto.
  - rewrite map_map.
    erewrite map_ext with (g := fun t : Sim => fst (fst t)); [| reflexivity].
    rewrite apply_species_penalty_unfold. unfold sort_by_score_desc.
    rewrite (Permutation_map (fun t : Sim => fst (fst t)) (stable_sort_perm _ _)).
    rewrite map_map.
    erewrite map_ext with (g := fun t : Sim => fst (fst t)).
    + apply top_similar_breeds_names, (breed_name_unique db OK).
    + intros t. rewrite penalized_name. reflexivity.
Qed.

Lemma similar_breeds_entries_witness :
  NoDup
    (map sb_name
       [mkSimilarBreed "Golden Retriever" "dog" (10000 # 10000);
        mkSimilarBreed "German Shepherd" "dog" (3333 # 10000);
        mkSimilarBreed "British Shorthair" "cat" (2333 # 10000)]).
Proof.
  exact (proj2 (similar_breeds_entries difflib.get_close_matches offline
                  seed_store "Labrador Retriever" _ seed_store_ok
                  labrador_analysis)).
Defined.

Lemma no_links_of_breed (db : Store) (b : Breed.t) :
  disease_set db b = ∅ ->
  forall l, In l (breed_disease_links db) ->
            BreedDiseaseLink.breed_id l <> Breed.id b.
Proof.
  unfold disease_set. intros E l Hl Hb.
  assert (H : BreedDiseaseLink.disease_id l ∈ their_ids db (Breed.id b))
    by (apply elem_of_their_ids; exists l; tauto).
  rewrite E in H. exact (not_elem_of_empty _ H).
Qed.

Lemma raw_similarity_no_links (db : Store) (b1 b2 : Breed.t) :
  disease_set db b1 = ∅ -> (raw_similarity db b1 b2 == 0)%Q.
Proof.
  intros E. pose proof (no_links_of_breed db b1 E) as No.
  assert (J : joined_links db (Breed.id b1) (Breed.id b2) = []).
  { destruct (joined_links _ _ _) as [| p ps] eqn:F; [reflexivity | exfalso].
    assert (Hp : In p (joined_links db (Breed.id b1) (Breed.id b2)))
      by (rewrite F; left; reflexivity).
    apply joined_links_In in Hp. destruct Hp as (H1 & _ & _ & Hb & _).
    exact (No _ H1 Hb). }
  unfold raw_similarity, row_to_tuple, similarity_sql, sql_div, count_joined.
  rewrite J. simpl.
  destruct (Z.eqb _ 0); [reflexivity |]. unfold Qdiv. ring.
Qed.

Lemma fetch_target_diseases_no_links (db : Store) (b : Breed.t) :
  disease_set db b = ∅ -> _fetch_target_diseases db (Breed.id b) = [].
Proof.
  intros E. pose proof (no_links_of_breed db b E) as No.
  unfold _fetch_target_diseases.
  induction (diseases db) as [| d ds IH]; simpl; [reflexivity |].
  rewrite IH, app_nil_r. clear IH.
  induction (breed_disease_links db) as [| l ls IHl]; simpl; [reflexivity |].
  rewrite IHl by (intros l' Hl'; apply No; right; exact Hl').
  destruct (Z.eqb_spec (BreedDiseaseLink.breed_id l) (Breed.id b)) as [Hb | _].
  - exfalso. apply (No l); [left; reflexivity | exact Hb].
  - rewrite andb_false_r. reflexivity.
Qed.

Lemma shared_diseases_no_target (db : Store) (top_breed_names : list string) :
  _shared_diseases_with_top_breeds db [] top_breed_names = Ok [].
Proof.
  unfold _shared_diseases_with_top_breeds.
  destruct top_breed_names as [| bname names]; [reflexivity |].
  assert (E : shared_ids db (list_to_set []) (bname :: names) = ∅).
  { apply leibniz_equiv. intros d. rewrite elem_of_shared_ids. split.
    - intros [H _]. exact H.
    - intros H. exfalso. exact (not_elem_of_empty _ H). }
  rewrite E, elements_empty. reflexivity.
Qed.

(** X11. A target breed without any recorded disease is analysed without
    error on any store whose breed names are unique: every similar breed
    of the response has similarity 0, no disease is shared, and the care
    plan is the one generated for an empty disease list. *)
Theorem zero_disease_target gcm (ext : External) (db : Store)
    (breed_name : string) (target : Breed.t) :
  NoDup (map Breed.name (breeds db)) ->
  query_breed_first db breed_name = Some target ->
  disease_set db target = ∅ ->
  exists resp,
    run_risk_analysis gcm ext db breed_name = Ok resp
    /\ Forall (fun sb => (sb_similarity sb == 0)%Q) (similar_breeds resp)
    /\ shared_diseases resp = []
    /\ _generate_care_plan ext breed_name [] = Ok (care_plan resp).
Proof.
  intros Names HQ Empty.
  destruct (query_breed_first_name db breed_name target HQ) as [HT N].
  rewrite (run_risk_analysis_found gcm ext db breed_name target HQ).
  rewrite (fetch_target_diseases_no_links db target Empty). simpl map at 1 3.
  rewrite shared_diseases_no_target.
  destruct (generate_care_plan_Ok ext (Breed.name target) []) as (text & G).
  unfold bind. rewrite G. eexists. split; [reflexivity |]. simpl.
  split; [| split; [reflexivity | rewrite <- N; exact G]].
  apply List.Forall_forall. intros sb Hsb. apply in_map_iff in Hsb.
  destruct Hsb as (t & <- & Ht). apply apply_species_penalty_In in Ht.
  destruct Ht as (t0 & Ht0 & ->). apply top_similar_breeds_In in Ht0.
  destruct Ht0 as (b1 & b2 & H1 & H2 & E1 & N2 & ->).
  assert (b1 = target)
    by (eapply NoDup_map_inj_on; [exact Names | assumption.. | congruence]).
  subst b1.
  pose proof (raw_similarity_no_links db target b2 Empty) as Z0.
  unfold similar_breed_schema, penalized. simpl.
  destruct (negb _).
  - unfold max. destruct (Qlt_le_dec 0 _) as [L | L]; [exfalso | apply (round_Z 0 4)].
    pose proof (float_sub_tenth_le (raw_similarity db target b2)) as Le.
    rewrite (float64_compat _ 0 Z0) in Le.
    pose proof (float64_nonpos 0 (Qle_refl 0)). lra.
  - rewrite (float64_compat _ 0 Z0).
    change 0%Q with (inject_Z 0).
    rewrite (round_compat _ _ 4
               (float64_Z 0 ltac:(split; apply Z.leb_le; reflexivity))).
    apply (round_Z 0 4).
Qed.

Lemma zero_disease_target_witness :
  exists resp,
    run_risk_analysis no_suggestions offline no_disease_store "Sphynx" = Ok resp
    /\ Forall (fun sb => (sb_similarity sb == 0)%Q) (similar_breeds resp)
    /\ shared_diseases resp = []
    /\ _generate_care_plan offline "Sphynx" [] = Ok (care_plan resp).
Proof.
  apply (zero_disease_target no_suggestions offline no_disease_store "Sphynx"
           sphynx).
  - apply (bool_decide_unpack _). vm_compute. exact I.
  - reflexivity.
  - reflexivity.
Defined.

Lemma fetch_target_ids_In (db : Store) (breed_id did : Z) :
  In did (map (fun t => snd t) (_fetch_target_diseases db breed_id)) <->
  exists d l, In d (diseases db) /\ In l (breed_disease_links db)
    /\ Disease.id d = did /\ BreedDiseaseLink.disease_id l = did
    /\ BreedDiseaseLink.breed_id l = breed_id.
Proof.
  rewrite in_map_iff. unfold _fetch_target_diseases. split.
  - intros (t & <- & Ht). apply in_flat_map in Ht. destruct Ht as (d & Hd & Ht).
    apply in_flat_map in Ht. destruct Ht as (l & Hl & Ht).
    destruct (Z.eqb_spec (Disease.id d) (BreedDiseaseLink.disease_id l)) as [E1 |];
      [| destruct Ht].
    destruct (Z.eqb_spec (BreedDiseaseLink.breed_id l) breed_id) as [E2 |];
      [| destruct Ht].
    destruct Ht as [<- | []]. exists d, l. simpl. auto.
  - intros (d & l & Hd & Hl & E1 & E2 & E3).
    exists (Disease.name d, BreedDiseaseLink.prevalence l, Disease.id d).
    split; [exact E1 |]. apply in_flat_map. exists d. split; [exact Hd |].
    apply in_flat_map. exists l. split; [exact Hl |].
    rewrite E1, E2, E3, !Z.eqb_refl. left. reflexivity.
Qed.

Lemma run_risk_analysis_shared gcm (ext : External) (db : Store)
    (breed_name : string) (resp : RiskAnalysisResponseSchema)
    (target : Breed.t) :
  query_breed_first db breed_name = Some target ->
  run_risk_analysis gcm ext db breed_name = Ok resp ->
  _shared_diseases_with_top_breeds db
    (map (fun t => snd t) (_fetch_target_diseases db (Breed.id target)))
    (map sb_name (similar_breeds resp))
  = Ok (shared_diseases resp).
Proof.
  intros HQ. rewrite (run_risk_analysis_found gcm ext db breed_name target HQ).
  destruct (_shared_diseases_with_top_breeds _ _ _) as [shared |] eqn:S;
    [| discriminate].
  unfold bind. destruct (_generate_care_plan _ _ _); [| discriminate].
  intros [= <-]. simpl. rewrite map_map. simpl. exact S.
Qed.

(** X12. On a store that satisfies its constraints, the shared diseases of
    a response are exactly the names of the diseases that are linked both
    to the target breed and to at least one breed of the response's
    similar-breeds list. *)
Theorem shared_diseases_of_response gcm (ext : External) (db : Store)
    (breed_name : string) (resp : RiskAnalysisResponseSchema)
    (target : Breed.t) :
  store_ok db ->
  query_breed_first db breed_name = Some target ->
  run_risk_analysis gcm ext db breed_name = Ok resp ->
  forall n,
    In n (shared_diseases resp) <->
    exists sb b d lt lb,
      In sb (similar_breeds resp)
      /\ query_breed_first db (sb_name sb) = Some b
      /\ In d (diseases db) /\ Disease.name d = n
      /\ In lt (breed_disease_links db)
      /\ BreedDiseaseLink.breed_id lt = Breed.id target
      /\ BreedDiseaseLink.disease_id lt = Disease.id d
      /\ In lb (breed_disease_links db)
      /\ BreedDiseaseLink.breed_id lb = Breed.id b
      /\ BreedDiseaseLink.disease_id lb = Disease.id d.
Proof.
  intros OK HQ Run n.
  pose proof (run_risk_analysis_shared gcm ext db breed_name resp target HQ Run)
    as S.
  apply shared_diseases_Ok_inv in S. destruct S as (ns & F & ->).
  unfold sorted. rewrite stable_sort_In.
  set (tids := map (fun t : string * Q * Z => snd t)
                 (_fetch_target_diseases db (Breed.id target))) in *.
  set (names := map sb_name (similar_breeds resp)) in *.
  split.
  - intros Hn. destruct (Forall2_In_r _ _ _ _ F Hn) as (did & Hd & Hm).
    apply list_elem_of_In, elem_of_elements, elem_of_shared_ids in Hd.
    destruct Hd as (Ht & bname & b & Hb & Qb & Hi).
    apply elem_of_list_to_set, list_elem_of_In, fetch_target_ids_In in Ht.
    destruct Ht as (d0 & lt & _ & Hlt & _ & Elt & Blt).
    apply elem_of_their_ids in Hi. destruct Hi as (lb & Hlb & Blb & Elb).
    apply disease_map_lookup in Hm; [| apply (disease_pk db OK)].
    destruct Hm as (d & Hdd & Ed & En).
    apply in_map_iff in Hb. destruct Hb as (sb & <- & Hsb).
    exists sb, b, d, lt, lb. repeat split; try assumption; congruence.
  - intros (sb & b & d & lt & lb & Hsb & Qb & Hd & En & Hlt & Blt & Elt
            & Hlb & Blb & Elb).
    assert (Hs : In (Disease.id d) (elements (shared_ids db (list_to_set tids) names))).
    { apply list_elem_of_In, elem_of_elements, elem_of_shared_ids. split.
      - apply elem_of_list_to_set, list_elem_of_In, fetch_target_ids_In.
        exists d, lt. auto.
      - exists (sb_name sb), b. split; [apply in_map, Hsb |].
        split; [exact Qb |]. apply elem_of_their_ids. exists lb. auto. }
    destruct (Forall2_In_l _ _ _ _ F Hs) as (n' & Hn' & Hm').
    apply disease_map_lookup in Hm'; [| apply (disease_pk db OK)].
    destruct Hm' as (d' & Hd' & Ed' & En').
    assert (d' = d)
      by (eapply NoDup_map_inj_on;
          [apply (disease_pk db OK) | assumption.. | exact Ed']).
    subst d'. congruence.
Qed.

Lemma shared_diseases_of_response_witness :
    In "Arthritis" ["Arthritis"; "Hip Dysplasia"] <->
    exists sb b d lt lb,
      In sb [mkSimilarBreed "Golden Retriever" "dog" (10000 # 10000);
             mkSimilarBreed "German Shepherd" "dog" (3333 # 10000);
             mkSimilarBreed "British Shorthair" "cat" (2333 # 10000)]
      /\ query_breed_first seed_store (sb_name sb) = Some b
      /\ In d (diseases seed_store) /\ Disease.name d = "Arthritis"
      /\ In lt (breed_disease_links seed_store)
      /\ BreedDiseaseLink.breed_id lt = 1
      /\ BreedDiseaseLink.disease_id lt = Disease.id d
      /\ In lb (breed_disease_links seed_store)
      /\ BreedDiseaseLink.breed_id lb = Breed.id b
      /\ BreedDiseaseLink.disease_id lb = Disease.id d.
Proof.
  exact (shared_diseases_of_response difflib.get_close_matches offline
           seed_store "Labrador Retriever" _
           (Breed.mk 1 "Labrador Retriever" "dog") seed_store_ok eq_refl
           labrador_analysis "Arthritis").
Defined.

(** ** The session *)

Lemma extends_refl (db : Store) : extends db db.
Proof. exists [], [], []. rewrite !app_nil_r. auto. Qed.

Lemma extends_trans (a b c : Store) : extends a b -> extends b c -> extends a c.
Proof.
  intros (bs & ds & ls & B1 & D1 & L1) (bs' & ds' & ls' & B2 & D2 & L2).
  exists (bs ++ bs'), (ds ++ ds'), (ls ++ ls').
  rewrite B2, D2, L2, B1, D1, L1, !app_assoc. auto.
Qed.

Lemma insert_row_extends (db db' : Store) (x : instance) :
  insert_row db x = Some db' -> extends db db'.
Proof.
  destruct x as [n sp | n | b d p]; simpl.
  - destruct (query_breed_first db n); [discriminate |]. intros [= <-].
    eexists _, [], []. simpl.
    split; [reflexivity | split; rewrite app_nil_r; reflexivity].
  - destruct (query_disease_first db n); [discriminate |]. intros [= <-].
    eexists [], _, []. simpl.
    split; [| split]; [rewrite app_nil_r | | rewrite app_nil_r]; reflexivity.
  - destruct (existsb _ _); [discriminate |]. intros [= <-].
    eexists [], [], _. simpl.
    split; [| split]; [rewrite app_nil_r | rewrite app_nil_r |]; reflexivity.
Qed.

Lemma flush_extends (db db' : Store) (xs : list instance) :
  flush db xs = Some db' -> extends db db'.
Proof.
  revert db. induction xs as [| x xs IH]; intros db; simpl.
  - intros [= <-]. apply extends_refl.
  - destruct (insert_row db x) as [db1 |] eqn:I; [| discriminate].
    intros F. eapply extends_trans; [eapply insert_row_extends, I | apply IH, F].
Qed.

Lemma pending_ok_extends (db db' : Store) (x : instance) :
  extends db db' -> pending_ok db x -> pending_ok db' x.
Proof.
  intros (bs & ds & ls & B & D & L). destruct x as [| | b d p]; simpl; auto.
  rewrite B, D, !map_app, !in_app_iff. tauto.
Qed.

Lemma next_id_fresh (ids : list Z) (i : Z) : In i ids -> i < next_id ids.
Proof.
  unfold next_id. induction ids as [| a ids IH]; simpl; [tauto |].
  intros [-> | H]; [lia |]. specialize (IH H). lia.
Qed.

Lemma NoDup_snoc {A} (l : list A) (x : A) :
  NoDup l -> ~ In x l -> NoDup (l ++ [x]).
Proof.
  intros N Nx. apply NoDup_app. split; [exact N |]. split.
  - intros y Hy Hx. apply list_elem_of_In in Hx. destruct Hx as [<- | []].
    apply Nx, list_elem_of_In, Hy.
  - apply NoDup_singleton.
Qed.

Lemma insert_row_ok (db db' : Store) (x : instance) :
  store_ok db -> pending_ok db x -> insert_row db x = Some db' -> store_ok db'.
Proof.
  intros OK P. destruct OK as [Bpk Bn Dpk Dn Lpk Fb Fd].
  destruct x as [n sp | n | b d p]; simpl.
  - destruct (query_breed_first db n) eqn:Q; [discriminate |]. intros [= <-].
    unfold query_breed_first in Q.
    split; simpl; try assumption.
    + rewrite map_app. apply NoDup_snoc; [exact Bpk |]. simpl.
      intros H. apply next_id_fresh in H. lia.
    + rewrite map_app. apply NoDup_snoc; [exact Bn |]. simpl.
      intros H. apply in_map_iff in H. destruct H as (b & E & Hb).
      apply (find_none _ _ Q) in Hb. apply String.eqb_neq in Hb. tauto.
    + intros l Hl. rewrite map_app. apply in_or_app. left. apply Fb, Hl.
  - destruct (query_disease_first db n) eqn:Q; [discriminate |]. intros [= <-].
    unfold query_disease_first in Q.
    split; simpl; try assumption.
    + rewrite map_app. apply NoDup_snoc; [exact Dpk |]. simpl.
      intros H. apply next_id_fresh in H. lia.
    + rewrite map_app. apply NoDup_snoc; [exact Dn |]. simpl.
      intros H. apply in_map_iff in H. destruct H as (d & E & Hd).
      apply (find_none _ _ Q) in Hd. apply String.eqb_neq in Hd. tauto.
    + intros l Hl. rewrite map_app. apply in_or_app. left. apply Fd, Hl.
  - destruct (existsb _ _) eqn:X; [discriminate |]. intros [= <-].
    destruct P as [Pb Pd].
    split; simpl; try assumption.
    + rewrite map_app. apply NoDup_snoc; [exact Lpk |]. simpl.
      intros H. apply in_map_iff in H. destruct H as (l & E & Hl).
      assert (T : existsb
                    (fun l => Z.eqb (BreedDiseaseLink.breed_id l) b
                              && Z.eqb (BreedDiseaseLink.disease_id l) d)
                    (breed_disease_links db) = true).
      { apply existsb_exists. exists l. split; [exact Hl |].
        unfold BreedDiseaseLink.key in E. injection E as -> ->.
        rewrite !Z.eqb_refl. reflexivity. }
      congruence.
    + intros l Hl. apply in_app_iff in Hl.
      destruct Hl as [Hl | [<- | []]]; [apply Fb, Hl | exact Pb].
    + intros l Hl. apply in_app_iff in Hl.
      destruct Hl as [Hl | [<- | []]]; [apply Fd, Hl | exact Pd].
Qed.

Lemma flush_ok (db db' : Store) (xs : list instance) :
  store_ok db -> Forall (pending_ok db) xs -> flush db xs = Some db' ->
  store_ok db'.
Proof.
  revert db. induction xs as [| x xs IH]; intros db OK P; simpl.
  - intros [= <-]. exact OK.
  - apply Forall_cons in P. destruct P as [Px P].
    destruct (insert_row db x) as [db1 |] eqn:I; [| discriminate].
    apply IH.
    + eapply insert_row_ok; eassumption.
    + eapply Forall_impl; [exact P |].
      intros y. apply pending_ok_extends. eapply insert_row_extends, I.
Qed.

Lemma bindM_inv {A B} (m : M A) (k : A -> M B) (s s' : Session) (r : result B) :
  bindM m k s = (r, s') ->
  (exists a s1, m s = (Ok a, s1) /\ k a s1 = (r, s'))
  \/ (exists e, m s = (Raise e, s') /\ r = Raise e).
Proof.
  unfold bindM. destruct (m s) as [[a | e] s1].
  - intros H. left. exists a, s1. auto.
  - intros [= <- <-]. right. exists e. auto.
Qed.

Lemma db_commit_step (s s' : Session) (r : result unit) :
  db_commit s = (r, s') ->
  extends (committed s) (committed s') /\ pending s' = []
  /\ (session_ok s -> session_ok s').
Proof.
  unfold db_commit. destruct (flush (committed s) (pending s)) as [db' |] eqn:F;
    intros [= <- <-]; simpl.
  - split; [eapply flush_extends, F |]. split; [reflexivity |].
    intros [OK P]. split; [eapply flush_ok; eassumption | constructor].
  - split; [apply extends_refl |]. split; [reflexivity |].
    intros [OK P]. split; [exact OK | constructor].
Qed.

Lemma db_add_step (x : instance) (s s' : Session) (r : result unit) :
  db_add x s = (r, s') ->
  r = Ok tt /\ committed s' = committed s /\ pending s' = pending s ++ [x]
  /\ (session_ok s -> pending_ok (committed s) x -> session_ok s').
Proof.
  unfold db_add. intros [= <- <-]. simpl.
  split; [reflexivity |]. split; [reflexivity |]. split; [reflexivity |].
  intros [OK P] Px. split; [exact OK |]. simpl.
  apply Forall_app. split; [exact P |]. constructor; [exact Px | constructor].
Qed.

Lemma create_disease_step (name : string) (s s' : Session)
    (r : result Disease.t) :
  create_disease name s = (r, s') ->
  extends (committed s) (committed s') /\ pending s' = []
  /\ (session_ok s -> session_ok s')
  /\ (forall d, r = Ok d -> query_disease_first (committed s') name = Some d).
Proof.
  unfold create_disease. intros H.
  apply bindM_inv in H. destruct H as [(u & s1 & A & H) | (e & A & _)];
    [| discriminate A].
  apply db_add_step in A. destruct A as (_ & C1 & P1 & OK1).
  apply bindM_inv in H. destruct H as [(u' & s2 & C & H) | (e & C & ->)].
  - apply db_commit_step in C. destruct C as (E2 & P2 & OK2).
    unfold refresh_disease, bindM, get_disease_by_name in H.
    assert (S : s' = s2 /\
                r = match query_disease_first (committed s2) name with
                    | Some d => Ok d
                    | None => Raise InvalidRequestError
                    end).
    { destruct (query_disease_first (committed s2) name);
        unfold ret, raise in H; injection H as <- <-; auto. }
    destruct S as [-> ->]. rewrite C1 in E2.
    split; [exact E2 |]. split; [exact P2 |]. split.
    + intros OK. apply OK2, OK1; [exact OK | exact I].
    + intros d. destruct (query_disease_first (committed s2) name);
        [intros [= <-]; reflexivity | discriminate].
  - apply db_commit_step in C. destruct C as (E2 & P2 & OK2).
    rewrite C1 in E2.
    split; [exact E2 |]. split; [exact P2 |]. split.
    + intros OK. apply OK2, OK1; [exact OK | exact I].
    + intros d D. discriminate D.
Qed.

Lemma in_breed_ids_extends (db db' : Store) (i : Z) :
  extends db db' -> In i (map Breed.id (breeds db)) ->
  In i (map Breed.id (breeds db')).
Proof.
  intros (bs & _ & _ & B & _). rewrite B, map_app, in_app_iff. tauto.
Qed.

Lemma handle_diseases_step (breed : Breed.t) (ds : list DiseaseCreateSchema.t)
    (s s' : Session) (r : result unit) :
  handle_diseases breed ds s = (r, s') ->
  extends (committed s) (committed s')
  /\ (session_ok s ->
      In (Breed.id breed) (map Breed.id (breeds (committed s))) ->
      session_ok s').
Proof.
  revert s. induction ds as [| d ds IH]; intros s; simpl.
  - intros [= <- <-]. split; [apply extends_refl | auto].
  - destruct (negb _).
    + intros [= <- <-]. split; [apply extends_refl | auto].
    + intros H. apply bindM_inv in H.
      destruct H as [(found & s0 & G & H) | (e & G & _)]; [| discriminate G].
      unfold get_disease_by_name in G. injection G as <- <-.
      apply bindM_inv in H. destruct H as [(disease & s1 & D & H) | (e & D & ->)].
      * assert (S1 : extends (committed s) (committed s1)
                     /\ (session_ok s -> session_ok s1)
                     /\ In disease (diseases (committed s1))).
        { destruct (query_disease_first (committed s)
                      (DiseaseCreateSchema.disease_name d)) as [d0 |] eqn:Q.
          - injection D as <- <-. split; [apply extends_refl |].
            split; [auto |]. apply find_some in Q. apply Q.
          - apply create_disease_step in D. destruct D as (E & _ & OK & F).
            split; [exact E |]. split; [exact OK |].
            specialize (F disease eq_refl). apply find_some in F. apply F. }
        destruct S1 as (E1 & OK1 & Hd).
        apply bindM_inv in H. destruct H as [(u & s2 & A & H) | (e & A & _)];
          [| discriminate A].
        apply db_add_step in A. destruct A as (_ & C2 & _ & OK2).
        apply IH in H. destruct H as [E3 OK3]. rewrite C2 in E3, OK3.
        split; [eapply extends_trans; eassumption |].
        intros OK Hb. apply OK3.
        -- apply OK2; [apply OK1, OK |]. simpl. split.
           ++ eapply in_breed_ids_extends; eassumption.
           ++ apply in_map, Hd.
        -- eapply in_breed_ids_extends; eassumption.
      * destruct (query_disease_first (committed s)
                    (DiseaseCreateSchema.disease_name d)); [discriminate D |].
        apply create_disease_step in D. destruct D as (E & _ & OK & _).
        split; [exact E | auto].
Qed.

Lemma refresh_breed_step (name : string) (s s' : Session) (r : result Breed.t) :
  refresh_breed name s = (r, s') ->
  s' = s
  /\ r = match query_breed_first (committed s) name with
         | Some b => Ok b
         | None => Raise InvalidRequestError
         end.
Proof.
  unfold refresh_breed, bindM, get_breed_by_name.
  destruct (query_breed_first (committed s) name); unfold ret, raise;
    intros [= <- <-]; auto.
Qed.

Lemma breed_response_step (breed : Breed.t) (s s' : Session)
    (r : result BreedResponseSchema) :
  breed_response breed s = (r, s') -> s' = s.
Proof. unfold breed_response. intros [= _ <-]. reflexivity. Qed.

Lemma create_breed_step (breed_data : BreedCreateSchema.t) (s s' : Session)
    (r : result BreedResponseSchema) :
  create_breed breed_data s = (r, s') ->
  extends (committed s) (committed s') /\ (session_ok s -> session_ok s').
Proof.
  unfold create_breed. destruct (negb _).
  { intros [= <- <-]. split; [apply extends_refl | auto]. }
  intros H. apply bindM_inv in H.
  destruct H as [(existing & s0 & G & H) | (e & G & _)]; [| discriminate G].
  unfold get_breed_by_name in G. injection G as <- <-.
  destruct (query_breed_first (committed s) (BreedCreateSchema.name breed_data)).
  { injection H as <- <-. split; [apply extends_refl | auto]. }
  apply bindM_inv in H. destruct H as [(u1 & s1 & A & H) | (e & A & _)];
    [| discriminate A].
  apply db_add_step in A. destruct A as (_ & C1 & _ & OK1).
  apply bindM_inv in H. destruct H as [(u2 & s2 & C & H) | (e & C & ->)];
    apply db_commit_step in C; destruct C as (E2 & _ & OK2); rewrite C1 in E2;
    [| split; [exact E2 | intros OK; apply OK2, OK1; [exact OK | exact I]]].
  apply bindM_inv in H. destruct H as [(breed & s3 & R & H) | (e & R & ->)];
    apply refresh_breed_step in R; destruct R as [-> R];
    [| split; [exact E2 | intros OK; apply OK2, OK1; [exact OK | exact I]]].
  assert (Hb : In (Breed.id breed) (map Breed.id (breeds (committed s2)))).
  { destruct (query_breed_first (committed s2) _) as [b |] eqn:Q;
      [| discriminate R].
    injection R as <-. apply find_some in Q. apply in_map, Q. }
  apply bindM_inv in H. destruct H as [(u4 & s4 & Hd & H) | (e & Hd & ->)];
    apply handle_diseases_step in Hd; destruct Hd as [E4 OK4];
    [| split; [eapply extends_trans; eassumption
              | intros OK; apply OK4; [apply OK2, OK1; [exact OK | exact I]
                                      | exact Hb]]].
  apply bindM_inv in H. destruct H as [(u5 & s5 & C & H) | (e & C & ->)];
    apply db_commit_step in C; destruct C as (E5 & _ & OK5);
    [| split; [eapply extends_trans; [| exact E5];
               eapply extends_trans; eassumption
              | intros OK; apply OK5, OK4; [apply OK2, OK1; [exact OK | exact I]
                                           | exact Hb]]].
  assert (S : s' = s5).
  { apply bindM_inv in H. destruct H as [(b6 & s6 & R6 & H) | (e & R6 & _)];
      apply refresh_breed_step in R6; destruct R6 as [-> _];
      [apply breed_response_step in H; exact H | reflexivity]. }
  subst s'. split.
  - eapply extends_trans; [| exact E5]. eapply extends_trans; eassumption.
  - intros OK. apply OK5, OK4; [apply OK2, OK1; [exact OK | exact I] | exact Hb].
Qed.

(** X13. A [POST /breeds] request only ever adds rows: whatever the body
    and whatever the outcome, the rows of the three tables before the
    request are still there afterwards, unchanged and in their places. *)
Theorem post_breeds_only_appends (db : Store) (body : BreedCreateSchema.t) :
  exists bs ds ls,
    breeds (snd (post_breeds db body)) = breeds db ++ bs
    /\ diseases (snd (post_breeds db body)) = diseases db ++ ds
    /\ breed_disease_links (snd (post_breeds db body))
       = breed_disease_links db ++ ls.
Proof.
  change (extends db (snd (post_breeds db body))).
  unfold post_breeds. destruct (BreedCreateSchema.validate body) as [breed | e].
  - destruct (create_breed breed (mkSession db [])) as [r s] eqn:C.
    apply create_breed_step in C. simpl. apply C.
  - simpl. apply extends_refl.
Qed.

(** X14. [POST /breeds] keeps the constraints of the tables: on a store
    that satisfies them, the store after the request satisfies them too,
    whatever the body and whether the request succeeds or fails. *)
Theorem post_breeds_keeps_constraints (db : Store) (body : BreedCreateSchema.t) :
  store_ok db -> store_ok (snd (post_breeds db body)).
Proof.
  intros OK. unfold post_breeds.
  destruct (BreedCreateSchema.validate body) as [breed | e]; [| exact OK].
  destruct (create_breed breed (mkSession db [])) as [r s] eqn:C.
  apply create_breed_step in C. simpl. destruct C as [_ K].
  apply K. split; [exact OK | constructor].
Qed.

Lemma post_breeds_keeps_constraints_witness :
  store_ok (snd (post_breeds seed_store collie_request)).
Proof.
  exact (post_breeds_keeps_constraints seed_store collie_request seed_store_ok).
Defined.

Lemma species_allowed_iff (species : string) :
  species_allowed species = true <-> species = "dog" \/ species = "cat".
Proof.
  unfold species_allowed. rewrite orb_true_iff, !String.eqb_eq. tauto.
Qed.

(** X15. A breed whose species is neither "dog" nor "cat" (compared as
    written, so "Dog" is refused too) is rejected by [create_breed] with
    "Species must be 'dog' or 'cat'." (400) before the name is looked up
    and before anything is added: the session is left as it was, and the
    store after the request is the store before it, with a 4xx status. *)
Theorem invalid_species_rejected (s : Session) (breed_data : BreedCreateSchema.t) :
  BreedCreateSchema.species breed_data <> "dog" ->
  BreedCreateSchema.species breed_data <> "cat" ->
  create_breed breed_data s
  = (Raise (HTTPException 400 "Species must be 'dog' or 'cat'."), s)
  /\ snd (post_breeds (committed s) breed_data) = committed s
  /\ 400 <= status (fst (post_breeds (committed s) breed_data)) < 500.
Proof.
  intros Nd Nc.
  assert (A : species_allowed (BreedCreateSchema.species breed_data) = false).
  { destruct (species_allowed _) eqn:E; [| reflexivity].
    apply species_allowed_iff in E. tauto. }
  assert (C : forall s0,
             create_breed breed_data s0
             = (Raise (HTTPException 400 "Species must be 'dog' or 'cat'."), s0)).
  { intros s0. unfold create_breed. rewrite A. reflexivity. }
  split; [apply C |].
  unfold post_breeds, BreedCreateSchema.validate.
  destruct (forallb _ _); simpl.
  - rewrite C. simpl. unfold HTTP_400_BAD_REQUEST. split; [reflexivity | lia].
  - unfold HTTP_422_UNPROCESSABLE_ENTITY. split; [reflexivity | lia].
Qed.

Lemma invalid_species_rejected_witness :
  create_breed parrot_request (mkSession seed_store [])
  = (Raise (HTTPException 400 "Species must be 'dog' or 'cat'."),
     mkSession seed_store [])
  /\ snd (post_breeds seed_store parrot_request) = seed_store
  /\ 400 <= status (fst (post_breeds seed_store parrot_request)) < 500.
Proof.
  apply (invalid_species_rejected (mkSession seed_store []) parrot_request);
    discriminate.
Defined.

Lemma grows_bind {A B} (m : M A) (k : A -> M B) :
  grows m -> (forall a, grows (k a)) -> grows (bindM m k).
Proof.
  intros Gm Gk s r s' H. apply bindM_inv in H.
  destruct H as [(a & s1 & Hm & Hk) | (e & Hm & _)].
  - eapply extends_trans; [eapply Gm, Hm | eapply Gk, Hk].
  - eapply Gm, Hm.
Qed.

Lemma grows_refresh_breed (name : string) : grows (refresh_breed name).
Proof.
  intros s r s' H. apply refresh_breed_step in H. destruct H as [-> _].
  apply extends_refl.
Qed.

Lemma grows_handle_diseases (breed : Breed.t) (ds : list DiseaseCreateSchema.t) :
  grows (handle_diseases breed ds).
Proof. intros s r s' H. apply handle_diseases_step in H. apply H. Qed.

Lemma grows_db_commit : grows db_commit.
Proof. intros s r s' H. apply db_commit_step in H. apply H. Qed.

Lemma grows_breed_response (breed : Breed.t) : grows (breed_response breed).
Proof.
  intros s r s' H. apply breed_response_step in H. subst s'.
  apply extends_refl.
Qed.

(** What [create_breed] does once the species and the name are accepted:
    the breed row is committed first, the rest runs on the store that has
    it. *)
Lemma create_breed_fresh (breed_data : BreedCreateSchema.t) (db : Store) :
  species_allowed (BreedCreateSchema.species breed_data) = true ->
  query_breed_first db (BreedCreateSchema.name breed_data) = None ->
  create_breed breed_data (mkSession db [])
  = bindM (refresh_breed (BreedCreateSchema.name breed_data))
      (fun breed =>
         bindM (handle_diseases breed (BreedCreateSchema.diseases breed_data))
           (fun _ =>
              bindM db_commit
                (fun _ =>
                   bindM (refresh_breed (BreedCreateSchema.name breed_data))
                     (fun breed => breed_response breed))))
      (mkSession
         (mkStore
            (breeds db
             ++ [Breed.mk (next_id (map Breed.id (breeds db)))
                   (BreedCreateSchema.name breed_data)
                   (BreedCreateSchema.species breed_data)])
            (diseases db) (breed_disease_links db))
         []).
Proof.
  intros A Q. unfold create_breed. rewrite A.
  unfold bindM, get_breed_by_name, db_add, db_commit.
  cbn [negb committed pending app flush insert_row]. rewrite Q.
  cbn [negb committed pending app flush insert_row]. rewrite Q. reflexivity.
Qed.

Lemma find_app_l {A} (p : A -> bool) (l k : list A) (x : A) :
  List.find p l = Some x -> List.find p (l ++ k) = Some x.
Proof.
  induction l as [| a l IH]; simpl; [discriminate |].
  destruct (p a); [auto | exact IH].
Qed.

Lemma find_app_r {A} (p : A -> bool) (l k : list A) :
  List.find p l = None -> List.find p (l ++ k) = List.find p k.
Proof.
  induction l as [| a l IH]; simpl; [reflexivity |].
  destruct (p a); [discriminate | exact IH].
Qed.

Lemma query_breed_first_extends (db db' : Store) (n : string) (b : Breed.t) :
  extends db db' -> query_breed_first db n = Some b ->
  query_breed_first db' n = Some b.
Proof.
  intros (bs & _ & _ & B & _) Q. unfold query_breed_first in *. rewrite B.
  apply find_app_l, Q.
Qed.

Lemma grows_create_breed_rest (breed_data : BreedCreateSchema.t) :
  grows
    (bindM (refresh_breed (BreedCreateSchema.name breed_data))
       (fun breed =>
          bindM (handle_diseases breed (BreedCreateSchema.diseases breed_data))
            (fun _ =>
               bindM db_commit
                 (fun _ =>
                    bindM (refresh_breed (BreedCreateSchema.name breed_data))
                      (fun breed => breed_response breed))))).
Proof.
  apply grows_bind; [apply grows_refresh_breed | intros breed].
  apply grows_bind; [apply grows_handle_diseases | intros _].
  apply grows_bind; [apply grows_db_commit | intros _].
  apply grows_bind; [apply grows_refresh_breed | apply grows_breed_response].
Qed.

Lemma validate_Ok (body body' : BreedCreateSchema.t) :
  BreedCreateSchema.validate body = Ok body' -> body' = body.
Proof.
  unfold BreedCreateSchema.validate. destruct (forallb _ _); [| discriminate].
  intros [= <-]. reflexivity.
Qed.

Lemma create_breed_writes_breed (db : Store) (body : BreedCreateSchema.t)
    (r : result BreedResponseSchema) (s : Session) :
  species_allowed (BreedCreateSchema.species body) = true ->
  query_breed_first db (BreedCreateSchema.name body) = None ->
  create_breed body (mkSession db []) = (r, s) ->
  query_breed_first (committed s) (BreedCreateSchema.name body)
  = Some (Breed.mk (next_id (map Breed.id (breeds db)))
            (BreedCreateSchema.name body) (BreedCreateSchema.species body)).
Proof.
  intros A HQ C. rewrite (create_breed_fresh body db A HQ) in C.
  apply grows_create_breed_rest in C.
  eapply query_breed_first_extends; [exact C |].
  unfold query_breed_first in *. simpl.
  rewrite (find_app_r _ _ _ HQ). simpl. rewrite String.eqb_refl. reflexivity.
Qed.

(** X16. The breed row is written before the diseases are handled: for a
    request that passes validation, with an allowed species and a name not
    yet registered, the store after the request has the breed, under the
    next free id and with the species of the request, whether or not the
    rest of the request succeeds. *)
Theorem breed_row_written_first (db : Store) (body : BreedCreateSchema.t) :
  BreedCreateSchema.validate body = Ok body ->
  species_allowed (BreedCreateSchema.species body) = true ->
  query_breed_first db (BreedCreateSchema.name body) = None ->
  query_breed_first (snd (post_breeds db body)) (BreedCreateSchema.name body)
  = Some (Breed.mk (next_id (map Breed.id (breeds db)))
            (BreedCreateSchema.name body) (BreedCreateSchema.species body)).
Proof.
  intros V A HQ. unfold post_breeds. rewrite V.
  destruct (create_breed body (mkSession db [])) as [r s] eqn:C. simpl.
  eapply create_breed_writes_breed; eassumption.
Qed.

(** A request that lists one disease twice ends in an internal error, and
    the breed it names is registered all the same. *)
Lemma breed_row_written_first_witness :
  status (fst (post_breeds seed_store twice_request)) = 500
  /\ query_breed_first (snd (post_breeds seed_store twice_request)) "Collie"
     = Some (Breed.mk 11 "Collie" "dog").
Proof.
  split; [reflexivity |].
  exact (breed_row_written_first seed_store twice_request eq_refl eq_refl
           eq_refl).
Defined.

Lemma create_breed_existing (breed_data : BreedCreateSchema.t) (s : Session)
    (existing : Breed.t) :
  species_allowed (BreedCreateSchema.species breed_data) = true ->
  query_breed_first (committed s) (BreedCreateSchema.name breed_data)
  = Some existing ->
  create_breed breed_data s
  = (Raise (HTTPException 400 "Breed already exists."), s).
Proof.
  intros A HQ. unfold create_breed. rewrite A. simpl.
  unfold bindM, get_breed_by_name. rewrite HQ. reflexivity.
Qed.

(** X17. Sending a registration a second time never succeeds and changes
    nothing: for a request that passes validation and has an allowed
    species, the same request sent against the store the first one left
    is answered with 400 "Breed already exists." and leaves that store as
    it is. *)
Theorem resubmission_rejected (db : Store) (body : BreedCreateSchema.t) :
  BreedCreateSchema.validate body = Ok body ->
  species_allowed (BreedCreateSchema.species body) = true ->
  post_breeds (snd (post_breeds db body)) body
  = (mkResponse 400 (Raise (HTTPException 400 "Breed already exists.")),
     snd (post_breeds db body)).
Proof.
  intros V A.
  assert (E : exists b,
             query_breed_first (snd (post_breeds db body))
               (BreedCreateSchema.name body) = Some b).
  { destruct (query_breed_first db (BreedCreateSchema.name body)) as [b |] eqn:HQ.
    - exists b. unfold post_breeds. rewrite V.
      rewrite (create_breed_existing body (mkSession db []) b A HQ). exact HQ.
    - eexists. unfold post_breeds. rewrite V.
      destruct (create_breed body (mkSession db [])) as [r s] eqn:C. simpl.
      eapply create_breed_writes_breed; eassumption. }
  destruct E as [b E].
  set (db' := snd (post_breeds db body)) in *.
  unfold post_breeds at 1. rewrite V.
  rewrite (create_breed_existing body (mkSession db' []) b A E). reflexivity.
Qed.

Lemma resubmission_rejected_witness :
  post_breeds (snd (post_breeds seed_store collie_request)) collie_request
  = (mkResponse 400 (Raise (HTTPException 400 "Breed already exists.")),
     snd (post_breeds seed_store collie_request)).
Proof.
  exact (resubmission_rejected seed_store collie_request eq_refl eq_refl).
Defined.

(** ** A registration that succeeds *)

Lemma flush_app (db : Store) (xs ys : list instance) :
  flush db (xs ++ ys)
  = match flush db xs with
    | Some db' => flush db' ys
    | None => None
    end.
Proof.
  revert db. induction xs as [| x xs IH]; intros db; simpl; [reflexivity |].
  destruct (insert_row db x); [apply IH | reflexivity].
Qed.

Lemma flush_links (c : Store) (P : list BreedDiseaseLink.t) :
  NoDup (map BreedDiseaseLink.key (breed_disease_links c ++ P)) ->
  flush c (map link_instance P)
  = Some (mkStore (breeds c) (diseases c) (breed_disease_links c ++ P)).
Proof.
  revert c. induction P as [| l P IH]; intros c N; simpl.
  - rewrite app_nil_r. destruct c. reflexivity.
  - assert (X : existsb
                  (fun l' => Z.eqb (BreedDiseaseLink.breed_id l')
                               (BreedDiseaseLink.breed_id l)
                             && Z.eqb (BreedDiseaseLink.disease_id l')
                                  (BreedDiseaseLink.disease_id l))
                  (breed_disease_links c) = false).
    { destruct (existsb _ _) eqn:X; [exfalso | reflexivity].
      apply existsb_exists in X. destruct X as (l' & Hl' & E).
      apply andb_true_iff in E. rewrite !Z.eqb_eq in E. destruct E as [E1 E2].
      rewrite map_app in N. apply NoDup_app in N. destruct N as (_ & D & _).
      apply (D (BreedDiseaseLink.key l')).
      - apply list_elem_of_In, in_map, Hl'.
      - apply list_elem_of_In. left. unfold BreedDiseaseLink.key. congruence. }
    rewrite X.
    replace (BreedDiseaseLink.mk (BreedDiseaseLink.breed_id l)
               (BreedDiseaseLink.disease_id l) (BreedDiseaseLink.prevalence l))
      with l by (destruct l; reflexivity).
    rewrite IH; simpl.
    + rewrite <- app_assoc. reflexivity.
    + rewrite <- app_assoc. exact N.
Qed.

Lemma register_diseases_prefix (dis : list Disease.t)
    (ds : list DiseaseCreateSchema.t) :
  exists suffix, register_diseases dis ds = dis ++ suffix.
Proof.
  unfold register_diseases. revert dis.
  induction ds as [| d ds IH]; intros dis; simpl.
  - exists []. rewrite app_nil_r. reflexivity.
  - destruct (List.find _ dis); [apply IH |].
    destruct (IH (dis ++ [Disease.mk (next_id (map Disease.id dis))
                            (DiseaseCreateSchema.disease_name d)]))
      as [suffix E].
    rewrite E, <- app_assoc. eexists. reflexivity.
Qed.

Lemma id_by_name_prefix (dis suffix : list Disease.t) (n : string) (r : Disease.t) :
  List.find (fun r => String.eqb (Disease.name r) n) dis = Some r ->
  id_by_name (dis ++ suffix) n = Disease.id r.
Proof.
  intros F. unfold id_by_name. rewrite (find_app_l _ _ _ _ F). reflexivity.
Qed.

Lemma register_diseases_ids (dis : list Disease.t)
    (ds : list DiseaseCreateSchema.t) :
  NoDup (map Disease.id dis) -> NoDup (map Disease.id (register_diseases dis ds)).
Proof.
  unfold register_diseases. revert dis.
  induction ds as [| d ds IH]; intros dis N; simpl; [exact N |].
  destruct (List.find _ dis); [apply IH, N |].
  apply IH. rewrite map_app. apply NoDup_snoc; [exact N |]. simpl.
  intros H. apply next_id_fresh in H. lia.
Qed.

Lemma register_diseases_finds (dis : list Disease.t)
    (ds : list DiseaseCreateSchema.t) (d : DiseaseCreateSchema.t) :
  In d ds ->
  exists r,
    List.find (fun r => String.eqb (Disease.name r)
                          (DiseaseCreateSchema.disease_name d))
      (register_diseases dis ds) = Some r.
Proof.
  revert dis. induction ds as [| d0 ds IH]; intros dis; [intros [] |].
  intros [-> | H].
  - change (register_diseases dis (d :: ds))
      with (register_diseases
              (match List.find
                       (fun r => String.eqb (Disease.name r)
                                   (DiseaseCreateSchema.disease_name d)) dis with
               | Some _ => dis
               | None =>
                   dis ++ [Disease.mk (next_id (map Disease.id dis))
                             (DiseaseCreateSchema.disease_name d)]
               end) ds).
    destruct (List.find _ dis) as [r |] eqn:F.
    + destruct (register_diseases_prefix dis ds) as [suffix ->].
      exists r. apply find_app_l, F.
    + destruct (register_diseases_prefix
                  (dis ++ [Disease.mk (next_id (map Disease.id dis))
                             (DiseaseCreateSchema.disease_name d)]) ds)
        as [suffix ->].
      eexists. apply find_app_l. rewrite (find_app_r _ _ _ F). simpl.
      rewrite String.eqb_refl. reflexivity.
  - apply IH, H.
Qed.

Lemma create_disease_fresh (name : string) (c : Store)
    (P : list BreedDiseaseLink.t) :
  NoDup (map BreedDiseaseLink.key (breed_disease_links c ++ P)) ->
  query_disease_first c name = None ->
  create_disease name (mkSession c (map link_instance P))
  = (Ok (Disease.mk (next_id (map Disease.id (diseases c))) name),
     mkSession
       (mkStore (breeds c)
          (diseases c ++ [Disease.mk (next_id (map Disease.id (diseases c))) name])
          (breed_disease_links c ++ P))
       []).
Proof.
  intros N HQ. unfold create_disease, bindM, db_add, db_commit. simpl.
  rewrite flush_app, (flush_links c P N). simpl.
  unfold query_disease_first in *. simpl. rewrite HQ.
  unfold refresh_disease, bindM, get_disease_by_name, query_disease_first. simpl.
  rewrite (find_app_r _ _ _ HQ). simpl. rewrite String.eqb_refl. reflexivity.
Qed.

Lemma valid_prevalence (d : DiseaseCreateSchema.t) :
  DiseaseCreateSchema.valid d = true ->
  negb (Qle_bool 0 (DiseaseCreateSchema.prevalence d)
        && Qle_bool (DiseaseCreateSchema.prevalence d) 1) = false.
Proof. unfold DiseaseCreateSchema.valid. intros ->. reflexivity. Qed.

Lemma handle_diseases_registers (breed : Breed.t)
    (ds : list DiseaseCreateSchema.t) :
  forall (c : Store) (P : list BreedDiseaseLink.t),
    Forall (fun d => DiseaseCreateSchema.valid d = true) ds ->
    NoDup (map BreedDiseaseLink.key
             (breed_disease_links c ++ P
              ++ map (new_link (Breed.id breed)
                        (register_diseases (diseases c) ds)) ds)) ->
    exists P1 P2,
      handle_diseases breed ds (mkSession c (map link_instance P))
      = (Ok tt,
         mkSession
           (mkStore (breeds c) (register_diseases (diseases c) ds)
              (breed_disease_links c ++ P1))
           (map link_instance P2))
      /\ P1 ++ P2
         = P ++ map (new_link (Breed.id breed)
                       (register_diseases (diseases c) ds)) ds.
Proof.
  induction ds as [| d ds IH]; intros c P V N.
  - exists [], P. simpl. rewrite !app_nil_r. destruct c. auto.
  - apply Forall_cons in V. destruct V as [Vd V].
    simpl handle_diseases. rewrite (valid_prevalence d Vd).
    unfold bindM at 1. unfold get_disease_by_name at 1. simpl committed.
    change (register_diseases (diseases c) (d :: ds))
      with (register_diseases
              (match query_disease_first c (DiseaseCreateSchema.disease_name d) with
               | Some _ => diseases c
               | None =>
                   diseases c
                   ++ [Disease.mk (next_id (map Disease.id (diseases c)))
                         (DiseaseCreateSchema.disease_name d)]
               end) ds) in *.
    destruct (query_disease_first c (DiseaseCreateSchema.disease_name d))
      as [r |] eqn:HQ.
    + set (disF := register_diseases (diseases c) ds) in *.
      assert (L : new_link (Breed.id breed) disF d
                  = BreedDiseaseLink.mk (Breed.id breed) (Disease.id r)
                      (DiseaseCreateSchema.prevalence d)).
      { unfold new_link. f_equal. unfold disF.
        destruct (register_diseases_prefix (diseases c) ds) as [suffix ->].
        apply id_by_name_prefix, HQ. }
      unfold bindM at 1. unfold ret at 1. unfold bindM at 1. unfold db_add at 1.
      simpl committed. simpl pending.
      change (NewLink (Breed.id breed) (Disease.id r)
                (DiseaseCreateSchema.prevalence d))
        with (link_instance
                (BreedDiseaseLink.mk (Breed.id breed) (Disease.id r)
                   (DiseaseCreateSchema.prevalence d))).
      rewrite <- L.
      change (map link_instance P ++ [link_instance (new_link (Breed.id breed) disF d)])
        with (map link_instance P ++ map link_instance [new_link (Breed.id breed) disF d]).
      rewrite <- map_app.
      destruct (IH c (P ++ [new_link (Breed.id breed) disF d]) V) as (P1 & P2 & H & E).
      { fold disF. rewrite <- app_assoc. exact N. }
      exists P1, P2. fold disF in H, E. split; [exact H |].
      rewrite E, <- app_assoc. reflexivity.
    + set (newd := Disease.mk (next_id (map Disease.id (diseases c)))
                     (DiseaseCreateSchema.disease_name d)) in *.
      set (disF := register_diseases (diseases c ++ [newd]) ds) in *.
      assert (NP : NoDup (map BreedDiseaseLink.key (breed_disease_links c ++ P))).
      { rewrite app_assoc, map_app in N. apply NoDup_app in N. apply N. }
      assert (L : new_link (Breed.id breed) disF d
                  = BreedDiseaseLink.mk (Breed.id breed) (Disease.id newd)
                      (DiseaseCreateSchema.prevalence d)).
      { unfold new_link. f_equal. unfold disF.
        destruct (register_diseases_prefix (diseases c ++ [newd]) ds)
          as [suffix ->].
        apply id_by_name_prefix. rewrite (find_app_r _ _ _ HQ). simpl.
        rewrite String.eqb_refl. reflexivity. }
      unfold bindM at 1.
      rewrite (create_disease_fresh _ c P NP HQ). fold newd.
      unfold bindM at 1. unfold db_add at 1. simpl committed. simpl pending.
      change (NewLink (Breed.id breed) (Disease.id newd)
                (DiseaseCreateSchema.prevalence d))
        with (link_instance
                (BreedDiseaseLink.mk (Breed.id breed) (Disease.id newd)
                   (DiseaseCreateSchema.prevalence d))).
      rewrite <- L.
      change ([] ++ [link_instance (new_link (Breed.id breed) disF d)])
        with (map link_instance [new_link (Breed.id breed) disF d]).
      destruct (IH (mkStore (breeds c) (diseases c ++ [newd])
                      (breed_disease_links c ++ P))
                  [new_link (Breed.id breed) disF d] V) as (P1 & P2 & H & E).
      { simpl. fold disF. rewrite <- !app_assoc. exact N. }
      cbn [committed breeds diseases breed_disease_links] in H, E.
      fold disF in H, E.
      exists (P ++ P1), P2. split.
      * rewrite H, <- app_assoc. reflexivity.
      * rewrite <- app_assoc, E. reflexivity.
Qed.

Lemma id_by_name_inj (dis : list Disease.t) (ds : list DiseaseCreateSchema.t)
    (a b : DiseaseCreateSchema.t) :
  NoDup (map Disease.id dis) -> In a ds -> In b ds ->
  id_by_name (register_diseases dis ds) (DiseaseCreateSchema.disease_name a)
  = id_by_name (register_diseases dis ds) (DiseaseCreateSchema.disease_name b) ->
  DiseaseCreateSchema.disease_name a = DiseaseCreateSchema.disease_name b.
Proof.
  intros N Ha Hb. unfold id_by_name.
  destruct (register_diseases_finds dis ds a Ha) as [ra Fa].
  destruct (register_diseases_finds dis ds b Hb) as [rb Fb].
  rewrite Fa, Fb. intros E.
  apply find_some in Fa, Fb. destruct Fa as [Ia Ea], Fb as [Ib Eb].
  apply String.eqb_eq in Ea, Eb.
  assert (ra = rb).
  { eapply NoDup_map_inj_on; [apply (register_diseases_ids dis ds N) | ..];
      eassumption. }
  congruence.
Qed.

Lemma registered_keys (db : Store) (ds : list DiseaseCreateSchema.t) :
  store_ok db ->
  NoDup (map DiseaseCreateSchema.disease_name ds) ->
  NoDup
    (map BreedDiseaseLink.key
       (breed_disease_links db
        ++ map (new_link (next_id (map Breed.id (breeds db)))
                  (register_diseases (diseases db) ds)) ds)).
Proof.
  intros OK Nn. rewrite map_app. apply NoDup_app. split; [| split].
  - apply (link_pk db OK).
  - intros k Hk Hk'. apply list_elem_of_In, in_map_iff in Hk, Hk'.
    destruct Hk as (l & <- & Hl). destruct Hk' as (l' & E & Hl').
    apply in_map_iff in Hl'. destruct Hl' as (d & <- & _).
    unfold BreedDiseaseLink.key in E. simpl in E. injection E as E _.
    pose proof (link_breed_fk db OK l Hl) as FK. apply next_id_fresh in FK. lia.
  - rewrite map_map. apply NoDup_ListNoDup, NoDup_map_NoDup_ForallPairs.
    + intros a b Ha Hb E. unfold BreedDiseaseLink.key in E. simpl in E.
      injection E as E.
      apply (id_by_name_inj _ _ a b (disease_pk db OK) Ha Hb) in E.
      eapply NoDup_map_inj_on; [exact Nn | assumption..].
    + apply NoDup_ListNoDup. eapply NoDup_fmap_1. exact Nn.
Qed.

Lemma disease_responses_skip (db : Store) (breed : Breed.t)
    (old rest : list BreedDiseaseLink.t) :
  (forall l, In l old -> BreedDiseaseLink.breed_id l <> Breed.id breed) ->
  disease_responses db breed (old ++ rest) = disease_responses db breed rest.
Proof.
  induction old as [| l old IH]; simpl; intros No; [reflexivity |].
  destruct (Z.eqb_spec (BreedDiseaseLink.breed_id l) (Breed.id breed)) as [E | _].
  - exfalso. apply (No l); [left; reflexivity | exact E].
  - apply IH. intros l' Hl'. apply No. right. exact Hl'.
Qed.

Lemma disease_responses_new (db : Store) (breed : Breed.t)
    (ds : list DiseaseCreateSchema.t) :
  NoDup (map Disease.id (diseases db)) ->
  (forall d, In d ds ->
     exists r,
       List.find (fun r => String.eqb (Disease.name r)
                             (DiseaseCreateSchema.disease_name d))
         (diseases db) = Some r) ->
  disease_responses db breed (map (new_link (Breed.id breed) (diseases db)) ds)
  = Ok (map (fun d =>
               mkDiseaseResponse (DiseaseCreateSchema.disease_name d)
                 (DiseaseCreateSchema.prevalence d)) ds).
Proof.
  intros N. induction ds as [| d ds IH]; intros Found; simpl; [reflexivity |].
  rewrite Z.eqb_refl.
  destruct (Found d (or_introl eq_refl)) as [r F].
  unfold id_by_name. rewrite F.
  apply find_some in F. destruct F as [Hr Er]. apply String.eqb_eq in Er.
  destruct (List.find (fun d0 => Z.eqb (Disease.id d0) (Disease.id r))
              (diseases db)) as [r' |] eqn:F'.
  - apply find_some in F'. destruct F' as [Hr' Er']. apply Z.eqb_eq in Er'.
    assert (r' = r) by (eapply NoDup_map_inj_on; eassumption). subst r'.
    rewrite IH by (intros d' Hd'; apply Found; right; exact Hd').
    simpl. rewrite Er. reflexivity.
  - exfalso. apply (find_none _ _ F') in Hr. rewrite Z.eqb_refl in Hr.
    discriminate Hr.
Qed.

Lemma validate_valid (body : BreedCreateSchema.t) :
  BreedCreateSchema.validate body = Ok body ->
  Forall (fun d => DiseaseCreateSchema.valid d = true)
    (BreedCreateSchema.diseases body).
Proof.
  unfold BreedCreateSchema.validate.
  destruct (forallb _ _) eqn:F; [| discriminate]. intros _.
  apply List.Forall_forall. apply forallb_forall, F.
Qed.

Lemma refresh_breed_found (name : string) (s : Session) (b : Breed.t) :
  query_breed_first (committed s) name = Some b ->
  refresh_breed name s = (Ok b, s).
Proof.
  intros HQ. unfold refresh_breed, bindM, get_breed_by_name. rewrite HQ.
  reflexivity.
Qed.

Lemma insert_sorted_map {A B} (before : B -> B -> bool) (f : A -> B) (x : A)
    (l : list A) :
  insert_sorted before (f x) (map f l)
  = map f (insert_sorted (fun a b => before (f a) (f b)) x l).
Proof.
  induction l as [| y l IH]; simpl; [reflexivity |].
  destruct (before (f x) (f y)); simpl; [reflexivity |].
  rewrite IH. reflexivity.
Qed.

Lemma stable_sort_map {A B} (before : B -> B -> bool) (f : A -> B) (l : list A) :
  stable_sort before (map f l)
  = map f (stable_sort (fun a b => before (f a) (f b)) l).
Proof.
  induction l as [| x l IH]; simpl; [reflexivity |].
  rewrite IH. apply insert_sorted_map.
Qed.

(** The links of a breed that was just registered are the new ones. *)
Lemma filter_new_links (bid : Z) (dis : list Disease.t)
    (old : list BreedDiseaseLink.t) (ds : list DiseaseCreateSchema.t) :
  (forall l, In l old -> BreedDiseaseLink.breed_id l <> bid) ->
  List.filter (fun l => Z.eqb (BreedDiseaseLink.breed_id l) bid)
    (old ++ map (new_link bid dis) ds)
  = map (new_link bid dis) ds.
Proof.
  intros No. rewrite List.filter_app.
  replace (List.filter _ old) with (@nil BreedDiseaseLink.t).
  - simpl. induction ds as [| d ds IH]; simpl; [reflexivity |].
    rewrite Z.eqb_refl, IH. reflexivity.
  - symmetry. induction old as [| l old IH]; simpl; [reflexivity |].
    destruct (Z.eqb_spec (BreedDiseaseLink.breed_id l) bid) as [E | _].
    + exfalso. apply (No l); [left; reflexivity | exact E].
    + apply IH. intros l' Hl'. apply No. right. exact Hl'.
Qed.

(** X18. A registration that succeeds: on a store that satisfies its
    constraints, a request that passes validation, has an allowed species,
    a name not yet registered and no disease listed twice is answered with
    201 and the request's own name and species; the response lists the
    diseases of the request, each once, in the order of the ids of their
    disease rows and not in the order of the request.  The store afterwards
    is the store before with the breed added under the next free id, a row
    added for each disease named for the first time, and one link added per
    listed disease. *)
Theorem registration_succeeds (db : Store) (body : BreedCreateSchema.t) :
  store_ok db ->
  BreedCreateSchema.validate body = Ok body ->
  species_allowed (BreedCreateSchema.species body) = true ->
  query_breed_first db (BreedCreateSchema.name body) = None ->
  NoDup (map DiseaseCreateSchema.disease_name (BreedCreateSchema.diseases body)) ->
  post_breeds db body
  = (mkResponse 201 (Ok (registration_response db body)), registered db body)
  /\ Permutation (br_diseases (registration_response db body))
       (listed (BreedCreateSchema.diseases body)).
Proof.
  intros OK V A HQ Nn. split;
    [| apply Permutation_map, stable_sort_perm].
  unfold post_breeds. rewrite V.
  rewrite (create_breed_fresh body db A HQ).
  set (bid := next_id (map Breed.id (breeds db))).
  set (newb := Breed.mk bid (BreedCreateSchema.name body)
                 (BreedCreateSchema.species body)).
  set (db1 := mkStore (breeds db ++ [newb]) (diseases db) (breed_disease_links db)).
  unfold registration_response.
  set (ds := BreedCreateSchema.diseases body) in *.
  set (disF := register_diseases (diseases db) ds).
  assert (Q1 : forall dis ls,
             query_breed_first (mkStore (breeds db ++ [newb]) dis ls)
               (BreedCreateSchema.name body) = Some newb).
  { intros dis ls. unfold query_breed_first in *. simpl.
    rewrite (find_app_r _ _ _ HQ). simpl. rewrite String.eqb_refl. reflexivity. }
  assert (K : NoDup (map BreedDiseaseLink.key
                       (breed_disease_links db ++ map (new_link bid disF) ds)))
    by apply (registered_keys db ds OK Nn).
  destruct (handle_diseases_registers newb ds db1 [] (validate_valid body V))
    as (P1 & P2 & H & E).
  { simpl. exact K. }
  simpl in H, E. fold disF in H, E. fold bid in E.
  unfold bindM at 1. rewrite (refresh_breed_found _ (mkSession db1 []) newb (Q1 _ _)).
  unfold bindM at 1. rewrite H.
  unfold bindM at 1. unfold db_commit at 1. simpl committed. simpl pending.
  rewrite flush_links; simpl breed_disease_links;
    [| rewrite <- app_assoc, E; exact K].
  simpl breeds. simpl diseases. rewrite <- app_assoc, E.
  unfold bindM at 1.
  rewrite (refresh_breed_found _
             (mkSession
                (mkStore (breeds db ++ [newb]) disF
                   (breed_disease_links db ++ map (new_link bid disF) ds))
                [])
             newb (Q1 _ _)).
  unfold breed_response, breed_diseases.
  cbn [committed breed_disease_links]. change (Breed.id newb) with bid.
  rewrite filter_new_links.
  - rewrite stable_sort_map.
    set (sorted_ds :=
           stable_sort
             (fun a b => key_leb (new_link bid disF a) (new_link bid disF b)) ds).
    assert (S : sorted_ds
                = stable_sort
                    (fun d1 d2 =>
                       Z.leb (id_by_name disF (DiseaseCreateSchema.disease_name d1))
                             (id_by_name disF (DiseaseCreateSchema.disease_name d2)))
                    ds).
    { unfold sorted_ds. f_equal.
      unfold key_leb, new_link. simpl.
      rewrite Z.ltb_irrefl, Z.eqb_refl. reflexivity. }
    pose proof (disease_responses_new
                  (mkStore (breeds db ++ [newb]) disF
                     (breed_disease_links db ++ map (new_link bid disF) ds))
                  newb sorted_ds) as R.
    cbn [diseases] in R. change (Breed.id newb) with bid in R.
    rewrite R.
    + rewrite S. reflexivity.
    + apply register_diseases_ids, (disease_pk db OK).
    + intros d Hd. apply register_diseases_finds.
      unfold sorted_ds in Hd. apply stable_sort_In in Hd. exact Hd.
  - intros l Hl E'. pose proof (link_breed_fk db OK l Hl) as FK.
    apply next_id_fresh in FK. fold bid in FK. lia.
Qed.

Lemma registration_succeeds_witness :
  post_breeds seed_store collie_request
  = (mkResponse 201 (Ok (registration_response seed_store collie_request)),
     registered seed_store collie_request)
  /\ Permutation
       (br_diseases (registration_response seed_store collie_request))
       (listed (BreedCreateSchema.diseases collie_request)).
Proof.
  apply (registration_succeeds seed_store collie_request seed_store_ok);
    try reflexivity.
  apply (bool_decide_unpack _). vm_compute. exact I.
Defined.

(** The response to the registration of "Collie" lists "Diabetes", which
    has the row 2, before "Epilepsy", which is given the row 6, though the
    request names "Epilepsy" first. *)
Example collie_response :
  registration_response seed_store collie_request
  = mkBreedResponse "Collie" "dog"
      [mkDiseaseResponse "Diabetes" (2 # 10);
       mkDiseaseResponse "Epilepsy" (5 # 10)].
Proof. vm_compute. reflexivity. Qed.

Example collie_registered :
  registered seed_store collie_request
  = mkStore (seed_breeds ++ [Breed.mk 11 "Collie" "dog"])
      (seed_diseases ++ [Disease.mk 6 "Epilepsy"])
      (seed_links ++ [BreedDiseaseLink.mk 11 6 (5 # 10);
                      BreedDiseaseLink.mk 11 2 (2 # 10)]).
Proof. vm_compute. reflexivity. Qed.

(** ** The response and the store of a registration *)

Lemma bindM_Ok_inv {A B} (m : M A) (k : A -> M B) (s s' : Session) (b : B) :
  bindM m k s = (Ok b, s') ->
  exists a s1, m s = (Ok a, s1) /\ k a s1 = (Ok b, s').
Proof.
  intros H. apply bindM_inv in H.
  destruct H as [(a & s1 & Hm & Hk) | (e & _ & E)]; [| discriminate E].
  exists a, s1. auto.
Qed.

Lemma create_breed_Ok_inv (breed_data : BreedCreateSchema.t) (s s' : Session)
    (resp : BreedResponseSchema) :
  create_breed breed_data s = (Ok resp, s') ->
  exists breed out,
    query_breed_first (committed s') (BreedCreateSchema.name breed_data)
    = Some breed
    /\ disease_responses (committed s') breed (breed_diseases (committed s') breed)
       = Ok out
    /\ resp = mkBreedResponse (Breed.name breed) (Breed.species breed) out.
Proof.
  unfold create_breed. destruct (negb _); [discriminate |].
  intros H. apply bindM_Ok_inv in H. destruct H as (existing & s0 & G & H).
  unfold get_breed_by_name in G. injection G as <- <-.
  destruct (query_breed_first (committed s) _); [discriminate H |].
  apply bindM_Ok_inv in H. destruct H as (u1 & s1 & _ & H).
  apply bindM_Ok_inv in H. destruct H as (u2 & s2 & _ & H).
  apply bindM_Ok_inv in H. destruct H as (b3 & s3 & _ & H).
  apply bindM_Ok_inv in H. destruct H as (u4 & s4 & _ & H).
  apply bindM_Ok_inv in H. destruct H as (u5 & s5 & _ & H).
  apply bindM_Ok_inv in H. destruct H as (breed & s6 & R & H).
  apply refresh_breed_step in R. destruct R as [-> R].
  destruct (query_breed_first (committed s5) _) as [b |] eqn:HQ; [| discriminate R].
  injection R as <-.
  unfold breed_response in H.
  destruct (disease_responses _ _ _) as [out |] eqn:D; [| discriminate H].
  simpl in H. injection H as <- <-. exists breed, out. auto.
Qed.

Lemma disease_responses_rows (db : Store) (breed : Breed.t)
    (links : list BreedDiseaseLink.t) (out : list DiseaseResponseSchema) :
  disease_responses db breed links = Ok out ->
  map (fun t : string * Q * Z => (fst (fst t), snd (fst t)))
    (flat_map
       (fun l =>
          if Z.eqb (BreedDiseaseLink.breed_id l) (Breed.id breed) then
            match List.find
                    (fun d => Z.eqb (Disease.id d) (BreedDiseaseLink.disease_id l))
                    (diseases db) with
            | Some d =>
                [(Disease.name d, BreedDiseaseLink.prevalence l, Disease.id d)]
            | None => []
            end
          else [])
       links)
  = map (fun r => (dr_disease_name r, dr_prevalence r)) out.
Proof.
  revert out. induction links as [| l links IH]; intros out; simpl.
  - intros [= <-]. reflexivity.
  - destruct (Z.eqb (BreedDiseaseLink.breed_id l) (Breed.id breed)); [| apply IH].
    destruct (List.find _ _) as [d |]; [| discriminate].
    destruct (disease_responses db breed links) as [rest |]; [| discriminate].
    simpl. intros [= <-]. simpl. rewrite (IH rest eq_refl). reflexivity.
Qed.

Lemma flat_map_filter {A B} (p : A -> bool) (g : A -> list B) (l : list A) :
  (forall x, p x = false -> g x = []) ->
  flat_map g (List.filter p l) = flat_map g l.
Proof.
  intros H. induction l as [| x l IH]; simpl; [reflexivity |].
  destruct (p x) eqn:P; simpl; rewrite IH; [reflexivity |].
  rewrite (H x P). reflexivity.
Qed.

(** The rows of a response are those of the breed's links, whatever the
    order the links are read in. *)
Lemma breed_response_rows (db : Store) (breed : Breed.t)
    (out : list DiseaseResponseSchema) :
  disease_responses db breed (breed_diseases db breed) = Ok out ->
  Permutation
    (map (fun t : string * Q * Z => (fst (fst t), snd (fst t)))
       (flat_map
          (fun l =>
             if Z.eqb (BreedDiseaseLink.breed_id l) (Breed.id breed) then
               match List.find
                       (fun d => Z.eqb (Disease.id d)
                                   (BreedDiseaseLink.disease_id l))
                       (diseases db) with
               | Some d =>
                   [(Disease.name d, BreedDiseaseLink.prevalence l, Disease.id d)]
               | None => []
               end
             else [])
          (breed_disease_links db)))
    (map (fun r => (dr_disease_name r, dr_prevalence r)) out).
Proof.
  intros D. rewrite <- (disease_responses_rows _ _ _ _ D).
  apply Permutation_map. unfold breed_diseases.
  rewrite <- (flat_map_filter
                (fun l => Z.eqb (BreedDiseaseLink.breed_id l) (Breed.id breed))
                _ (breed_disease_links db)).
  - apply Permutation_flat_map. symmetry. apply stable_sort_perm.
  - intros l E. rewrite E. reflexivity.
Qed.

(** X19. What a registration answers is what the store then holds: when
    [POST /breeds] on a store that satisfies its constraints answers 201,
    the breed named in the response is found in the store afterwards, with
    the species of the response, and the query for its diseases returns,
    up to order, the names and prevalences that the response lists. *)
Theorem registration_round_trip (db db' : Store) (body : BreedCreateSchema.t)
    (resp : BreedResponseSchema) :
  store_ok db ->
  post_breeds db body = (mkResponse 201 (Ok resp), db') ->
  exists breed,
    query_breed_first db' (br_name resp) = Some breed
    /\ Breed.species breed = br_species resp
    /\ Permutation
         (map (fun t => (fst (fst t), snd (fst t)))
            (_fetch_target_diseases db' (Breed.id breed)))
         (map (fun r => (dr_disease_name r, dr_prevalence r)) (br_diseases resp)).
Proof.
  intros OK. unfold post_breeds.
  destruct (BreedCreateSchema.validate body) as [breed_data | e];
    [| destruct e; discriminate].
  destruct (create_breed breed_data (mkSession db [])) as [r s] eqn:C.
  intros H.
  assert (R : r = Ok resp /\ committed s = db').
  { destruct r as [a | e]; simpl in H.
    - injection H as <- <-. auto.
    - destruct e; discriminate H. }
  destruct R as [-> <-].
  pose proof (create_breed_step _ _ _ _ C) as [_ K].
  assert (OK' : store_ok (committed s))
    by (apply K; split; [exact OK | constructor]).
  apply create_breed_Ok_inv in C. destruct C as (breed & out & HQ & D & ->).
  destruct (query_breed_first_name _ _ _ HQ) as [_ N].
  exists breed. simpl. split; [rewrite N; exact HQ |]. split; [reflexivity |].
  rewrite (fetch_target_diseases_by_link _ _ OK').
  apply breed_response_rows, D.
Qed.

Lemma registration_round_trip_witness :
  exists breed,
    query_breed_first (registered seed_store collie_request) "Collie"
    = Some breed
    /\ Breed.species breed = "dog"
    /\ Permutation
         (map (fun t => (fst (fst t), snd (fst t)))
            (_fetch_target_diseases (registered seed_store collie_request)
               (Breed.id breed)))
         [("Diabetes", 2 # 10); ("Epilepsy", 5 # 10)]%Q.
Proof.
  apply (registration_round_trip seed_store
           (registered seed_store collie_request) collie_request
           (registration_response seed_store collie_request) seed_store_ok).
  vm_compute. reflexivity.
Defined.

(** X20. A breed can be analysed as soon as it is registered: when
    [POST /breeds] on a store that satisfies its constraints answers 201,
    the risk analysis of the registered name on the resulting store
    answers 200 for that name, and its care plan is the text generated for
    the diseases of the registration response, taken in the order of the
    [diseases] table. *)
Theorem analysis_after_registration gcm (ext : External) (db db' : Store)
    (body : BreedCreateSchema.t) (resp : BreedResponseSchema) :
  store_ok db ->
  post_breeds db body = (mkResponse 201 (Ok resp), db') ->
  exists r pairs,
    run_risk_analysis gcm ext db' (br_name resp) = Ok r
    /\ status (risk_analysis gcm ext db' (br_name resp)) = 200
    /\ target_breed r = br_name resp
    /\ Permutation pairs
         (map (fun x => (dr_disease_name x, dr_prevalence x)) (br_diseases resp))
    /\ _generate_care_plan ext (br_name resp) pairs = Ok (care_plan r).
Proof.
  intros OK. unfold post_breeds.
  destruct (BreedCreateSchema.validate body) as [breed_data | e];
    [| destruct e; discriminate].
  destruct (create_breed breed_data (mkSession db [])) as [r0 s] eqn:C.
  intros H.
  assert (R : r0 = Ok resp /\ committed s = db').
  { destruct r0 as [a | e]; simpl in H.
    - injection H as <- <-. auto.
    - destruct e; discriminate H. }
  destruct R as [-> <-].
  pose proof (create_breed_step _ _ _ _ C) as [_ K].
  assert (OK' : store_ok (committed s))
    by (apply K; split; [exact OK | constructor]).
  apply create_breed_Ok_inv in C. destruct C as (breed & out & HQ & D & ->).
  destruct (query_breed_first_name _ _ _ HQ) as [_ N]. simpl.
  rewrite <- N in HQ.
  unfold risk_analysis.
  rewrite (run_risk_analysis_found gcm ext _ _ breed HQ).
  destruct (shared_diseases_Ok (committed s)
              (map (fun t => snd t)
                 (_fetch_target_diseases (committed s) (Breed.id breed)))
              (map (fun t => fst (fst t))
                 (_apply_species_penalty (Breed.species breed)
                    (_top_similar_breeds_via_sql (committed s) (Breed.name breed))))
              OK') as (shared & ->).
  destruct (generate_care_plan_Ok ext (Breed.name breed)
              (map (fun t => (fst (fst t), snd (fst t)))
                 (_fetch_target_diseases (committed s) (Breed.id breed))))
    as (text & G).
  unfold bind. rewrite G. eexists. eexists. split; [reflexivity |].
  split; [reflexivity |]. split; [reflexivity |]. split; [| exact G].
  rewrite (fetch_target_diseases_by_link _ _ OK').
  apply breed_response_rows, D.
Qed.

Lemma analysis_after_registration_witness :
  exists r pairs,
    run_risk_analysis difflib.get_close_matches offline
      (registered seed_store collie_request) "Collie" = Ok r
    /\ status (risk_analysis difflib.get_close_matches offline
                 (registered seed_store collie_request) "Collie") = 200
    /\ target_breed r = "Collie"
    /\ Permutation pairs [("Diabetes", 2 # 10); ("Epilepsy", 5 # 10)]%Q
    /\ _generate_care_plan offline "Collie" pairs = Ok (care_plan r).
Proof.
  apply (analysis_after_registration difflib.get_close_matches offline
           seed_store (registered seed_store collie_request) collie_request
           (registration_response seed_store collie_request) seed_store_ok).
  vm_compute. reflexivity.
Defined.

(** ** Where the prevalence is checked *)

Lemma db_commit_no_http (s s' : Session) (e : exn) :
  db_commit s = (Raise e, s') ->
  forall code detail, e <> HTTPException code detail.
Proof.
  unfold db_commit. destruct (flush _ _); intros [= <- <-]; discriminate.
Qed.

Lemma refresh_breed_no_http (name : string) (s s' : Session) (e : exn) :
  refresh_breed name s = (Raise e, s') ->
  forall code detail, e <> HTTPException code detail.
Proof.
  intros H. apply refresh_breed_step in H. destruct H as [_ H].
  destruct (query_breed_first _ _); [discriminate H |].
  injection H as ->. discriminate.
Qed.

Lemma create_disease_no_http (name : string) (s s' : Session) (e : exn) :
  create_disease name s = (Raise e, s') ->
  forall code detail, e <> HTTPException code detail.
Proof.
  unfold create_disease. intros H.
  apply bindM_inv in H. destruct H as [(u & s1 & _ & H) | (e' & A & _)];
    [| discriminate A].
  apply bindM_inv in H. destruct H as [(u' & s2 & _ & H) | (e' & C & E)].
  - unfold refresh_disease, bindM, get_disease_by_name in H.
    destruct (query_disease_first _ _); unfold ret, raise in H;
      [discriminate H | injection H as <- _; discriminate].
  - injection E as ->. exact (db_commit_no_http _ _ _ C).
Qed.

Lemma handle_diseases_no_http (breed : Breed.t)
    (ds : list DiseaseCreateSchema.t) (s s' : Session) (e : exn) :
  Forall (fun d => DiseaseCreateSchema.valid d = true) ds ->
  handle_diseases breed ds s = (Raise e, s') ->
  forall code detail, e <> HTTPException code detail.
Proof.
  revert s. induction ds as [| d ds IH]; intros s V; simpl.
  - discriminate.
  - apply Forall_cons in V. destruct V as [Vd V].
    rewrite (valid_prevalence d Vd). intros H.
    apply bindM_inv in H.
    destruct H as [(found & s0 & G & H) | (e' & G & _)]; [| discriminate G].
    apply bindM_inv in H. destruct H as [(disease & s1 & _ & H) | (e' & D & E)].
    + apply bindM_inv in H. destruct H as [(u & s2 & _ & H) | (e' & A & _)];
        [| discriminate A].
      apply (IH _ V H).
    + injection E as ->. destruct found as [d0 |]; [discriminate D |].
      exact (create_disease_no_http _ _ _ _ D).
Qed.

Lemma disease_responses_no_http (db : Store) (breed : Breed.t)
    (ls : list BreedDiseaseLink.t) (e : exn) :
  disease_responses db breed ls = Raise e -> e = AttributeError.
Proof.
  induction ls as [| l ls IH]; simpl; [discriminate |].
  destruct (Z.eqb _ _); [| exact IH].
  destruct (List.find _ _); [| intros [= <-]; reflexivity].
  destruct (disease_responses db breed ls); [discriminate |].
  simpl. exact IH.
Qed.

Lemma create_breed_never_prevalence (breed_data : BreedCreateSchema.t)
    (s s' : Session) (e : exn) :
  Forall (fun d => DiseaseCreateSchema.valid d = true)
    (BreedCreateSchema.diseases breed_data) ->
  create_breed breed_data s = (Raise e, s') ->
  forall code,
    e <> HTTPException code "Prevalence must be between 0 and 1.".
Proof.
  intros V. unfold create_breed. destruct (negb _).
  { intros [= <- <-] code. discriminate. }
  intros H. apply bindM_inv in H.
  destruct H as [(existing & s0 & G & H) | (e' & G & _)]; [| discriminate G].
  destruct existing as [b |].
  { injection H as <- <-. intros code. discriminate. }
  apply bindM_inv in H. destruct H as [(u1 & s1 & _ & H) | (e' & A & _)];
    [| discriminate A].
  apply bindM_inv in H. destruct H as [(u2 & s2 & _ & H) | (e' & C & E)];
    [| injection E as ->; intros code; exact (db_commit_no_http _ _ _ C _ _)].
  apply bindM_inv in H. destruct H as [(breed & s3 & _ & H) | (e' & R & E)];
    [| injection E as ->; intros code;
       exact (refresh_breed_no_http _ _ _ _ R _ _)].
  apply bindM_inv in H. destruct H as [(u4 & s4 & _ & H) | (e' & Hd & E)];
    [| injection E as ->; intros code;
       exact (handle_diseases_no_http _ _ _ _ _ V Hd _ _)].
  apply bindM_inv in H. destruct H as [(u5 & s5 & _ & H) | (e' & C & E)];
    [| injection E as ->; intros code; exact (db_commit_no_http _ _ _ C _ _)].
  apply bindM_inv in H. destruct H as [(b6 & s6 & _ & H) | (e' & R & E)];
    [| injection E as ->; intros code;
       exact (refresh_breed_no_http _ _ _ _ R _ _)].
  unfold breed_response in H.
  destruct (disease_responses _ _ _) as [out | e'] eqn:D; simpl in H;
    [discriminate H |].
  injection H as <- <-. rewrite (disease_responses_no_http _ _ _ _ D).
  intros code. discriminate.
Qed.

(** X21. The prevalence is checked when the request body is validated, and
    only there: a body passes validation exactly when every listed
    prevalence lies in [0,1], and no request, whatever its body, is ever
    answered with the "Prevalence must be between 0 and 1." error that
    [create_breed] raises from its own check. *)
Theorem prevalence_checked_by_validation (db : Store)
    (body : BreedCreateSchema.t) :
  (BreedCreateSchema.validate body = Ok body
   <-> Forall (fun d => (0 <= DiseaseCreateSchema.prevalence d <= 1)%Q)
         (BreedCreateSchema.diseases body))
  /\ forall code,
       content (fst (post_breeds db body))
       <> Raise (HTTPException code "Prevalence must be between 0 and 1.").
Proof.
  split.
  - unfold BreedCreateSchema.validate. rewrite List.Forall_forall.
    destruct (forallb _ _) eqn:F.
    + split; [intros _ | reflexivity]. rewrite forallb_forall in F.
      intros d Hd. specialize (F d Hd). unfold DiseaseCreateSchema.valid in F.
      apply andb_true_iff in F. rewrite !Qle_bool_iff in F. exact F.
    + split; [discriminate |]. intros All. exfalso.
      assert (T : forallb DiseaseCreateSchema.valid
                    (BreedCreateSchema.diseases body) = true).
      { apply forallb_forall. intros d Hd. unfold DiseaseCreateSchema.valid.
        apply andb_true_iff. rewrite !Qle_bool_iff. apply All, Hd. }
      congruence.
  - intros code. unfold post_breeds.
    destruct (BreedCreateSchema.validate body) as [breed | e] eqn:V.
    + pose proof (validate_Ok _ _ V) as ->.
      destruct (create_breed body (mkSession db [])) as [r s] eqn:C. simpl.
      destruct r as [a | e]; simpl; [discriminate |].
      pose proof (create_breed_never_prevalence body _ _ _
                    (validate_valid body V) C code) as NP.
      destruct e; simpl; congruence.
    + unfold BreedCreateSchema.validate in V.
      destruct (forallb _ _); [discriminate V |]. injection V as <-.
      simpl. discriminate.
Qed.

(** ** Registering a disease on its own *)

(** X22. [create_disease] on a store that satisfies its constraints, with
    nothing pending: a name that no disease row has is added as one new row
    under an id no disease had, [get_disease_by_name] then finds that row,
    the rows found for other names are the same as before, and the
    constraints still hold; a name that a disease row already has raises
    [IntegrityError] and leaves the store as it was. *)
Theorem create_disease_round_trip (db : Store) (name : string) :
  store_ok db ->
  (query_disease_first db name = None ->
   exists d db',
     create_disease name (mkSession db []) = (Ok d, mkSession db' [])
     /\ Disease.name d = name
     /\ ~ In (Disease.id d) (map Disease.id (diseases db))
     /\ db' = mkStore (breeds db) (diseases db ++ [d]) (breed_disease_links db)
     /\ store_ok db'
     /\ get_disease_by_name name (mkSession db' [])
        = (Ok (Some d), mkSession db' [])
     /\ forall n, n <> name ->
          query_disease_first db' n = query_disease_first db n)
  /\ (query_disease_first db name <> None ->
      create_disease name (mkSession db [])
      = (Raise IntegrityError, mkSession db [])).
Proof.
  intros OK. split.
  - intros HQ.
    pose proof (create_disease_fresh name db []) as F.
    rewrite app_nil_r in F. specialize (F (link_pk db OK) HQ).
    simpl in F.
    set (d := Disease.mk (next_id (map Disease.id (diseases db))) name) in *.
    exists d, (mkStore (breeds db) (diseases db ++ [d]) (breed_disease_links db)).
    split; [exact F |]. split; [reflexivity |].
    split.
    { intros I. apply next_id_fresh in I. simpl in I. lia. }
    split; [reflexivity |].
    pose proof (create_disease_step _ _ _ _ F) as (_ & _ & K & L).
    split.
    { apply K. split; [exact OK | constructor]. }
    split.
    { unfold get_disease_by_name. simpl. f_equal. f_equal.
      exact (L d eq_refl). }
    intros n Hn. unfold query_disease_first. simpl.
    destruct (List.find (fun d0 => String.eqb (Disease.name d0) n) (diseases db))
      as [d0 |] eqn:E.
    + exact (find_app_l _ _ _ _ E).
    + rewrite (find_app_r _ _ _ E). simpl.
      destruct (String.eqb_spec name n) as [-> | _]; [contradiction | reflexivity].
  - intros HQ. unfold create_disease, bindM, db_add, db_commit. simpl.
    destruct (query_disease_first db name); [reflexivity | contradiction].
Qed.

Lemma create_disease_round_trip_witness :
  (exists d db',
     create_disease "Scurvy" (mkSession seed_store []) = (Ok d, mkSession db' [])
     /\ Disease.name d = "Scurvy"
     /\ ~ In (Disease.id d) (map Disease.id (diseases seed_store))
     /\ db' = mkStore (breeds seed_store) (diseases seed_store ++ [d])
                (breed_disease_links seed_store)
     /\ store_ok db'
     /\ get_disease_by_name "Scurvy" (mkSession db' [])
        = (Ok (Some d), mkSession db' [])
     /\ forall n, n <> "Scurvy" ->
          query_disease_first db' n = query_disease_first seed_store n)
  /\ create_disease "Arthritis" (mkSession seed_store [])
     = (Raise IntegrityError, mkSession seed_store []).
Proof.
  split.
  - apply (create_disease_round_trip seed_store "Scurvy" seed_store_ok).
    reflexivity.
  - apply (create_disease_round_trip seed_store "Arthritis" seed_store_ok).
    discriminate.
Defined.

(** ** A disease listed twice *)

Lemma flush_links_inv (c c' : Store) (P : list BreedDiseaseLink.t) :
  flush c (map link_instance P) = Some c' ->
  c' = mkStore (breeds c) (diseases c) (breed_disease_links c ++ P).
Proof.
  revert c. induction P as [| l P IH]; intros c; simpl.
  - intros [= <-]. rewrite app_nil_r. destruct c. reflexivity.
  - destruct (existsb _ _); [discriminate |]. intros F.
    apply IH in F. subst c'. simpl. rewrite <- app_assoc. destruct l.
    reflexivity.
Qed.

Lemma flush_link_conflict (c : Store) (P : list BreedDiseaseLink.t)
    (l : BreedDiseaseLink.t) :
  In (BreedDiseaseLink.key l)
    (map BreedDiseaseLink.key (breed_disease_links c ++ P)) ->
  flush c (map link_instance (P ++ [l])) = None.
Proof.
  intros H. rewrite map_app, flush_app.
  destruct (flush c (map link_instance P)) as [c' |] eqn:F; [| reflexivity].
  apply flush_links_inv in F. subst c'. simpl.
  destruct (existsb _ _) eqn:X; [reflexivity | exfalso].
  apply in_map_iff in H. destruct H as (l' & K & I).
  assert (T : existsb
                (fun l0 => Z.eqb (BreedDiseaseLink.breed_id l0)
                             (BreedDiseaseLink.breed_id l)
                           && Z.eqb (BreedDiseaseLink.disease_id l0)
                                (BreedDiseaseLink.disease_id l))
                (breed_disease_links c ++ P) = true).
  { apply existsb_exists. exists l'. split; [exact I |].
    unfold BreedDiseaseLink.key in K. injection K as -> ->.
    rewrite !Z.eqb_refl. reflexivity. }
  simpl in X. congruence.
Qed.

Lemma create_disease_doomed (name : string) (s : Session) :
  doomed s ->
  create_disease name s = (Raise IntegrityError, mkSession (committed s) []).
Proof.
  unfold doomed. intros F.
  unfold create_disease, bindM, db_add, db_commit. simpl.
  rewrite flush_app, F. reflexivity.
Qed.

Lemma handle_diseases_doomed (breed : Breed.t)
    (ds : list DiseaseCreateSchema.t) :
  forall (s s' : Session) (r : result unit),
    Forall (fun d => DiseaseCreateSchema.valid d = true) ds ->
    doomed s ->
    handle_diseases breed ds s = (r, s') ->
    r = Raise IntegrityError \/ (r = Ok tt /\ doomed s').
Proof.
  induction ds as [| d ds IH]; intros s s' r V F; simpl.
  - intros [= <- <-]. right. auto.
  - apply Forall_cons in V. destruct V as [Vd V].
    rewrite (valid_prevalence d Vd). intros H.
    apply bindM_inv in H.
    destruct H as [(found & s0 & G & H) | (e & G & _)]; [| discriminate G].
    unfold get_disease_by_name in G. injection G as <- <-.
    apply bindM_inv in H. destruct H as [(disease & s1 & D & H) | (e & D & ->)].
    + destruct (query_disease_first _ _) as [dr |].
      * injection D as <- <-.
        apply bindM_inv in H.
        destruct H as [(u & s2 & A & H) | (e & A & _)]; [| discriminate A].
        unfold db_add in A. injection A as _ <-.
        apply (IH _ _ _ V) in H; [exact H |].
        unfold doomed in *. simpl. rewrite flush_app, F. reflexivity.
      * rewrite (create_disease_doomed _ _ F) in D. discriminate D.
    + destruct (query_disease_first _ _) as [dr |]; [discriminate D |].
      rewrite (create_disease_doomed _ _ F) in D. injection D as <- _.
      left. reflexivity.
Qed.

Lemma create_disease_pending (name : string) (c : Store)
    (P : list BreedDiseaseLink.t) :
  query_disease_first c name = None ->
  create_disease name (mkSession c (map link_instance P))
  = (Raise IntegrityError, mkSession c [])
  \/ create_disease name (mkSession c (map link_instance P))
     = (Ok (Disease.mk (next_id (map Disease.id (diseases c))) name),
        mkSession
          (mkStore (breeds c)
             (diseases c
              ++ [Disease.mk (next_id (map Disease.id (diseases c))) name])
             (breed_disease_links c ++ P))
          []).
Proof.
  intros HQ. unfold create_disease, bindM, db_add, db_commit. simpl.
  rewrite flush_app.
  destruct (flush c (map link_instance P)) as [c' |] eqn:F; [| left; reflexivity].
  apply flush_links_inv in F. subst c'. right.
  unfold query_disease_first in *. cbn [flush insert_row]. unfold query_disease_first. cbn [diseases]. rewrite HQ.
  unfold refresh_disease, bindM, get_disease_by_name, query_disease_first.
  simpl. rewrite (find_app_r _ _ _ HQ). simpl. rewrite String.eqb_refl.
  reflexivity.
Qed.

Lemma not_NoDup_cons (n : string) (l : list string) :
  ~ NoDup (n :: l) -> In n l \/ ~ NoDup l.
Proof.
  intros H. destruct (in_dec string_dec n l) as [I | I]; [left; exact I |].
  right. intros N. apply H. constructor; [| exact N].
  intros E. apply I, list_elem_of_In, E.
Qed.

Lemma handle_diseases_repeated (breed : Breed.t)
    (ds : list DiseaseCreateSchema.t) :
  forall (c : Store) (P : list BreedDiseaseLink.t) (r : result unit)
         (s' : Session),
    Forall (fun d => DiseaseCreateSchema.valid d = true) ds ->
    ~ NoDup (map DiseaseCreateSchema.disease_name ds)
    \/ (exists d, In d ds
          /\ already_linked (Breed.id breed) c P
               (DiseaseCreateSchema.disease_name d)) ->
    handle_diseases breed ds (mkSession c (map link_instance P)) = (r, s') ->
    r = Raise IntegrityError \/ (r = Ok tt /\ doomed s').
Proof.
  induction ds as [| d ds IH]; intros c P r s' V Hyp.
  - exfalso. destruct Hyp as [N | (d & [] & _)]. apply N. constructor.
  - pose proof V as V0. apply Forall_cons in V. destruct V as [Vd V].
    set (n := DiseaseCreateSchema.disease_name d).
    assert (Cases :
      already_linked (Breed.id breed) c P n
      \/ (In n (map DiseaseCreateSchema.disease_name ds)
          \/ ~ NoDup (map DiseaseCreateSchema.disease_name ds)
          \/ exists d', In d' ds
               /\ already_linked (Breed.id breed) c P
                    (DiseaseCreateSchema.disease_name d'))).
    { destruct Hyp as [N | (d' & [<- | I] & L)].
      - apply not_NoDup_cons in N. tauto.
      - left. exact L.
      - right. right. right. exists d'. auto. }
    simpl handle_diseases. rewrite (valid_prevalence d Vd). fold n. intros H.
    apply bindM_inv in H.
    destruct H as [(found & s0 & G & H) | (e & G & _)]; [| discriminate G].
    unfold get_disease_by_name in G. simpl in G. injection G as <- <-.
    destruct Cases as [(dr & HQ & K) | Rest].
    + (* the link of this entry is already there *)
      rewrite HQ in H. unfold bindM at 1, ret at 1 in H.
      apply bindM_inv in H.
      destruct H as [(u & s2 & A & H) | (e & A & _)]; [| discriminate A].
      unfold db_add in A. injection A as _ <-.
      apply (handle_diseases_doomed _ _ _ _ _ V) in H; [exact H |].
      unfold doomed. simpl.
      change [NewLink (Breed.id breed) (Disease.id dr)
                (DiseaseCreateSchema.prevalence d)]
        with (map link_instance
                [BreedDiseaseLink.mk (Breed.id breed) (Disease.id dr)
                   (DiseaseCreateSchema.prevalence d)]).
      rewrite <- map_app. apply flush_link_conflict. exact K.
    + (* the repetition comes later *)
      assert (Step : forall (c1 : Store) (disease : Disease.t),
        (forall m x, query_disease_first c m = Some x ->
                     query_disease_first c1 m = Some x) ->
        query_disease_first c1 n = Some disease ->
        forall P1,
          breed_disease_links c1 ++ P1
          = (breed_disease_links c ++ P)
            ++ [BreedDiseaseLink.mk (Breed.id breed) (Disease.id disease)
                  (DiseaseCreateSchema.prevalence d)] ->
          handle_diseases breed ds (mkSession c1 (map link_instance P1))
          = (r, s') ->
          r = Raise IntegrityError \/ (r = Ok tt /\ doomed s')).
      { intros c1 disease Keep HQ1 P1 EL H1.
        apply (IH c1 P1 r s' V); [| exact H1].
        destruct Rest as [I | [N | (d' & I & dr & HQ & K)]].
        - right. apply in_map_iff in I. destruct I as (d' & E & I).
          exists d'. split; [exact I |]. exists disease. rewrite E.
          split; [exact HQ1 |]. rewrite EL, map_app. apply in_or_app. right.
          left. reflexivity.
        - left. exact N.
        - right. exists d'. split; [exact I |]. exists dr.
          split; [apply Keep, HQ |]. rewrite EL, map_app. apply in_or_app.
          left. exact K. }
      destruct (query_disease_first c n) as [dr |] eqn:HQ.
      * unfold bindM at 1, ret at 1 in H.
        apply bindM_inv in H.
        destruct H as [(u & s2 & A & H) | (e & A & _)]; [| discriminate A].
        unfold db_add in A. injection A as _ <-. simpl in H.
        change [NewLink (Breed.id breed) (Disease.id dr)
                  (DiseaseCreateSchema.prevalence d)]
          with (map link_instance
                  [BreedDiseaseLink.mk (Breed.id breed) (Disease.id dr)
                     (DiseaseCreateSchema.prevalence d)]) in H.
        rewrite <- map_app in H.
        apply (Step c dr (fun m x E => E) HQ _ (app_assoc _ _ _) H).
      * destruct (create_disease_pending n c P HQ) as [E | E].
        -- unfold bindM at 1 in H. rewrite E in H. injection H as <- _.
           left. reflexivity.
        -- unfold bindM at 1 in H. rewrite E in H.
           apply bindM_inv in H.
           destruct H as [(u & s2 & A & H) | (e & A & _)]; [| discriminate A].
           unfold db_add in A. injection A as _ <-. simpl in H.
           refine (Step _ _ _ _
                     [BreedDiseaseLink.mk (Breed.id breed) _
                        (DiseaseCreateSchema.prevalence d)] _ H).
           ++ intros m x Q. unfold query_disease_first in *. simpl.
              apply find_app_l, Q.
           ++ unfold query_disease_first in *. simpl.
              rewrite (find_app_r _ _ _ HQ). simpl. rewrite String.eqb_refl.
              reflexivity.
           ++ reflexivity.
Qed.

(** X23. A request that lists a disease name twice fails after the breed
    was written: when the body passes validation, the species is allowed and
    the name is not registered yet, a repeated disease name makes
    [POST /breeds] answer 500 with [IntegrityError], and the store after
    the request has the breed row all the same. *)
Theorem repeated_disease_fails (db : Store) (body : BreedCreateSchema.t) :
  BreedCreateSchema.validate body = Ok body ->
  species_allowed (BreedCreateSchema.species body) = true ->
  query_breed_first db (BreedCreateSchema.name body) = None ->
  ~ NoDup (map DiseaseCreateSchema.disease_name
             (BreedCreateSchema.diseases body)) ->
  fst (post_breeds db body) = mkResponse 500 (Raise IntegrityError)
  /\ query_breed_first (snd (post_breeds db body)) (BreedCreateSchema.name body)
     = Some (Breed.mk (next_id (map Breed.id (breeds db)))
               (BreedCreateSchema.name body) (BreedCreateSchema.species body)).
Proof.
  intros V A HQ N. unfold post_breeds. rewrite V.
  destruct (create_breed body (mkSession db [])) as [r s] eqn:C. simpl.
  split; [| eapply create_breed_writes_breed; eassumption].
  rewrite (create_breed_fresh body db A HQ) in C.
  apply bindM_inv in C.
  destruct C as [(breed & s1 & R & C) | (e & R & _)].
  - apply refresh_breed_step in R. destruct R as [-> _].
    apply bindM_inv in C.
    assert (D : forall (rh : result unit) sh,
      handle_diseases breed (BreedCreateSchema.diseases body)
        (mkSession
           (mkStore
              (breeds db
               ++ [Breed.mk (next_id (map Breed.id (breeds db)))
                     (BreedCreateSchema.name body)
                     (BreedCreateSchema.species body)])
              (diseases db) (breed_disease_links db))
           []) = (rh, sh) ->
      rh = Raise IntegrityError \/ (rh = Ok tt /\ doomed sh)).
    { intros rh sh H.
      eapply (handle_diseases_repeated breed _ _ [] rh sh
                (validate_valid body V));
        [left; exact N | exact H]. }
    destruct C as [(u & s2 & H & C) | (e & H & ->)].
    + apply D in H. destruct H as [H | [_ F]]; [discriminate H |].
      unfold bindM at 1, db_commit at 1 in C. unfold doomed in F.
      rewrite F in C. injection C as <- _. reflexivity.
    + apply D in H. destruct H as [H | [H _]]; [| discriminate H].
      injection H as ->. reflexivity.
  - apply refresh_breed_step in R. destruct R as [_ R].
    unfold query_breed_first in R. simpl in R.
    unfold query_breed_first in HQ. rewrite (find_app_r _ _ _ HQ) in R.
    simpl in R. rewrite String.eqb_refl in R. discriminate R.
Qed.

Lemma repeated_disease_fails_witness :
  fst (post_breeds seed_store triple_request)
  = mkResponse 500 (Raise IntegrityError)
  /\ query_breed_first (snd (post_breeds seed_store triple_request)) "Collie"
     = Some (Breed.mk (next_id (map Breed.id (breeds seed_store)))
               "Collie" "dog").
Proof.
  apply (repeated_disease_fails seed_store triple_request);
    [reflexivity | reflexivity | reflexivity |].
  intros N. apply NoDup_cons in N. destruct N as [N _]. apply N. left.
Defined.
